(** * ost-export: extraction and export pipeline

    A shallow embedding of the converter's source (the TypeScript module that
    defines [sanitizeFilename], [formatDate], [createEMLContent],
    [createVCardContent], [createICalContent], [extractFolder] and
    [exportToFiles]) together with the properties of its specification.

    Conventions of the embedding.
    - A JavaScript string is a [string]; one character of the model stands
      for one UTF-16 code unit, so [length] is the JavaScript [.length].
      The model has the code units below 256; the converter tells apart
      only characters of the ASCII range (and white space, in [trim]).
    - A JavaScript value used in a boolean position is truthy when it is a
      non-empty string, a non-zero number or a present object.  The reader
      library (pst-extractor) types its text properties as [string] and
      reports an absent property as the empty string, and an absent number
      as [0]; optional objects are [option]s.
    - An operation of the reader or of the file system that may throw
      returns a [Result]; [try ... catch] is the combinator [try_catch].
    - The cursor of a folder and the attachment streams are finite scripts of
      the successive outcomes of their read operation. *)

From Stdlib Require Import ZArith List String Ascii Bool Lia Arith.
From Stdlib Require Import Init.Byte.
Import ListNotations.
Open Scope string_scope.

Set Implicit Arguments.
Set Warnings "-register-all,-abstract-large-number".

(** ** Strings *)

Module JsString.

Definition CR : ascii := "013"%char.
Definition LF : ascii := "010"%char.
Definition CRLF : string := String CR (String LF "").
Definition DQUOTE : ascii := "034"%char.

(** Truthiness of a string: [Boolean(s)]. *)
Definition truthy (s : string) : bool :=
  match s with
  | EmptyString => false
  | String _ _ => true
  end.

(** [a || b] on strings. *)
Definition or_else (a b : string) : string :=
  if truthy a then a else b.

Fixpoint map (f : ascii -> ascii) (s : string) : string :=
  match s with
  | EmptyString => EmptyString
  | String c r => String (f c) (map f r)
  end.

(** [s.slice(0, n)] for a non-negative [n]. *)
Fixpoint take (n : nat) (s : string) : string :=
  match n, s with
  | O, _ => EmptyString
  | _, EmptyString => EmptyString
  | S k, String c r => String c (take k r)
  end.

Fixpoint drop (n : nat) (s : string) : string :=
  match n, s with
  | O, _ => s
  | _, EmptyString => EmptyString
  | S k, String _ r => drop k r
  end.

Fixpoint forallb (p : ascii -> bool) (s : string) : bool :=
  match s with
  | EmptyString => true
  | String c r => p c && forallb p r
  end.

(** Characters of a string, for statements about membership. *)
Definition chars (s : string) : list ascii := list_ascii_of_string s.

(** Replacement of every match of a one-character class by the empty
    string: delete the characters [p] holds of. *)
Fixpoint remove (p : ascii -> bool) (s : string) : string :=
  match s with
  | EmptyString => EmptyString
  | String c r => if p c then remove p r else String c (remove p r)
  end.

(** [xs.join(sep)]. *)
Fixpoint join (sep : string) (xs : list string) : string :=
  match xs with
  | [] => ""
  | [x] => x
  | x :: rest => x ++ sep ++ join sep rest
  end.

(** [s.startsWith(p)]. *)
Definition startsWith (p s : string) : bool := prefix p s.

(** [s.includes(p)]. *)
Fixpoint includes (p s : string) : bool :=
  prefix p s ||
  match s with
  | EmptyString => false
  | String _ r => includes p r
  end.

(** [s.split(c)] for a one-character separator; [cur] is the field read so
    far. *)
Fixpoint split_from (sep : ascii) (cur : string) (s : string) : list string :=
  match s with
  | EmptyString => [cur]
  | String c r =>
      if Ascii.eqb c sep then cur :: split_from sep "" r
      else split_from sep (cur ++ String c "") r
  end.

Definition split (sep : ascii) (s : string) : list string :=
  split_from sep "" s.

(** White space and line terminators stripped by [trim], among the code
    units of the model: TAB, LF, VT, FF, CR, SPACE and NBSP. *)
Definition isSpace (c : ascii) : bool :=
  let n := nat_of_ascii c in
  ((9 <=? n)%nat && (n <=? 13)%nat) || (n =? 32)%nat || (n =? 160)%nat.

Fixpoint trimStart (s : string) : string :=
  match s with
  | EmptyString => EmptyString
  | String c r => if isSpace c then trimStart r else s
  end.

(** Trailing white space: a space is dropped when everything after it has
    been dropped. *)
Fixpoint trimEnd (s : string) : string :=
  match s with
  | EmptyString => EmptyString
  | String c r =>
      match trimEnd r with
      | EmptyString => if isSpace c then EmptyString else String c EmptyString
      | t => String c t
      end
  end.

Definition trim (s : string) : string := trimEnd (trimStart s).

End JsString.

(** ** Path sanitizer *)

(** The character class of the sanitizer's regular expression. *)
Definition invalidChar (c : ascii) : bool :=
  Ascii.eqb c "<" || Ascii.eqb c ">" || Ascii.eqb c ":" ||
  Ascii.eqb c JsString.DQUOTE || Ascii.eqb c "/" || Ascii.eqb c "\" ||
  Ascii.eqb c "|" || Ascii.eqb c "?" || Ascii.eqb c "*".

Definition replaceInvalid (c : ascii) : ascii :=
  if invalidChar c then "_"%char else c.

Definition sanitizeFilename (filename : string) : string :=
  let sanitized := JsString.map replaceInvalid filename in
  JsString.take 180 sanitized.

(** ** Dates

    A [Date] is its time value: milliseconds since the epoch, UTC, within the
    range of valid JavaScript dates (the reader never hands out an invalid
    date).  The two printers follow ECMAScript's [Date.prototype.toUTCString]
    and [Date.prototype.toISOString]. *)

Module JsDate.

Open Scope Z_scope.

Definition Date := Z.

Definition msPerDay : Z := 86400000.

Definition Day (t : Date) : Z := t / msPerDay.
Definition TimeWithinDay (t : Date) : Z := t mod msPerDay.

Definition HourFromTime (t : Date) : Z := TimeWithinDay t / 3600000.
Definition MinFromTime (t : Date) : Z := (TimeWithinDay t / 60000) mod 60.
Definition SecFromTime (t : Date) : Z := (TimeWithinDay t / 1000) mod 60.
Definition msFromTime (t : Date) : Z := TimeWithinDay t mod 1000.

(** 0 is Sunday; the epoch fell on a Thursday. *)
Definition WeekDay (t : Date) : Z := (Day t + 4) mod 7.

(** Year, month (1..12) and day of the month (1..31) of a day number, in the
    proleptic Gregorian calendar: eras of 400 years counted from 1 March of
    year 0. *)
Definition civil (days : Z) : Z * Z * Z :=
  let z := days + 719468 in
  let era := z / 146097 in
  let doe := z mod 146097 in
  let yoe := (doe - doe / 1460 + doe / 36524 - doe / 146096) / 365 in
  let doy := doe - (365 * yoe + yoe / 4 - yoe / 100) in
  let mp := (5 * doy + 2) / 153 in
  let d := doy - (153 * mp + 2) / 5 + 1 in
  let m := if mp <? 10 then mp + 3 else mp - 9 in
  let y := yoe + era * 400 + (if m <=? 2 then 1 else 0) in
  (y, m, d).

Definition YearFromTime (t : Date) : Z := fst (fst (civil (Day t))).
Definition MonthFromTime (t : Date) : Z := snd (fst (civil (Day t))).
Definition DateFromTime (t : Date) : Z := snd (civil (Day t)).

Definition digit (n : Z) : ascii :=
  ascii_of_nat (48 + Z.to_nat (n mod 10)).

(** The last [w] decimal digits of [n], most significant first. *)
Fixpoint zeroPad (w : nat) (n : Z) : string :=
  match w with
  | O => ""
  | S k => zeroPad k (n / 10) ++ String (digit n) ""
  end.

Fixpoint countDigits (fuel : nat) (n : Z) : nat :=
  match fuel with
  | O => 1
  | S k => if n <? 10 then 1%nat else S (countDigits k (n / 10))
  end.

(** [ToZeroPaddedDecimalString(n, w)] for a non-negative [n]. *)
Definition padded (w : nat) (n : Z) : string :=
  zeroPad (Nat.max w (countDigits (S (Z.to_nat (Z.log2 n))) n)) n.

Definition dayName (wd : Z) : string :=
  nth (Z.to_nat wd) ["Sun"; "Mon"; "Tue"; "Wed"; "Thu"; "Fri"; "Sat"] ""%string.

Definition monthName (m : Z) : string :=
  nth (Z.to_nat (m - 1))
      ["Jan"; "Feb"; "Mar"; "Apr"; "May"; "Jun";
       "Jul"; "Aug"; "Sep"; "Oct"; "Nov"; "Dec"] ""%string.

Definition toUTCString (t : Date) : string :=
  let yv := YearFromTime t in
  let yearSign := if 0 <=? yv then "" else "-" in
  (dayName (WeekDay t) ++ ", " ++ padded 2 (DateFromTime t) ++ " " ++
   monthName (MonthFromTime t) ++ " " ++ yearSign ++ padded 4 (Z.abs yv) ++
   " " ++ padded 2 (HourFromTime t) ++ ":" ++ padded 2 (MinFromTime t) ++
   ":" ++ padded 2 (SecFromTime t) ++ " GMT")%string.

Definition toISOString (t : Date) : string :=
  let yv := YearFromTime t in
  let year :=
    if (0 <=? yv) && (yv <=? 9999) then padded 4 yv
    else ((if (0 <=? yv)%Z then "+" else "-") ++ padded 6 (Z.abs yv))%string in
  (year ++ "-" ++ padded 2 (MonthFromTime t) ++ "-" ++
   padded 2 (DateFromTime t) ++ "T" ++ padded 2 (HourFromTime t) ++ ":" ++
   padded 2 (MinFromTime t) ++ ":" ++ padded 2 (SecFromTime t) ++ "." ++
   padded 3 (msFromTime t) ++ "Z")%string.

End JsDate.

Definition Date : Type := JsDate.Date.

(** [formatDate]: an absent date prints as the empty string, a present one
    as its ISO form with every colon and period replaced by a hyphen. *)
Definition isColonOrDot (c : ascii) : bool :=
  Ascii.eqb c ":" || Ascii.eqb c ".".

Definition formatDate (date : option Date) : string :=
  match date with
  | None => ""
  | Some d =>
      JsString.map (fun c => if isColonOrDot c then "-"%char else c)
                   (JsDate.toISOString d)
  end.

(** ** Extracted records

    The four interfaces of the source.  A [Buffer] is a list of bytes; an
    optional string property that is absent is the empty string (both are
    falsy, and no code of the converter tells them apart). *)

Definition Buffer : Type := list byte.

Module AttachmentData.
Record t : Type := mk {
  filename : string;
  data : Buffer;
  contentType : string
}.
End AttachmentData.

Module MessageData.
Record t : Type := mk {
  subject : string;
  sender : string;
  recipients : list string;
  body : string;
  sentDate : option Date;
  receivedDate : option Date;
  headers : string;
  attachments : list AttachmentData.t
}.
End MessageData.

Module ContactData.
Record t : Type := mk {
  fullName : string;
  email : string;
  businessPhone : string;
  mobilePhone : string;
  homePhone : string;
  address : string;
  company : string;
  jobTitle : string
}.
End ContactData.

Module AppointmentData.
Record t : Type := mk {
  subject : string;
  location : string;
  startTime : option Date;
  endTime : option Date;
  body : string
}.
End AppointmentData.

(** [FolderData] contains itself through the list of its subfolders. *)
Inductive FolderData : Type := mkFolderData {
  name : string;
  messages : list MessageData.t;
  contacts : list ContactData.t;
  appointments : list AppointmentData.t;
  subfolders : list FolderData
}.

(** ** Base64, as [Buffer.toString('base64')] *)

Module Base64.

Definition alphabet : string :=
  "ABCDEFGHIJKLMNOPQRSTUVWXYZabcdefghijklmnopqrstuvwxyz0123456789+/".

Definition sextet (n : N) : ascii :=
  match String.get (N.to_nat n) alphabet with
  | Some c => c
  | None => "="%char
  end.

Definition hi6 (a : N) : N := N.shiftr a 2.
Definition mid6a (a b : N) : N :=
  N.lor (N.shiftl (N.land a 3) 4) (N.shiftr b 4).
Definition mid6b (b c : N) : N :=
  N.lor (N.shiftl (N.land b 15) 2) (N.shiftr c 6).
Definition lo6 (c : N) : N := N.land c 63.

Fixpoint encode (bs : Buffer) : string :=
  match bs with
  | [] => ""
  | [x] =>
      let a := Byte.to_N x in
      String (sextet (hi6 a)) (String (sextet (mid6a a 0)) "==")
  | [x; y] =>
      let a := Byte.to_N x in
      let b := Byte.to_N y in
      String (sextet (hi6 a))
        (String (sextet (mid6a a b)) (String (sextet (mid6b b 0)) "="))
  | x :: y :: z :: rest =>
      let a := Byte.to_N x in
      let b := Byte.to_N y in
      let c := Byte.to_N z in
      String (sextet (hi6 a))
        (String (sextet (mid6a a b))
           (String (sextet (mid6b b c))
              (String (sextet (lo6 c)) (encode rest))))
  end.

End Base64.

(** The matches of [/.{1,76}/g] on a text without line terminators: the
    successive pieces of at most [n] characters. *)
Fixpoint pieces (fuel n : nat) (s : string) : list string :=
  match fuel with
  | O => []
  | S f =>
      match s with
      | EmptyString => []
      | _ => JsString.take n s :: pieces f n (JsString.drop n s)
      end
  end.

Definition wrap76 (s : string) : string :=
  JsString.or_else (JsString.join JsString.CRLF (pieces (length s) 76 s)) "".

(** ** Format serializers *)

Definition bodyContentType (body : string) : string :=
  if JsString.includes "<html" body || JsString.includes "<body" body
  then "Content-Type: text/html; charset=utf-8"
  else "Content-Type: text/plain; charset=utf-8".

(** The two ambient values [createEMLContent] reads: [rnd] is the text of
    [Math.random().toString(36).substr(2)] and [now] is [new Date()]. *)
Record Ambient : Type := mkAmbient {
  rnd : string;
  now : Date
}.

Definition boundaryOf (env : Ambient) : string := "boundary_" ++ rnd env.

Definition quoted (s : string) : string :=
  String JsString.DQUOTE (s ++ String JsString.DQUOTE "").

(** The date printed in the header: [sentDate || receivedDate || new Date()]. *)
Definition headerDate (env : Ambient) (message : MessageData.t) : Date :=
  match MessageData.sentDate message with
  | Some d => d
  | None =>
      match MessageData.receivedDate message with
      | Some d => d
      | None => now env
      end
  end.

(** The array literal of header lines, before [filter(Boolean)]. *)
Definition emlHeaderCandidates (env : Ambient) (message : MessageData.t)
  : list string :=
  [ "From: " ++ MessageData.sender message;
    "To: " ++ JsString.join ", " (MessageData.recipients message);
    "Subject: " ++ MessageData.subject message;
    "Date: " ++ JsDate.toUTCString (headerDate env message);
    "MIME-Version: 1.0";
    match MessageData.attachments message with
    | _ :: _ =>
        "Content-Type: multipart/mixed; boundary=" ++ quoted (boundaryOf env)
    | [] => bodyContentType (MessageData.body message)
    end;
    "X-Mailer: pst-extractor";
    JsString.or_else (MessageData.headers message) "" ].

Definition emlHeaderLines (env : Ambient) (message : MessageData.t)
  : list string :=
  filter JsString.truthy (emlHeaderCandidates env message).

Definition isDQuote (c : ascii) : bool := Ascii.eqb c JsString.DQUOTE.

Definition emlAttachmentPart (boundary : string) (attachment : AttachmentData.t)
  : list string :=
  let filename := JsString.remove isDQuote (AttachmentData.filename attachment) in
  [ "--" ++ boundary;
    "Content-Type: " ++
      JsString.or_else (AttachmentData.contentType attachment)
                       "application/octet-stream";
    "Content-Disposition: attachment; filename=" ++ quoted filename;
    "Content-Transfer-Encoding: base64";
    "";
    wrap76 (Base64.encode (AttachmentData.data attachment)) ].

Definition createEMLContent (env : Ambient) (message : MessageData.t) : string :=
  let boundary := boundaryOf env in
  let headers := JsString.join JsString.CRLF (emlHeaderLines env message) in
  match MessageData.attachments message with
  | [] => headers ++ JsString.CRLF ++ JsString.CRLF ++ MessageData.body message
  | _ :: _ =>
      let parts :=
        [ headers; ""; "--" ++ boundary;
          bodyContentType (MessageData.body message); "";
          MessageData.body message ] in
      let parts :=
        List.app parts
          (flat_map (emlAttachmentPart boundary)
                    (MessageData.attachments message)) in
      let parts := List.app parts [ "--" ++ boundary ++ "--" ] in
      JsString.join JsString.CRLF parts
  end.

Definition whenSet (value line : string) : string :=
  if JsString.truthy value then line else "".

Definition createVCardContent (contact : ContactData.t) : string :=
  let vcard :=
    filter JsString.truthy
      [ "BEGIN:VCARD";
        "VERSION:3.0";
        "FN:" ++ ContactData.fullName contact;
        whenSet (ContactData.email contact)
                ("EMAIL:" ++ ContactData.email contact);
        whenSet (ContactData.businessPhone contact)
                ("TEL;TYPE=WORK:" ++ ContactData.businessPhone contact);
        whenSet (ContactData.mobilePhone contact)
                ("TEL;TYPE=CELL:" ++ ContactData.mobilePhone contact);
        whenSet (ContactData.homePhone contact)
                ("TEL;TYPE=HOME:" ++ ContactData.homePhone contact);
        whenSet (ContactData.address contact)
                ("ADR:;;" ++ ContactData.address contact);
        whenSet (ContactData.company contact)
                ("ORG:" ++ ContactData.company contact);
        whenSet (ContactData.jobTitle contact)
                ("TITLE:" ++ ContactData.jobTitle contact);
        "END:VCARD" ] in
  JsString.join JsString.CRLF vcard.

Definition createICalContent (appointment : AppointmentData.t) : string :=
  let ical :=
    filter JsString.truthy
      [ "BEGIN:VCALENDAR";
        "VERSION:2.0";
        "BEGIN:VEVENT";
        "SUMMARY:" ++ AppointmentData.subject appointment;
        "LOCATION:" ++ JsString.or_else (AppointmentData.location appointment) "";
        match AppointmentData.startTime appointment with
        | Some _ => "DTSTART:" ++ formatDate (AppointmentData.startTime appointment)
        | None => ""
        end;
        match AppointmentData.endTime appointment with
        | Some _ => "DTEND:" ++ formatDate (AppointmentData.endTime appointment)
        | None => ""
        end;
        "DESCRIPTION:" ++ JsString.or_else (AppointmentData.body appointment) "";
        "END:VEVENT";
        "END:VCALENDAR" ] in
  JsString.join JsString.CRLF ical.

(** ** Exceptions and mutable state

    A computation over a mutable object of type [S] that may throw.  The
    state survives a throw: what was pushed before the exception stays
    pushed, as in JavaScript. *)

Inductive Result (A : Type) : Type :=
| Ok (a : A)
| Throw (e : string).

Arguments Ok {A} a.
Arguments Throw {A} e.

Definition Eff (S A : Type) : Type := S -> Result A * S.

Definition ret {S A : Type} (a : A) : Eff S A := fun s => (Ok a, s).

Definition throw {S A : Type} (e : string) : Eff S A := fun s => (Throw e, s).

Definition bind {S A B : Type} (m : Eff S A) (k : A -> Eff S B) : Eff S B :=
  fun s =>
    match m s with
    | (Ok a, s') => k a s'
    | (Throw e, s') => (Throw e, s')
    end.

(** [try { body } catch (e) { handler }]. *)
Definition try_catch {S A : Type} (body : Eff S A) (handler : string -> Eff S A)
  : Eff S A :=
  fun s =>
    match body s with
    | (Ok a, s') => (Ok a, s')
    | (Throw e, s') => handler e s'
    end.

(** An operation of a collaborator, whose outcome is given. *)
Definition perform {S A : Type} (r : Result A) : Eff S A := fun s => (r, s).

Definition modify {S : Type} (f : S -> S) : Eff S unit := fun s => (Ok tt, f s).

Declare Scope eff_scope.
Delimit Scope eff_scope with eff.
Notation "x <- m ;; k" := (bind m (fun x => k))
  (at level 61, m at next level, right associativity) : eff_scope.
Notation "m ;; k" := (bind m (fun _ => k))
  (at level 61, right associativity) : eff_scope.

(** A [for] loop over the elements of an array. *)
Fixpoint forEach {S A : Type} (body : A -> Eff S unit) (xs : list A)
  : Eff S unit :=
  match xs with
  | [] => ret tt
  | x :: rest => (body x ;; forEach body rest)%eff
  end.

(** [console.warn] and [console.error] are replaced by no-ops when the
    module is loaded; a logging statement is [skip]. *)
Definition skip {S : Type} : Eff S unit := ret tt.

(** ** The mailbox reader, as the converter sees it *)

(** An attachment stream.  [chunked] scripts the successive outcomes of
    [read(buffer)], [single] those of [read()]; a script that is used up
    answers with the end-of-stream value [-1]. *)
Module Stream.

Inductive ChunkRead : Type :=
| Filled (bytes : Buffer)
| ChunkEof
| ChunkThrow (e : string).

Inductive ByteRead : Type :=
| AByte (b : byte)
| ByteEof
| ByteThrow (e : string).

Record t : Type := mk {
  chunked : list ChunkRead;
  single : list ByteRead
}.

End Stream.

Module PSTAttachment.
Record t : Type := mk {
  filename : string;
  longFilename : string;
  mimeTag : string;
  size : Z;
  fileInputStream : Result (option Stream.t)
}.
End PSTAttachment.

(** A child item.  [attachmentTable] is what [numberOfAttachments] and
    [getAttachment(i)] read: reading the table may throw, and so may each
    [getAttachment(i)], which otherwise yields an attachment or nothing. *)
Module PSTMessage.
Record t : Type := mk {
  messageClass : option string;
  subject : string;
  displayName : string;
  senderEmailAddress : string;
  displayTo : string;
  body : string;
  bodyHTML : string;
  bodyRTF : string;
  clientSubmitTime : option Date;
  messageDeliveryTime : option Date;
  transportMessageHeaders : string;
  attachmentTable : Result (list (Result (option PSTAttachment.t)))
}.
End PSTMessage.

(** A folder handle.  [cursor] scripts the successive outcomes of
    [getNextChild()]: an item or a throw; once used up, the cursor answers
    [null]. *)
Inductive PSTFolder : Type := mkPSTFolder {
  displayName : string;
  contentCount : Z;
  cursor : list (Result PSTMessage.t);
  hasSubfolders : bool;
  getSubFolders : Result (list PSTFolder)
}.

(** ** Attachment drain *)

Definition bufferSize : nat := 8176.

(** [Buffer.alloc(n)]: [n] zero bytes. *)
Definition alloc (n : nat) : Buffer := repeat x00 n.

(** [stream.read(buffer)] when the stream delivers [bytes]: the front of the
    buffer is overwritten, the rest keeps what earlier reads left there.  A
    read delivers at most what the buffer holds. *)
Definition readInto (bytes : Buffer) (buffer : Buffer) : nat * Buffer :=
  let written := firstn (List.length buffer) bytes in
  (List.length written, (written ++ skipn (List.length written) buffer)%list).

(** The [do ... while (bytesRead === bufferSize)] loop.  The one [buffer] is
    read into at every turn; [buffer.slice(0, bytesRead)] is a view of it
    and [Buffer.from] copies the bytes the view shows at that moment, so
    that a chunk, once pushed, is not changed by later reads. *)
Fixpoint primaryLoop (script : list Stream.ChunkRead) (buffer : Buffer)
  (chunks : list Buffer) : Result (list Buffer) :=
  match script with
  | [] => Ok chunks
  | Stream.ChunkEof :: _ => Ok chunks
  | Stream.ChunkThrow e :: _ => Throw e
  | Stream.Filled bytes :: rest =>
      let (bytesRead, buffer) := readInto bytes buffer in
      let chunks :=
        if (0 <? bytesRead)%nat
        then (chunks ++ [firstn bytesRead buffer])%list
        else chunks in
      if (bytesRead =? bufferSize)%nat then primaryLoop rest buffer chunks
      else Ok chunks
  end.

(** The primary strategy, from the allocation of the buffer on. *)
Definition primaryDrain (script : list Stream.ChunkRead) : Result (list Buffer) :=
  primaryLoop script (alloc bufferSize) [].

(** The [while ((byte = read()) !== -1)] loop; the second component counts
    the calls of [read()] it issued. *)
Fixpoint fallbackLoop (script : list Stream.ByteRead) (rawData : Buffer)
  (calls : nat) : Result Buffer * nat :=
  match script with
  | [] => (Ok rawData, S calls)
  | Stream.ByteEof :: _ => (Ok rawData, S calls)
  | Stream.ByteThrow e :: _ => (Throw e, S calls)
  | Stream.AByte b :: rest => fallbackLoop rest (rawData ++ [b])%list (S calls)
  end.

Definition attachmentRecord (attachment : PSTAttachment.t) (data : Buffer)
  : AttachmentData.t :=
  AttachmentData.mk
    (sanitizeFilename
       (JsString.or_else (PSTAttachment.longFilename attachment)
                         (PSTAttachment.filename attachment)))
    data
    (JsString.or_else (PSTAttachment.mimeTag attachment)
                      "application/octet-stream").

Definition isEmpty {A : Type} (l : list A) : bool :=
  match l with
  | [] => true
  | _ :: _ => false
  end.

Definition smallEnough (attachment : PSTAttachment.t) : bool :=
  negb (PSTAttachment.size attachment =? 0)%Z &&
  (PSTAttachment.size attachment <? 1024 * 1024)%Z.

(** The inner [try] of the attachment loop, over the array [attachments];
    the result counts the single-byte reads issued on the stream. *)
Definition drainStream (attachment : PSTAttachment.t) (stream : Stream.t)
  : Eff (list AttachmentData.t) nat :=
  fun attachments =>
    match primaryDrain (Stream.chunked stream) with
    | Ok chunks =>
        if negb (isEmpty chunks)
        then (Ok O, (attachments ++ [attachmentRecord attachment (List.concat chunks)])%list)
        else (Ok O, attachments)
    | Throw streamError =>
        if smallEnough attachment then
          match fallbackLoop (Stream.single stream) [] 0 with
          | (Ok rawData, calls) =>
              if negb (isEmpty rawData)
              then (Ok calls, (attachments ++ [attachmentRecord attachment rawData])%list)
              else (Ok calls, attachments)
          | (Throw fallbackError, calls) => (Ok calls, attachments)
          end
        else (Ok O, attachments)
    end.

(** One turn of the [for] loop over the attachments of a message. *)
Definition extractAttachment (slot : Result (option PSTAttachment.t))
  : Eff (list AttachmentData.t) unit :=
  try_catch
    (attachment <- perform slot ;;
     match attachment with
     | None => skip
     | Some attachment =>
         if negb (JsString.truthy (PSTAttachment.filename attachment)) then skip
         else
           attachmentStream <- perform (PSTAttachment.fileInputStream attachment) ;;
           match attachmentStream with
           | None => skip
           | Some stream => _ <- drainStream attachment stream ;; ret tt
           end
     end)%eff
    (fun attachError => skip).

Definition extractAttachments (slots : list (Result (option PSTAttachment.t)))
  : Eff (list AttachmentData.t) unit :=
  forEach extractAttachment slots.

(** ** Mailbox tree walker *)

Definition pushMessage (m : MessageData.t) (fd : FolderData) : FolderData :=
  mkFolderData (name fd) (messages fd ++ [m]) (contacts fd) (appointments fd)
               (subfolders fd).

Definition pushContact (c : ContactData.t) (fd : FolderData) : FolderData :=
  mkFolderData (name fd) (messages fd) (contacts fd ++ [c]) (appointments fd)
               (subfolders fd).

Definition pushAppointment (a : AppointmentData.t) (fd : FolderData) : FolderData :=
  mkFolderData (name fd) (messages fd) (contacts fd) (appointments fd ++ [a])
               (subfolders fd).

Definition pushSubfolder (sub : FolderData) (fd : FolderData) : FolderData :=
  mkFolderData (name fd) (messages fd) (contacts fd) (appointments fd)
               (subfolders fd ++ [sub]).

(** [item.messageClass?.startsWith('IPM.')]; an absent class is falsy. *)
Definition isIpm (messageClass : option string) : bool :=
  match messageClass with
  | Some mc => JsString.startsWith "IPM." mc
  | None => false
  end.

Definition isNote (mc : string) : bool :=
  String.eqb mc "IPM.Note" || JsString.startsWith "IPM.Note." mc.

Definition classOf (item : PSTMessage.t) : string :=
  match PSTMessage.messageClass item with
  | Some mc => mc
  | None => ""
  end.

(** The body of a message: [bodyHTML || body || ''], replaced by the
    rich-text body when there is one.  [bodyRTF] is a string, whose
    [toString()] is the identity and cannot throw. *)
Definition emailBodyOf (message : PSTMessage.t) : string :=
  let emailBody :=
    JsString.or_else (PSTMessage.bodyHTML message)
      (JsString.or_else (PSTMessage.body message) "") in
  if JsString.truthy (PSTMessage.bodyRTF message)
  then PSTMessage.bodyRTF message
  else emailBody.

Definition recipientsOf (message : PSTMessage.t) : list string :=
  if JsString.truthy (PSTMessage.displayTo message)
  then filter JsString.truthy
         (List.map JsString.trim (JsString.split ";" (PSTMessage.displayTo message)))
  else [].

Definition orDate (a b : option Date) : option Date :=
  match a with
  | Some d => Some d
  | None => b
  end.

Definition messageRecord (message : PSTMessage.t)
  (attachments : list AttachmentData.t) : MessageData.t :=
  MessageData.mk
    (sanitizeFilename (JsString.or_else (PSTMessage.subject message) "(No Subject)"))
    (JsString.or_else (PSTMessage.senderEmailAddress message) "")
    (recipientsOf message)
    (emailBodyOf message)
    (orDate (PSTMessage.clientSubmitTime message)
            (PSTMessage.messageDeliveryTime message))
    (PSTMessage.messageDeliveryTime message)
    (JsString.or_else (PSTMessage.transportMessageHeaders message) "")
    attachments.

Definition contactRecord (item : PSTMessage.t) : ContactData.t :=
  ContactData.mk (JsString.or_else (PSTMessage.displayName item) "")
                 "" "" "" "" "" "" "".

Definition appointmentRecord (item : PSTMessage.t) : AppointmentData.t :=
  AppointmentData.mk (JsString.or_else (PSTMessage.subject item) "") ""
                     None None
                     (JsString.or_else (PSTMessage.body item) "").

(** The attachments of a message: reading the table is outside the
    per-attachment [try], each [getAttachment(i)] is inside. *)
Definition attachmentsOf (message : PSTMessage.t)
  : Result (list AttachmentData.t) :=
  match PSTMessage.attachmentTable message with
  | Throw e => Throw e
  | Ok slots => Ok (snd (extractAttachments slots []))
  end.

(** The statements of the item-level [try] for an item of the [IPM.]
    family, over the folder aggregate under construction. *)
Definition processItem (item : PSTMessage.t) : Eff FolderData unit :=
  let mc := classOf item in
  if isNote mc then
    (attachments <- perform (attachmentsOf item) ;;
     try_catch
       (modify (pushMessage (messageRecord item attachments)))
       (fun messageError => skip))%eff
  else if String.eqb mc "IPM.Contact" then
    modify (pushContact (contactRecord item))
  else if String.eqb mc "IPM.Appointment" then
    modify (pushAppointment (appointmentRecord item))
  else ret tt.

(** The [while (item !== null)] loop.  Both places that advance the cursor
    leave the loop when [getNextChild()] throws. *)
Fixpoint whileItem (item : PSTMessage.t) (rest : list (Result PSTMessage.t))
  {struct rest} : Eff FolderData unit :=
  let advance : Eff FolderData unit :=
    match rest with
    | [] => ret tt
    | Throw nextError :: _ => skip
    | Ok next :: rest' => whileItem next rest'
    end in
  (try_catch
     (if negb (isIpm (PSTMessage.messageClass item)) then skip
      else processItem item)
     (fun itemError => skip) ;;
   advance)%eff.

(** The first [if]: the folder's content. *)
Definition extractContent (folder : PSTFolder) : Eff FolderData unit :=
  if (0 <? contentCount folder)%Z then
    try_catch
      (item <- perform (match cursor folder with
                        | [] => Ok None
                        | Ok first :: _ => Ok (Some first)
                        | Throw e :: _ => Throw e
                        end) ;;
       match item with
       | None => ret tt
       | Some first => whileItem first (tl (cursor folder))
       end)%eff
      (fun error => skip)
  else ret tt.

(** The pruning test applied to the aggregate of a subfolder. *)
Definition hasData (fd : FolderData) : bool :=
  negb (isEmpty (messages fd)) || negb (isEmpty (contacts fd)) ||
  negb (isEmpty (appointments fd)) || negb (isEmpty (subfolders fd)).

Section Descent.

Variable extract : PSTFolder -> Result FolderData.

(** One turn of the [for ... of childFolders] loop. *)
Definition visitChild (childFolder : PSTFolder) : Eff FolderData unit :=
  try_catch
    (subfolderData <- perform (extract childFolder) ;;
     if hasData subfolderData then modify (pushSubfolder subfolderData)
     else ret tt)%eff
    (fun subfolderError => skip).

Definition forEachChild (childFolders : list PSTFolder) : Eff FolderData unit :=
  forEach visitChild childFolders.

(** The second [if]: the subfolders. *)
Definition extractSubfolders (folder : PSTFolder) : Eff FolderData unit :=
  if hasSubfolders folder then
    try_catch
      (match getSubFolders folder with
       | Throw e => throw e
       | Ok childFolders => forEachChild childFolders
       end)
      (fun subfoldersError => skip)
  else ret tt.

End Descent.

Definition newFolderData (folder : PSTFolder) : FolderData :=
  mkFolderData (JsString.or_else (displayName folder) "Unnamed Folder")
               [] [] [] [].

(** [return folderData]. *)
Definition current {S : Type} : Eff S S := fun s => (Ok s, s).

(** Run a function body that owns the object [init] it builds. *)
Definition run {S A : Type} (body : Eff S A) (init : S) : Result A :=
  fst (body init).

Fixpoint extractFolder (folder : PSTFolder) : Result FolderData :=
  run (extractContent folder ;;
       extractSubfolders extractFolder folder ;;
       current)%eff
      (newFolderData folder).

(** ** Exporter

    The file system is a collaborator: [mkdir] and [writeFile] succeed or
    throw as the fault plan [Faults] says.  A path is the list of its
    segments, and [path.join] appends segments (the normalisation of
    [path.join] is not modelled).  The disk records what succeeded, in
    order, and counts the calls of [createEMLContent], each of which reads
    the ambient values of its own moment. *)

Definition Path : Type := list string.

Definition pathJoin (base : Path) (segments : list string) : Path :=
  (base ++ segments)%list.

Inductive FileContent : Type :=
| Text (text : string)
| Binary (bytes : Buffer).

Record Disk : Type := mkDisk {
  dirs : list Path;
  files : list (Path * FileContent);
  serialized : nat
}.

Record Faults : Type := mkFaults {
  mkdirFails : Path -> bool;
  writeFails : Path -> bool
}.

Section Exporter.

Variable faults : Faults.
Variable ambientAt : nat -> Ambient.

Definition mkdir (p : Path) : Eff Disk unit :=
  fun d =>
    if mkdirFails faults p then (Throw "mkdir failed", d)
    else (Ok tt, mkDisk (dirs d ++ [p]) (files d) (serialized d)).

Definition writeFile (p : Path) (content : FileContent) : Eff Disk unit :=
  fun d =>
    if writeFails faults p then (Throw "writeFile failed", d)
    else (Ok tt, mkDisk (dirs d) (files d ++ [(p, content)]) (serialized d)).

(** A call of [createEMLContent] at export time. *)
Definition serializeMessage (message : MessageData.t) : Eff Disk string :=
  fun d =>
    (Ok (createEMLContent (ambientAt (serialized d)) message),
     mkDisk (dirs d) (files d) (S (serialized d))).

Definition emlFilename (message : MessageData.t) : string :=
  sanitizeFilename
    (formatDate (MessageData.sentDate message) ++ "_" ++
     MessageData.subject message ++ ".eml").

Definition attachmentsDirname (message : MessageData.t) : string :=
  sanitizeFilename (MessageData.subject message).

Definition exportAttachment (attachmentsPath : Path)
  (attachment : AttachmentData.t) : Eff Disk unit :=
  try_catch
    (let attachmentPath :=
       pathJoin attachmentsPath
                [sanitizeFilename (AttachmentData.filename attachment)] in
     writeFile attachmentPath (Binary (AttachmentData.data attachment)))
    (fun attachError => skip).

Definition exportMessage (emailsPath : Path) (message : MessageData.t)
  : Eff Disk unit :=
  try_catch
    (let filename := emlFilename message in
     let emailPath := pathJoin emailsPath [filename] in
     content <- serializeMessage message ;;
     writeFile emailPath (Text content) ;;
     if negb (isEmpty (MessageData.attachments message)) then
       let attachmentsPath :=
         pathJoin emailsPath ["Attachments"; attachmentsDirname message] in
       mkdir attachmentsPath ;;
       forEach (exportAttachment attachmentsPath)
               (MessageData.attachments message)
     else ret tt)%eff
    (fun messageError => skip).

Definition vcfFilename (contact : ContactData.t) : string :=
  sanitizeFilename (ContactData.fullName contact ++ ".vcf").

Definition exportContact (contactsPath : Path) (contact : ContactData.t)
  : Eff Disk unit :=
  let filename := vcfFilename contact in
  writeFile (pathJoin contactsPath [filename])
            (Text (createVCardContent contact)).

Definition icsFilename (appointment : AppointmentData.t) : string :=
  sanitizeFilename
    (formatDate (AppointmentData.startTime appointment) ++ "_" ++
     AppointmentData.subject appointment ++ ".ics").

Definition exportAppointment (calendarPath : Path)
  (appointment : AppointmentData.t) : Eff Disk unit :=
  let filename := icsFilename appointment in
  writeFile (pathJoin calendarPath [filename])
            (Text (createICalContent appointment)).

Definition exportMessages (folderPath : Path) (data : FolderData)
  : Eff Disk unit :=
  if negb (isEmpty (messages data)) then
    let emailsPath := pathJoin folderPath ["Emails"] in
    (mkdir emailsPath ;;
     forEach (exportMessage emailsPath) (messages data))%eff
  else ret tt.

Definition exportContacts (folderPath : Path) (data : FolderData)
  : Eff Disk unit :=
  if negb (isEmpty (contacts data)) then
    let contactsPath := pathJoin folderPath ["Contacts"] in
    (mkdir contactsPath ;;
     forEach (exportContact contactsPath) (contacts data))%eff
  else ret tt.

Definition exportAppointments (folderPath : Path) (data : FolderData)
  : Eff Disk unit :=
  if negb (isEmpty (appointments data)) then
    let calendarPath := pathJoin folderPath ["Calendar"] in
    (mkdir calendarPath ;;
     forEach (exportAppointment calendarPath) (appointments data))%eff
  else ret tt.

Fixpoint exportToFiles (data : FolderData) (basePath : Path) {struct data}
  : Eff Disk unit :=
  let folderPath := pathJoin basePath [sanitizeFilename (name data)] in
  try_catch
    (mkdir folderPath ;;
     exportMessages folderPath data ;;
     exportContacts folderPath data ;;
     exportAppointments folderPath data ;;
     forEach (fun subfolder => exportToFiles subfolder folderPath)
             (subfolders data))%eff
    (fun error => throw error).

End Exporter.

Definition emptyDisk : Disk := mkDisk [] [] 0.

(** ** Orchestrator

    [convertOST], [findOSTFiles] and [processAllOSTFiles].  The machine the
    converter runs on answers [fs.existsSync], [readdir], [process.cwd()]
    and the opening of a mailbox file; [showPath] is the text of a path on
    that machine, and [inspect] the text with which its console renders
    an error object of a given message.  The host records the lines written
    with [console.log]; what [convertOST] reports with [console.error]
    before it throws again goes to the other stream and is not recorded. *)

Module JsText.

(** [toLowerCase] on the code units of the model: the letters A to Z and
    the capital letters of the Latin-1 range, the multiplication sign
    excepted. *)
Definition lowerChar (c : ascii) : ascii :=
  let n := nat_of_ascii c in
  if ((65 <=? n)%nat && (n <=? 90)%nat) ||
     ((192 <=? n)%nat && (n <=? 222)%nat && negb (n =? 215)%nat)
  then ascii_of_nat (n + 32)
  else c.

Definition toLowerCase (s : string) : string := JsString.map lowerChar s.

(** [s.endsWith(suffix)]. *)
Definition endsWith (suffix s : string) : bool :=
  (length suffix <=? length s)%nat &&
  String.eqb (JsString.drop (length s - length suffix) s) suffix.

(** [path.basename(name, ext)] for a name without separator, as [readdir]
    gives them: the extension is cut when the name ends with it, compared
    character by character, and the name that is the extension itself has
    an empty base name. *)
Definition basename (name ext : string) : string :=
  if (0 <? length ext)%nat && (length ext <=? length name)%nat then
    if String.eqb ext name then ""
    else if endsWith ext name
         then JsString.take (length name - length ext) name
         else name
  else name.

(** [String(n)] for an array length. *)
Fixpoint decimalFrom (fuel n : nat) (acc : string) : string :=
  match fuel with
  | O => acc
  | S f =>
      let acc' := String (ascii_of_nat (48 + n mod 10)) acc in
      if (n <? 10)%nat then acc' else decimalFrom f (n / 10) acc'
  end.

Definition decimal (n : nat) : string := decimalFrom (S n) n "".

End JsText.

(** An opened mailbox file: [getRootFolder()] throws, or yields the root
    folder or nothing. *)
Record PSTFile : Type := mkPSTFile {
  getRootFolder : Result (option PSTFolder)
}.

Record Machine : Type := mkMachine {
  showPath : Path -> string;
  existsSync : Path -> bool;
  openFile : Path -> Result PSTFile;
  cwd : Path;
  readdir : Path -> Result (list string);
  inspect : string -> string
}.

Record Host : Type := mkHost {
  disk : Disk;
  printed : list string
}.

(** [console.log(text)]. *)
Definition say (text : string) : Eff Host unit :=
  fun h => (Ok tt, mkHost (disk h) (printed h ++ [text])).

(** A file system operation, on the disk of the host. *)
Definition onDisk {A : Type} (m : Eff Disk A) : Eff Host A :=
  fun h =>
    let (r, d) := m (disk h) in
    (r, mkHost d (printed h)).

Definition isOstName (file : string) : bool :=
  JsText.endsWith ".ost" (JsText.toLowerCase file).

Definition findOSTFiles (machine : Machine) (directory : Path)
  : Result (list string) :=
  match readdir machine directory with
  | Throw e => Throw e
  | Ok files => Ok (filter isOstName files)
  end.

Section Orchestrator.

Variable machine : Machine.
Variable faults : Faults.
Variable ambientAt : nat -> Ambient.

Definition convertOST (ostPath outputPath : Path) : Eff Host unit :=
  try_catch
    ((if negb (existsSync machine ostPath)
      then throw ("OST-Datei nicht gefunden: " ++ showPath machine ostPath)
      else ret tt) ;;
     say ("Creating output directory: " ++ showPath machine outputPath) ;;
     onDisk (mkdir faults outputPath) ;;
     say "Reading OST file..." ;;
     pstFile <- perform (openFile machine ostPath) ;;
     say "Extracting folder structure..." ;;
     rootFolder <- perform (getRootFolder pstFile) ;;
     match rootFolder with
     | None => throw "Konnte Root-Ordner nicht finden"
     | Some rootFolder =>
         say "Processing folders and messages..." ;;
         folderData <- perform (extractFolder rootFolder) ;;
         (if isEmpty (messages folderData) && isEmpty (contacts folderData) &&
             isEmpty (appointments folderData) && isEmpty (subfolders folderData)
          then throw "Keine Daten gefunden"
          else ret tt) ;;
         say "Exporting to files..." ;;
         onDisk (exportToFiles faults ambientAt folderData outputPath) ;;
         say "Export completed successfully!" ;;
         say ("Output directory: " ++ showPath machine outputPath)
     end)%eff
    (fun error => throw error).

(** One turn of the loop over the mailbox files found. *)
Definition processOSTFile (projectDir outputBaseDir : Path) (ostFile : string)
  : Eff Host unit :=
  let ostPath := pathJoin projectDir [ostFile] in
  let outputDir := pathJoin outputBaseDir [JsText.basename ostFile ".ost"] in
  (say (String JsString.LF ("Verarbeite: " ++ ostFile)) ;;
   try_catch
     (convertOST ostPath outputDir ;;
      say ("Konvertierung von " ++ ostFile ++ " abgeschlossen."))
     (fun error => say ("Fehler bei der Konvertierung von " ++ ostFile)))%eff.

Definition processAllOSTFiles : Eff Host unit :=
  try_catch
    (let projectDir := cwd machine in
     let outputBaseDir := pathJoin projectDir ["outlook_export"] in
     onDisk (mkdir faults outputBaseDir) ;;
     ostFiles <- perform (findOSTFiles machine projectDir) ;;
     if isEmpty ostFiles
     then say "Keine OST-Dateien im Projektordner gefunden."
     else
       say (JsText.decimal (List.length ostFiles) ++
            " OST-Datei(en) gefunden. Starte Konvertierung...") ;;
       forEach (processOSTFile projectDir outputBaseDir) ostFiles ;;
       say (String JsString.LF "Alle Konvertierungen abgeschlossen."))%eff
    (fun error => say ("Ein Fehler ist aufgetreten: " ++ inspect machine error)).

End Orchestrator.

(** * A sample mailbox

    Inputs on which the properties below are exercised. *)

Module Sample.

Definition note (subject sender : string) (sent : option Date)
  (table : Result (list (Result (option PSTAttachment.t)))) : PSTMessage.t :=
  PSTMessage.mk (Some "IPM.Note") subject "" sender
                "bob@example.org; carl@example.org" "Hi" "" ""
                sent None "" table.

Definition hello : PSTMessage.t :=
  note "Hello" "ann@example.org" (Some 1000000000000%Z) (Ok []).

(** A message whose attachment table cannot be read. *)
Definition broken : PSTMessage.t :=
  note "Broken" "ann@example.org" None (Throw "corrupt attachment table").

Definition jane : PSTMessage.t :=
  PSTMessage.mk (Some "IPM.Contact") "" "Jane Doe" "" "" "" "" "" None None ""
                (Ok []).

Definition report : PSTMessage.t :=
  PSTMessage.mk (Some "REPORT.IPM.Note.NDR") "Undeliverable" "" "" "" "" "" ""
                None None "" (Ok []).

Definition emptyFolder : PSTFolder :=
  mkPSTFolder "Drafts" 0 [] false (Ok []).

Definition people : PSTFolder :=
  mkPSTFolder "People" 1 [Ok jane] false (Ok []).

(** A folder whose only subfolder is empty. *)
Definition hollow : PSTFolder :=
  mkPSTFolder "Archive" 0 [] true (Ok [emptyFolder]).

Definition unlistable : PSTFolder :=
  mkPSTFolder "Public" 0 [] true (Throw "cannot list subfolders").

Definition root : PSTFolder :=
  mkPSTFolder "" 4
    [Ok hello; Ok report; Ok broken; Throw "cursor"; Ok hello]
    true (Ok [emptyFolder; people; hollow; unlistable]).

Definition helloRecord : MessageData.t :=
  MessageData.mk "Hello" "ann@example.org"
                 ["bob@example.org"; "carl@example.org"] "Hi"
                 (Some 1000000000000%Z) None "" [].

Definition janeRecord : ContactData.t :=
  ContactData.mk "Jane Doe" "" "" "" "" "" "" "".

Definition peopleAggregate : FolderData :=
  mkFolderData "People" [] [janeRecord] [] [].

Definition rootAggregate : FolderData :=
  mkFolderData "Unnamed Folder" [helloRecord] [] [] [peopleAggregate].

(** A message without sender, recipients, subject or dates. *)
Definition blank : MessageData.t :=
  MessageData.mk "" "" [] "Hi" None None "" [].

Definition env0 : Ambient := mkAmbient "k3x9" 0%Z.
Definition env1 : Ambient := mkAmbient "k3x9" 1000%Z.

(** An attachment whose stream fails on the chunked read and then delivers
    two bytes one at a time. *)
Definition flakyStream : Stream.t :=
  Stream.mk [Stream.ChunkThrow "read error"]
            [Stream.AByte x50; Stream.AByte x4b].

Definition flaky : PSTAttachment.t :=
  PSTAttachment.mk "a.zip" "archive.zip" "" 2 (Ok (Some flakyStream)).

(** Two messages that differ in their subject only. *)
Definition colon : PSTMessage.t :=
  note "Re: plan" "ann@example.org" None (Ok []).

Definition underscore : PSTMessage.t :=
  note "Re_ plan" "ann@example.org" None (Ok []).

(** An aggregate with two contacts and one subfolder, and a file system on
    which the card of the first contact cannot be written. *)
Definition johnRecord : ContactData.t :=
  ContactData.mk "John Roe" "" "" "" "" "" "" "".

Definition twoContacts : FolderData :=
  mkFolderData "People" [] [janeRecord; johnRecord] [] [peopleAggregate].

Definition samePath (p q : Path) : bool :=
  if list_eq_dec string_dec p q then true else false.

Definition janeUnwritable : Faults :=
  mkFaults (fun _ => false)
           (samePath ["out"; "People"; "Contacts"; "Jane Doe.vcf"]).

(** An aggregate with two messages and the same subfolder, and a file system
    on which the file of the first message cannot be written. *)
Definition byeRecord : MessageData.t :=
  MessageData.mk "Bye" "ann@example.org" ["bob@example.org"] "Bye"
                 (Some 1000000000000%Z) None "" [].

Definition twoMessages : FolderData :=
  mkFolderData "People" [helloRecord; byeRecord] [] [] [peopleAggregate].

Definition helloUnwritable : Faults :=
  mkFaults (fun _ => false)
           (samePath ["out"; "People"; "Emails";
                      "2001-09-09T01-46-40-000Z_Hello.eml"]).

Definition ambient (n : nat) : Ambient := mkAmbient "k3x9" (Z.of_nat n).

End Sample.

(** * More inputs *)

Module Fixture.

Definition meeting : PSTMessage.t :=
  PSTMessage.mk (Some "IPM.Appointment") "Review" "" "" "" "Agenda" "" ""
                None None "" (Ok []).

Definition calendar : PSTFolder :=
  mkPSTFolder "Calendar" 1 [Ok meeting] false (Ok []).

Definition meetingRecord : AppointmentData.t :=
  AppointmentData.mk "Review" "" None None "Agenda".

Definition calendarAggregate : FolderData :=
  mkFolderData "Calendar" [] [] [meetingRecord] [].

Definition withArchive : PSTMessage.t :=
  Sample.note "Backup" "ann@example.org" None (Ok [Ok (Some Sample.flaky)]).

Definition mail : PSTFolder :=
  mkPSTFolder "Mail" 3
    [Ok Sample.report; Ok withArchive; Ok Sample.jane; Ok Sample.broken;
     Ok meeting; Throw "cursor"; Ok Sample.hello]
    false (Ok []).

Definition archiveRecord : AttachmentData.t :=
  AttachmentData.mk "archive.zip" [x50; x4b] "application/octet-stream".

Definition backupRecord : MessageData.t :=
  MessageData.mk "Backup" "ann@example.org"
                 ["bob@example.org"; "carl@example.org"] "Hi"
                 None None "" [archiveRecord].

Definition mailAggregate : FolderData :=
  mkFolderData "Mail" [backupRecord] [Sample.janeRecord] [meetingRecord] [].

(** A file system on which the directory of the folder [People] cannot be
    created. *)
Definition noDirectory : Faults :=
  mkFaults (Sample.samePath ["out"; "People"]) (fun _ => false).

(** A machine with three files in its working directory, of which the
    first is a mailbox that holds [Sample.root], the second is a mailbox
    that cannot be opened and the third is no mailbox. *)
Definition here : Path := ["home"; "ann"].

Definition slashed (p : Path) : string := JsString.join "/" p.

Definition desk : Machine :=
  mkMachine slashed
    (fun p => Sample.samePath p ["home"; "ann"; "mail.ost"] ||
              Sample.samePath p ["home"; "ann"; "OLD.OST"])
    (fun p => if Sample.samePath p ["home"; "ann"; "mail.ost"]
              then Ok (mkPSTFile (Ok (Some Sample.root)))
              else Throw "not a mailbox file")
    here
    (fun p => if Sample.samePath p here
              then Ok ["mail.ost"; "OLD.OST"; "notes.txt"]
              else Throw "ENOENT")
    (fun message => "Error: " ++ message).

Definition emptyHost : Host := mkHost emptyDisk [].

(** A machine whose only mailbox holds a root folder without data. *)
Definition bare : Machine :=
  mkMachine slashed (fun _ => true)
    (fun _ => Ok (mkPSTFile (Ok (Some Sample.hollow))))
    here (fun _ => Ok ["empty.ost"])
    (fun message => "Error: " ++ message).

End Fixture.

(** * Vocabulary of the properties *)

(** [m] keeps the invariant [I] of the object it works on, whether it
    returns or throws. *)
Definition Preserves {S A : Type} (I : S -> Prop) (m : Eff S A) : Prop :=
  forall s, I s -> I (snd (m s)).

(** [m] returns normally from every state. *)
Definition NoThrow {S A : Type} (m : Eff S A) : Prop :=
  forall s, exists a, fst (m s) = Ok a.

(** [m] throws from every state. *)
Definition Throws {S A : Type} (m : Eff S A) : Prop :=
  forall s, exists e, fst (m s) = Throw e.

(** The nine characters the sanitizer replaces. *)
Definition forbidden : list ascii :=
  ["<"; ">"; ":"; JsString.DQUOTE; "/"; "\"; "|"; "?"; "*"]%char.

(** Every message record of an aggregate, at any depth. *)
Fixpoint allMessages (fd : FolderData) : list MessageData.t :=
  (messages fd ++ flat_map allMessages (subfolders fd))%list.

(** Number of records of an aggregate, at any depth. *)
Fixpoint countRecords (fd : FolderData) : nat :=
  List.length (messages fd) + List.length (contacts fd) +
  List.length (appointments fd) + list_sum (List.map countRecords (subfolders fd)).

(** No aggregate without data is attached anywhere below [fd]. *)
Fixpoint pruned (fd : FolderData) : bool :=
  List.forallb (fun sub => hasData sub && pruned sub) (subfolders fd).

(** The values of the calls that returned. *)
Fixpoint returned {A : Type} (rs : list (Result A)) : list A :=
  match rs with
  | [] => []
  | Ok a :: rest => a :: returned rest
  | Throw _ :: rest => returned rest
  end.

(** The specification's order of preference for a body: the first form that
    is present, the empty string when none is. *)
Fixpoint firstPresent (forms : list string) : string :=
  match forms with
  | [] => ""
  | form :: others => if JsString.truthy form then form else firstPresent others
  end.

(** How a stream whose reads so far all filled the buffer comes to its end,
    and the bytes of its last read: the script is used up or answers with
    the end-of-stream value, or a read returns fewer bytes than the buffer
    holds. *)
Inductive EndsStream : list Stream.ChunkRead -> Buffer -> Prop :=
| ends_exhausted : EndsStream [] []
| ends_eof tail : EndsStream (Stream.ChunkEof :: tail) []
| ends_short last tail :
    List.length last < bufferSize ->
    EndsStream (Stream.Filled last :: tail) last.

(** The drain property as the specification words it: whatever the sizes of
    the chunks, none larger than the buffer, the bytes returned are those of
    the whole stream. *)
Definition drainsWholeStream (chunks : list Buffer) : Prop :=
  Forall (fun c => List.length c <= bufferSize) chunks ->
  exists got,
    primaryDrain (List.map Stream.Filled chunks) = Ok got /\
    List.concat got = List.concat chunks.

(** A record as the walker builds it from an item whose attachment table
    can be read. *)
Definition walkerRecord (m : MessageData.t) : Prop :=
  exists item slots,
    PSTMessage.attachmentTable item = Ok slots /\
    m = messageRecord item (snd (extractAttachments slots [])).

(** An attachment record that carries data and a content type. *)
Definition soundAttachment (a : AttachmentData.t) : Prop :=
  AttachmentData.data a <> [] /\
  AttachmentData.contentType a <> "" /\
  exists mimeTag,
    AttachmentData.contentType a
    = JsString.or_else mimeTag "application/octet-stream".

(** The characters an ISO date is written with. *)
Definition isoChars : list ascii :=
  ["0"; "1"; "2"; "3"; "4"; "5"; "6"; "7"; "8"; "9";
   "-"; "T"; "Z"; ":"; "."; "+"]%char.

Definition isoChar (c : ascii) : bool :=
  if in_dec ascii_dec c isoChars then true else false.

(** The header property as the specification words it: a header line whose
    source field is the empty string is left out of the header block. *)
Definition omitsEmptyHeaders (env : Ambient) (m : MessageData.t) : Prop :=
  (MessageData.sender m = "" -> ~ In "From: " (emlHeaderLines env m)) /\
  (JsString.join ", " (MessageData.recipients m) = "" ->
     ~ In "To: " (emlHeaderLines env m)) /\
  (MessageData.subject m = "" -> ~ In "Subject: " (emlHeaderLines env m)).

(** Determinism as the specification words it: two runs on the same record
    that draw the same boundary token give the same text. *)
Definition sameTextUpToBoundary (m : MessageData.t) : Prop :=
  forall env1 env2,
    rnd env1 = rnd env2 -> createEMLContent env1 m = createEMLContent env2 m.

(** The record carries a date of its own. *)
Definition dated (m : MessageData.t) : Prop :=
  MessageData.sentDate m <> None \/ MessageData.receivedDate m <> None.

(** Two computations that behave alike from every state. *)
Definition alike {S A : Type} (m1 m2 : Eff S A) : Prop :=
  forall s, m1 s = m2 s.

(** The lines the wrapping of a text yields: the matches of the pattern, in
    order. *)
Definition wrappedLines (text : string) : list string :=
  pieces (length text) 76 text.

(** A property of the aggregate of a folder that holds of the aggregate and
    of every aggregate attached below it. *)
Inductive Everywhere (Q : FolderData -> Prop) : FolderData -> Prop :=
| everywhere_here fd :
    Q fd -> Forall (Everywhere Q) (subfolders fd) -> Everywhere Q fd.

(** A path segment the file system accepts: none of the nine characters, at
    most 180 characters. *)
Definition safeSegment (segment : string) : Prop :=
  length segment <= 180 /\
  forall c, In c (JsString.chars segment) -> invalidChar c = false.



(** A computation on the disk that returns, having written [written] files
    and serialized [drawn] messages. *)
Definition Tally {A : Type} (written drawn : nat) (m : Eff Disk A) : Prop :=
  forall d,
    exists a d',
      m d = (Ok a, d') /\
      List.length (files d') = List.length (files d) + written /\
      serialized d' = serialized d + drawn.

(** The files an export of the aggregate writes when nothing fails: one per
    message, attachment, contact and appointment, at any depth. *)
Fixpoint countFiles (fd : FolderData) : nat :=
  list_sum (List.map (fun m => S (List.length (MessageData.attachments m)))
                     (messages fd)) +
  List.length (contacts fd) + List.length (appointments fd) +
  list_sum (List.map countFiles (subfolders fd)).

(** A file system on which every operation succeeds. *)
Definition noFaults : Faults := mkFaults (fun _ => false) (fun _ => false).

(** A recipient as the walker keeps them: not empty, without semicolon,
    without white space at either end. *)
Definition cleanRecipient (r : string) : Prop :=
  r <> "" /\ ~ In ";"%char (JsString.chars r) /\ JsString.trim r = r.

(** A contact and an appointment as the walker builds them: the name or the
    subject and the body apart, every field is empty. *)
Definition bareContact (c : ContactData.t) : Prop :=
  c = ContactData.mk (ContactData.fullName c) "" "" "" "" "" "" "".

Definition bareAppointment (a : AppointmentData.t) : Prop :=
  a = AppointmentData.mk (AppointmentData.subject a) "" None None
                         (AppointmentData.body a).

(** The three letters of the extension, in either case. *)
Definition letterOf (lower upper c : ascii) : Prop := c = lower \/ c = upper.

(** An attachment name as the walker keeps them: not empty, safe as a path
    segment, and left as it is by the sanitizer. *)
Definition keptName (a : AttachmentData.t) : Prop :=
  AttachmentData.filename a <> "" /\
  safeSegment (AttachmentData.filename a) /\
  sanitizeFilename (AttachmentData.filename a) = AttachmentData.filename a.

(** The items a cursor delivers before its first fault. *)
Fixpoint enumerated (script : list (Result PSTMessage.t)) : list PSTMessage.t :=
  match script with
  | Ok item :: rest => item :: enumerated rest
  | _ => []
  end.

Definition isNoteItem (item : PSTMessage.t) : bool := isNote (classOf item).

Definition isContactItem (item : PSTMessage.t) : bool :=
  negb (isNote (classOf item)) && String.eqb (classOf item) "IPM.Contact".

Definition isAppointmentItem (item : PSTMessage.t) : bool :=
  negb (isNote (classOf item)) && negb (String.eqb (classOf item) "IPM.Contact")
  && String.eqb (classOf item) "IPM.Appointment".

(** The record of a message item, when its attachment table can be read. *)
Definition recordOf (item : PSTMessage.t) : list MessageData.t :=
  match attachmentsOf item with
  | Ok attachments => [messageRecord item attachments]
  | Throw _ => []
  end.

(** What the item-level [try] leaves of the aggregate, for one item. *)
Definition afterItem (fd : FolderData) (item : PSTMessage.t) : FolderData :=
  if isNoteItem item then
    match attachmentsOf item with
    | Ok attachments => pushMessage (messageRecord item attachments) fd
    | Throw _ => fd
    end
  else if isContactItem item then pushContact (contactRecord item) fd
  else if isAppointmentItem item then pushAppointment (appointmentRecord item) fd
  else fd.

(** A computation on the host that only adds to the lines printed. *)
Definition Appends {A : Type} (m : Eff Host A) : Prop :=
  forall h, exists more, printed (snd (m h)) = (printed h ++ more)%list.

(** * Properties *)

Unset Implicit Arguments.

(** ** Strings *)

Module JsStringFacts.

Import JsString.

Lemma length_map f s : length (map f s) = length s.
Proof. induction s as [|c r IH]; simpl; congruence. Qed.

Lemma length_take n s : length (take n s) = Nat.min n (length s).
Proof.
  revert s; induction n as [|n IH]; intros [|c r]; simpl; auto.
Qed.

Lemma take_all n s : length s <= n -> take n s = s.
Proof.
  revert s; induction n as [|n IH]; intros [|c r]; simpl; intros H;
    try reflexivity; try lia.
  f_equal. apply IH. lia.
Qed.

Lemma take_take n s : take n (take n s) = take n s.
Proof.
  apply take_all. rewrite length_take. lia.
Qed.

Lemma chars_take_incl n s c : In c (chars (take n s)) -> In c (chars s).
Proof.
  unfold chars. revert s; induction n as [|n IH]; intros [|a r]; simpl;
    try tauto.
  intros [H|H]; [left; exact H | right; apply IH; exact H].
Qed.

Lemma chars_map f s : chars (map f s) = List.map f (chars s).
Proof.
  unfold chars. induction s as [|a r IH]; simpl; congruence.
Qed.

Lemma chars_app s t : chars (s ++ t) = (chars s ++ chars t)%list.
Proof.
  unfold chars. induction s as [|a r IH]; simpl; congruence.
Qed.

Lemma length_app s t : length (s ++ t) = length s + length t.
Proof. induction s as [|a r IH]; simpl; congruence. Qed.

Lemma map_id_when f s :
  (forall c, In c (chars s) -> f c = c) -> map f s = s.
Proof.
  unfold chars. induction s as [|a r IH]; simpl; intros H; [reflexivity|].
  rewrite (H a) by (left; reflexivity). f_equal. apply IH.
  intros c Hc. apply H. right. exact Hc.
Qed.

Lemma truthy_true_iff s : truthy s = true <-> s <> "".
Proof. destruct s; simpl; split; intros; congruence. Qed.

End JsStringFacts.

(** ** Dates and encodings on known values *)

Module JsDateExamples.

Import JsDate.
Open Scope Z_scope.

Example utc_epoch : toUTCString 0 = "Thu, 01 Jan 1970 00:00:00 GMT"%string.
Proof. reflexivity. Qed.

Example utc_billennium :
  toUTCString 1000000000000 = "Sun, 09 Sep 2001 01:46:40 GMT"%string.
Proof. reflexivity. Qed.

Example iso_leap_day :
  toISOString 951782400123 = "2000-02-29T00:00:00.123Z"%string.
Proof. reflexivity. Qed.

Example iso_before_epoch :
  toISOString (-1) = "1969-12-31T23:59:59.999Z"%string.
Proof. reflexivity. Qed.

Example iso_year_10000 :
  toISOString 253402300800000 = "+010000-01-01T00:00:00.000Z"%string.
Proof. reflexivity. Qed.

Example utc_year_before_0 :
  toUTCString (-62198755200000) = "Fri, 01 Jan -0001 00:00:00 GMT"%string.
Proof. reflexivity. Qed.

Example iso_last_day :
  toISOString 8640000000000000 = "+275760-09-13T00:00:00.000Z"%string.
Proof. reflexivity. Qed.

End JsDateExamples.

Module Base64Examples.

Import Base64.

Example encode_Man : encode [x4d; x61; x6e] = "TWFu".
Proof. reflexivity. Qed.

Example encode_Ma : encode [x4d; x61] = "TWE=".
Proof. reflexivity. Qed.

Example encode_M : encode [x4d] = "TQ==".
Proof. reflexivity. Qed.

End Base64Examples.

Example sanitize_ex :
  sanitizeFilename "RE: a/b <c>?.eml" = "RE_ a_b _c__.eml".
Proof. reflexivity. Qed.

Lemma replaceInvalid_valid c : invalidChar (replaceInvalid c) = false.
Proof.
  unfold replaceInvalid. destruct (invalidChar c) eqn:E; [reflexivity | exact E].
Qed.

Lemma replaceInvalid_fix c : invalidChar c = false -> replaceInvalid c = c.
Proof. unfold replaceInvalid. intros ->. reflexivity. Qed.

Lemma sanitize_chars_valid s c :
  In c (JsString.chars (sanitizeFilename s)) -> invalidChar c = false.
Proof.
  unfold sanitizeFilename. intros H.
  apply JsStringFacts.chars_take_incl in H.
  rewrite JsStringFacts.chars_map in H.
  apply in_map_iff in H. destruct H as [a [<- _]].
  apply replaceInvalid_valid.
Qed.

Lemma sanitize_length s : length (sanitizeFilename s) <= 180.
Proof.
  unfold sanitizeFilename. rewrite JsStringFacts.length_take. lia.
Qed.

Lemma sanitize_length_eq s :
  length (sanitizeFilename s) = Nat.min 180 (length s).
Proof.
  unfold sanitizeFilename.
  rewrite JsStringFacts.length_take, JsStringFacts.length_map. reflexivity.
Qed.

Lemma sanitize_clean s :
  (forall c, In c (JsString.chars s) -> invalidChar c = false) ->
  sanitizeFilename s = JsString.take 180 s.
Proof.
  intros H. unfold sanitizeFilename. f_equal.
  apply JsStringFacts.map_id_when. intros c Hc.
  apply replaceInvalid_fix, H, Hc.
Qed.

Lemma sanitize_idem s :
  sanitizeFilename (sanitizeFilename s) = sanitizeFilename s.
Proof.
  rewrite (@sanitize_clean (sanitizeFilename s)).
  - unfold sanitizeFilename. apply JsStringFacts.take_take.
  - intros c. apply sanitize_chars_valid.
Qed.

Lemma sanitize_nonempty s : s <> "" -> sanitizeFilename s <> "".
Proof.
  destruct s as [|a r]; [congruence|]. intros _. unfold sanitizeFilename.
  simpl. discriminate.
Qed.

Example formatDate_ex :
  formatDate (Some 1000000000000%Z) = "2001-09-09T01-46-40-000Z".
Proof. reflexivity. Qed.


(** ** Reasoning about computations *)

Section EffLemmas.

Context {S : Type}.

Lemma preserves_ret {A} (I : S -> Prop) (a : A) : Preserves I (ret a).
Proof. intros s H. exact H. Qed.

Lemma preserves_throw {A} (I : S -> Prop) e : Preserves I (@throw S A e).
Proof. intros s H. exact H. Qed.

Lemma preserves_perform {A} (I : S -> Prop) (r : Result A) :
  Preserves I (perform r).
Proof. intros s H. exact H. Qed.

Lemma preserves_modify (I : S -> Prop) (f : S -> S) :
  (forall s, I s -> I (f s)) -> Preserves I (modify f).
Proof. intros Hf s H. apply Hf, H. Qed.

Lemma preserves_bind {A B} (I : S -> Prop) (m : Eff S A) (k : A -> Eff S B) :
  Preserves I m -> (forall a, Preserves I (k a)) -> Preserves I (bind m k).
Proof.
  intros Hm Hk s H. unfold bind. specialize (Hm s H).
  destruct (m s) as [[a|e] s']; simpl in *.
  - apply Hk, Hm.
  - exact Hm.
Qed.

Lemma preserves_try_catch {A} (I : S -> Prop) (body : Eff S A) handler :
  Preserves I body -> (forall e, Preserves I (handler e)) ->
  Preserves I (try_catch body handler).
Proof.
  intros Hb Hh s H. unfold try_catch. specialize (Hb s H).
  destruct (body s) as [[a|e] s']; simpl in *.
  - exact Hb.
  - apply Hh, Hb.
Qed.

Lemma preserves_forEach {A} (I : S -> Prop) (body : A -> Eff S unit) xs :
  (forall x, In x xs -> Preserves I (body x)) -> Preserves I (forEach body xs).
Proof.
  induction xs as [|x rest IH]; intros Hb; simpl.
  - apply preserves_ret.
  - apply preserves_bind.
    + apply Hb. left. reflexivity.
    + intros _. apply IH. intros y Hy. apply Hb. right. exact Hy.
Qed.

Lemma nothrow_ret {A} (a : A) : NoThrow (@ret S A a).
Proof. intros s. exists a. reflexivity. Qed.

Lemma nothrow_modify (f : S -> S) : NoThrow (modify f).
Proof. intros s. exists tt. reflexivity. Qed.

Lemma nothrow_current : NoThrow (@current S).
Proof. intros s. exists s. reflexivity. Qed.

Lemma nothrow_bind {A B} (m : Eff S A) (k : A -> Eff S B) :
  NoThrow m -> (forall a, NoThrow (k a)) -> NoThrow (bind m k).
Proof.
  intros Hm Hk s. unfold bind. destruct (Hm s) as [a Ha].
  destruct (m s) as [[a'|e] s']; simpl in *; [|discriminate].
  apply Hk.
Qed.

(** A [try] whose handler returns normally returns normally, whatever its
    body does. *)
Lemma nothrow_try_catch {A} (body : Eff S A) handler :
  (forall e, NoThrow (handler e)) -> NoThrow (try_catch body handler).
Proof.
  intros Hh s. unfold try_catch.
  destruct (body s) as [[a|e] s']; simpl.
  - exists a. reflexivity.
  - apply Hh.
Qed.

Lemma nothrow_forEach {A} (body : A -> Eff S unit) xs :
  (forall x, In x xs -> NoThrow (body x)) -> NoThrow (forEach body xs).
Proof.
  induction xs as [|x rest IH]; intros Hb; simpl.
  - apply nothrow_ret.
  - apply nothrow_bind.
    + apply Hb. left. reflexivity.
    + intros _. apply IH. intros y Hy. apply Hb. right. exact Hy.
Qed.

Lemma nothrow_skip : NoThrow (@skip S).
Proof. apply nothrow_ret. Qed.

Lemma preserves_skip (I : S -> Prop) : Preserves I skip.
Proof. apply preserves_ret. Qed.

Lemma nothrow_run {A} (m : Eff S A) init :
  NoThrow m -> exists a, run m init = Ok a.
Proof. intros H. apply H. Qed.

End EffLemmas.

Create HintDb eff.

#[local] Hint Resolve preserves_ret preserves_skip preserves_throw
  preserves_perform preserves_modify preserves_bind preserves_try_catch : eff.
#[local] Hint Resolve nothrow_ret nothrow_skip nothrow_modify nothrow_current
  nothrow_bind nothrow_try_catch : eff.

(** ** Path sanitizer: the output is safe and bounded *)

Lemma invalidChar_forbidden c : invalidChar c = true <-> In c forbidden.
Proof.
  unfold invalidChar, forbidden. simpl.
  repeat rewrite orb_true_iff. repeat rewrite Ascii.eqb_eq.
  intuition congruence.
Qed.

Lemma valid_not_forbidden s :
  (forall c, In c (JsString.chars s) -> invalidChar c = false) ->
  forall c, In c forbidden -> ~ In c (JsString.chars s).
Proof.
  intros H c Hc Hin. apply invalidChar_forbidden in Hc.
  rewrite (H c Hin) in Hc. discriminate.
Qed.

Lemma get_map f s i :
  String.get i (JsString.map f s) = option_map f (String.get i s).
Proof.
  revert i; induction s as [|a r IH]; intros [|i]; simpl; auto.
Qed.

Lemma get_take n s i :
  i < n -> String.get i (JsString.take n s) = String.get i s.
Proof.
  revert s i; induction n as [|n IH]; intros [|a r] [|i] H; simpl;
    try reflexivity; try lia.
  apply IH. lia.
Qed.

(** C8.  For every input string, the output of [sanitizeFilename] contains
    none of the nine characters of the class, is at most 180 characters
    long, and is the input cut to its first 180 characters with every
    character of the class replaced by an underscore and every other
    character kept. *)
Theorem sanitizeFilename_safe (s : string) :
  (forall c, In c forbidden -> ~ In c (JsString.chars (sanitizeFilename s))) /\
  length (sanitizeFilename s) <= 180 /\
  length (sanitizeFilename s) = Nat.min 180 (length s) /\
  (forall i c, i < 180 -> String.get i s = Some c ->
     String.get i (sanitizeFilename s)
     = Some (if in_dec ascii_dec c forbidden then "_"%char else c)).
Proof.
  split; [|split; [|split]].
  - apply valid_not_forbidden. intros c. apply sanitize_chars_valid.
  - apply sanitize_length.
  - apply sanitize_length_eq.
  - intros i c Hi Hget. unfold sanitizeFilename.
    rewrite get_take by exact Hi. rewrite get_map, Hget.
    unfold option_map. f_equal. unfold replaceInvalid.
    destruct (in_dec ascii_dec c forbidden) as [Hin|Hout].
    + apply invalidChar_forbidden in Hin. rewrite Hin. reflexivity.
    + destruct (invalidChar c) eqn:E; [|reflexivity].
      apply invalidChar_forbidden in E. contradiction.
Qed.

Lemma sanitizeFilename_safe_witness :
  ~ In "/"%char (JsString.chars (sanitizeFilename "a/b:c")) /\
  String.get 1 (sanitizeFilename "a/b:c") = Some "_"%char.
Proof.
  destruct (sanitizeFilename_safe "a/b:c") as [H1 [_ [_ H4]]]. split.
  - apply H1. unfold forbidden. simpl. tauto.
  - apply (H4 1 "/"%char); [lia | reflexivity].
Defined.

(** ** Message body *)

Lemma emailBodyOf_preference (message : PSTMessage.t) :
  emailBodyOf message
  = firstPresent [PSTMessage.bodyRTF message; PSTMessage.bodyHTML message;
                  PSTMessage.body message].
Proof.
  unfold emailBodyOf, firstPresent, JsString.or_else.
  destruct (JsString.truthy (PSTMessage.bodyRTF message)); [reflexivity|].
  destruct (JsString.truthy (PSTMessage.bodyHTML message)); [reflexivity|].
  destruct (PSTMessage.body message); reflexivity.
Qed.

Lemma processItem_note (item : PSTMessage.t) slots (fd : FolderData) :
  isNote (classOf item) = true ->
  PSTMessage.attachmentTable item = Ok slots ->
  processItem item fd
  = (Ok tt,
     pushMessage (messageRecord item (snd (extractAttachments slots []))) fd).
Proof.
  intros Hnote Htable. unfold processItem, attachmentsOf.
  rewrite Hnote, Htable. reflexivity.
Qed.

(** C9.  For every message item (class [IPM.Note] or [IPM.Note.*]) whose
    attachment table can be read, the walker stores one record, and the
    body of that record is the rich-text body if present, otherwise the
    HTML body if present, otherwise the plain-text body, otherwise the
    empty string. *)
Theorem message_body_preference (item : PSTMessage.t) slots (fd : FolderData) :
  isNote (classOf item) = true ->
  PSTMessage.attachmentTable item = Ok slots ->
  exists record,
    processItem item fd = (Ok tt, pushMessage record fd) /\
    MessageData.body record
    = firstPresent [PSTMessage.bodyRTF item; PSTMessage.bodyHTML item;
                    PSTMessage.body item] /\
    (PSTMessage.bodyRTF item <> "" ->
       MessageData.body record = PSTMessage.bodyRTF item) /\
    (PSTMessage.bodyRTF item = "" -> PSTMessage.bodyHTML item <> "" ->
       MessageData.body record = PSTMessage.bodyHTML item) /\
    (PSTMessage.bodyRTF item = "" -> PSTMessage.bodyHTML item = "" ->
       MessageData.body record = PSTMessage.body item).
Proof.
  intros Hnote Htable.
  exists (messageRecord item (snd (extractAttachments slots []))).
  split; [apply processItem_note; assumption|].
  unfold messageRecord. cbn [MessageData.body].
  rewrite emailBodyOf_preference. unfold firstPresent.
  split; [reflexivity|]. split; [|split].
  - intros H. apply JsStringFacts.truthy_true_iff in H. rewrite H. reflexivity.
  - intros -> H. apply JsStringFacts.truthy_true_iff in H. rewrite H. reflexivity.
  - intros -> ->. simpl. destruct (PSTMessage.body item); reflexivity.
Qed.

Lemma message_body_preference_witness :
  exists record,
    processItem
      (PSTMessage.mk (Some "IPM.Note") "Hello" "" "a@x" "b@x" "plain"
                     "<html>rich</html>" "" None None "" (Ok []))
      (mkFolderData "Inbox" [] [] [] [])
    = (Ok tt, pushMessage record (mkFolderData "Inbox" [] [] [] [])) /\
    MessageData.body record = "<html>rich</html>".
Proof.
  destruct (@message_body_preference
              (PSTMessage.mk (Some "IPM.Note") "Hello" "" "a@x" "b@x" "plain"
                             "<html>rich</html>" "" None None "" (Ok []))
              [] (mkFolderData "Inbox" [] [] [] [])
              eq_refl eq_refl) as [record [Hrun [Hbody _]]].
  exists record. split; [exact Hrun | exact Hbody].
Defined.

(** ** Attachment drain *)

Lemma alloc_length n : List.length (alloc n) = n.
Proof. apply repeat_length. Qed.

Lemma readInto_length bytes buffer :
  List.length (snd (readInto bytes buffer)) = List.length buffer.
Proof.
  unfold readInto. cbn [snd]. rewrite length_app, length_skipn.
  assert (List.length (firstn (List.length buffer) bytes) <= List.length buffer)
    by (rewrite length_firstn; apply Nat.le_min_l).
  lia.
Qed.

(** What a read that fits into the buffer returns, and the copy taken of
    the view. *)
Lemma readInto_fits bytes buffer :
  List.length bytes <= List.length buffer ->
  fst (readInto bytes buffer) = List.length bytes /\
  firstn (List.length bytes) (snd (readInto bytes buffer)) = bytes.
Proof.
  intros H. unfold readInto. cbn [fst snd].
  rewrite firstn_all2 by exact H. split; [reflexivity|].
  rewrite firstn_app, Nat.sub_diag, firstn_all. cbn [firstn].
  apply app_nil_r.
Qed.

Lemma primaryLoop_step bytes rest buffer chunks :
  primaryLoop (Stream.Filled bytes :: rest) buffer chunks
  = let bytesRead := fst (readInto bytes buffer) in
    let buffer' := snd (readInto bytes buffer) in
    let chunks' :=
      if (0 <? bytesRead)%nat
      then (chunks ++ [firstn bytesRead buffer'])%list
      else chunks in
    if (bytesRead =? bufferSize)%nat then primaryLoop rest buffer' chunks'
    else Ok chunks'.
Proof.
  cbn [primaryLoop]. destruct (readInto bytes buffer). reflexivity.
Qed.

Lemma bufferSize_pos : (0 <? bufferSize)%nat = true.
Proof. reflexivity. Qed.

Lemma primaryLoop_full (full : list Buffer) rest buffer acc :
  List.length buffer = bufferSize ->
  Forall (fun c => List.length c = bufferSize) full ->
  exists buffer',
    List.length buffer' = bufferSize /\
    primaryLoop (List.map Stream.Filled full ++ rest) buffer acc
    = primaryLoop rest buffer' (acc ++ full).
Proof.
  intros Hbuf H. revert buffer Hbuf acc.
  induction H as [|c full Hc _ IH]; intros buffer Hbuf acc.
  - exists buffer. rewrite app_nil_r. split; [exact Hbuf | reflexivity].
  - cbn [List.map app]. rewrite primaryLoop_step. cbv zeta.
    destruct (readInto_fits c buffer) as [Hn Hcopy];
      [rewrite Hc, Hbuf; apply le_n|].
    rewrite Hn, Hcopy, Hc, Nat.eqb_refl, bufferSize_pos.
    destruct (IH (snd (readInto c buffer))
                 (eq_trans (readInto_length c buffer) Hbuf)
                 (acc ++ [c])%list) as [buffer' [Hlen Hrun]].
    exists buffer'. split; [exact Hlen|].
    rewrite Hrun, <- app_assoc. reflexivity.
Qed.

Lemma primaryLoop_short (last : Buffer) tail buffer acc :
  List.length buffer = bufferSize ->
  List.length last < bufferSize ->
  primaryLoop (Stream.Filled last :: tail) buffer acc
  = Ok (if isEmpty last then acc else acc ++ [last])%list.
Proof.
  intros Hbuf H. rewrite primaryLoop_step. cbv zeta.
  destruct (readInto_fits last buffer) as [Hn Hcopy];
    [rewrite Hbuf; apply Nat.lt_le_incl, H|].
  rewrite Hn, Hcopy.
  replace (List.length last =? bufferSize)%nat with false
    by (symmetry; apply Nat.eqb_neq; intros E; rewrite E in H;
        exact (Nat.lt_irrefl _ H)).
  destruct last; reflexivity.
Qed.

Lemma concat_snoc_chunk (full : list Buffer) (last : Buffer) :
  List.concat (if isEmpty last then full else full ++ [last])%list
  = (List.concat full ++ last)%list.
Proof.
  destruct last as [|b last]; simpl.
  - rewrite app_nil_r. reflexivity.
  - rewrite concat_app. simpl. rewrite app_nil_r. reflexivity.
Qed.

Lemma primaryLoop_ends ending last buffer acc :
  List.length buffer = bufferSize ->
  EndsStream ending last ->
  primaryLoop ending buffer acc
  = Ok (if isEmpty last then acc else acc ++ [last])%list.
Proof.
  intros Hbuf [| tail | l tail Hl]; try reflexivity.
  apply primaryLoop_short; assumption.
Qed.

Lemma isEmpty_chunks (full : list Buffer) (last : Buffer) :
  Forall (fun c => List.length c = bufferSize) full ->
  isEmpty (if isEmpty last then full else full ++ [last])%list
  = isEmpty (List.concat full ++ last)%list.
Proof.
  intros H. destruct H as [|c full Hc _].
  - destruct last; reflexivity.
  - destruct c as [|b c]; [discriminate Hc|].
    destruct last; reflexivity.
Qed.

(** C6, as amended.  For every attachment whose stream fills the buffer of
    8176 bytes on every read before its last one, and then ends (the next
    read returns fewer bytes than the buffer holds, possibly none, or the
    end-of-stream value), the primary loop accumulates exactly the bytes of
    the stream, in order, and stops at that read: whatever the stream would
    answer afterwards is not read.  The drain then appends one record
    carrying these N bytes when N is positive, and nothing when N = 0. *)
Theorem primary_drain_exact (attachment : PSTAttachment.t)
  (full : list Buffer) (ending : list Stream.ChunkRead) (last : Buffer)
  (single : list Stream.ByteRead) (attachments : list AttachmentData.t) :
  Forall (fun c => List.length c = bufferSize) full ->
  EndsStream ending last ->
  let stream := Stream.mk (List.map Stream.Filled full ++ ending) single in
  let bytes := (List.concat full ++ last)%list in
  (exists got,
     primaryDrain (Stream.chunked stream) = Ok got /\
     List.concat got = bytes) /\
  List.length bytes = List.length full * bufferSize + List.length last /\
  drainStream attachment stream attachments
  = (Ok 0,
     if isEmpty bytes then attachments
     else (attachments ++ [attachmentRecord attachment bytes])%list).
Proof.
  intros Hfull Hend stream bytes.
  assert (Hloop : primaryDrain (Stream.chunked stream)
                  = Ok (if isEmpty last then full else full ++ [last])%list).
  { unfold stream, primaryDrain. cbn [Stream.chunked].
    destruct (primaryLoop_full full ending (alloc bufferSize) []
                (alloc_length bufferSize) Hfull) as [buffer' [Hlen Hrun]].
    rewrite Hrun. apply (primaryLoop_ends _ _ _ _ Hlen Hend). }
  split; [|split].
  - eexists. split; [exact Hloop|]. apply concat_snoc_chunk.
  - unfold bytes. rewrite length_app. f_equal.
    clear -Hfull. induction Hfull as [|c full Hc _ IH]; [reflexivity|].
    cbn [List.concat List.length]. rewrite length_app, Hc, IH.
    reflexivity.
  - unfold drainStream. rewrite Hloop.
    rewrite isEmpty_chunks by exact Hfull.
    rewrite concat_snoc_chunk. fold bytes.
    destruct (isEmpty bytes); reflexivity.
Qed.

Lemma primary_drain_exact_witness :
  drainStream (PSTAttachment.mk "report.pdf" "" "" 8178 (Ok None))
    (Stream.mk
       (List.map Stream.Filled [repeat x41 bufferSize]
        ++ [Stream.Filled [x42; x43]; Stream.Filled [x44]])%list
       [])
    []
  = (Ok 0,
     [attachmentRecord (PSTAttachment.mk "report.pdf" "" "" 8178 (Ok None))
        (List.concat [repeat x41 bufferSize] ++ [x42; x43])%list]).
Proof.
  assert (Hfull : Forall (fun c : Buffer => List.length c = bufferSize)
                         [repeat x41 bufferSize]).
  { constructor; [apply repeat_length | constructor]. }
  assert (Hshort : List.length [x42; x43] < bufferSize).
  { apply Nat.ltb_lt. reflexivity. }
  destruct (@primary_drain_exact
              (PSTAttachment.mk "report.pdf" "" "" 8178 (Ok None))
              [repeat x41 bufferSize]
              [Stream.Filled [x42; x43]; Stream.Filled [x44]]
              [x42; x43] [] [] Hfull
              (@ends_short [x42; x43] [Stream.Filled [x44]] Hshort))
    as [_ [_ Hdrain]].
  exact Hdrain.
Defined.

(** C6, as stated, fails: a stream that delivers three bytes in a chunk of
    two followed by a chunk of one is drained of its first two bytes only,
    the loop leaving at the first read shorter than the buffer. *)
Lemma short_read_loses_bytes :
  Forall (fun c : Buffer => List.length c <= bufferSize) [[x01; x02]; [x03]] /\
  primaryDrain (List.map Stream.Filled [[x01; x02]; [x03]])
  = Ok [[x01; x02]] /\
  ~ drainsWholeStream [[x01; x02]; [x03]].
Proof.
  assert (Hsizes : Forall (fun c : Buffer => List.length c <= bufferSize)
                          [[x01; x02]; [x03]]).
  { repeat constructor; apply Nat.leb_le; reflexivity. }
  assert (Hrun : primaryDrain (List.map Stream.Filled [[x01; x02]; [x03]])
                 = Ok [[x01; x02]]).
  { unfold primaryDrain. cbn [List.map].
    rewrite primaryLoop_short; [reflexivity | apply alloc_length |].
    apply Nat.ltb_lt. reflexivity. }
  split; [exact Hsizes|]. split; [exact Hrun|].
  intros Hclaim. destruct (Hclaim Hsizes) as [got [Hgot Hconcat]].
  rewrite Hrun in Hgot. injection Hgot as <-. discriminate Hconcat.
Qed.

Lemma fallbackLoop_calls script rawData calls :
  calls < snd (fallbackLoop script rawData calls).
Proof.
  revert rawData calls.
  induction script as [|[b| |e] rest IH]; intros rawData calls; simpl;
    try apply Nat.lt_succ_diag_r.
  apply Nat.lt_trans with (S calls); [apply Nat.lt_succ_diag_r | apply IH].
Qed.

Lemma Forall_snoc {A} (P : A -> Prop) l x :
  Forall P l -> P x -> Forall P (l ++ [x]).
Proof.
  intros Hl Hx. apply Forall_app. split; [exact Hl|].
  constructor; [exact Hx | constructor].
Qed.

Lemma primaryLoop_chunks_nonempty script buffer acc got :
  primaryLoop script buffer acc = Ok got ->
  Forall (fun c : Buffer => c <> []) acc ->
  Forall (fun c : Buffer => c <> []) got.
Proof.
  revert buffer acc.
  induction script as [|[bytes| |e] rest IH]; intros buffer acc Hrun Hacc.
  - injection Hrun as <-. exact Hacc.
  - rewrite primaryLoop_step in Hrun. cbv zeta in Hrun.
    pose proof (readInto_length bytes buffer) as Hlen.
    destruct (readInto bytes buffer) as [bytesRead buffer'] eqn:Hread.
    cbn [fst snd] in *.
    assert (HbytesRead : bytesRead <= List.length buffer').
    { unfold readInto in Hread. injection Hread as <- _.
      rewrite Hlen, length_firstn. apply Nat.le_min_l. }
    assert (Hacc' : Forall (fun c : Buffer => c <> [])
                      (if (0 <? bytesRead)%nat
                       then (acc ++ [firstn bytesRead buffer'])%list
                       else acc)).
    { destruct (0 <? bytesRead)%nat eqn:Hpos; [|exact Hacc].
      apply Nat.ltb_lt in Hpos. apply Forall_snoc; [exact Hacc|].
      intros Hnil. apply (f_equal (@List.length byte)) in Hnil.
      rewrite length_firstn in Hnil. simpl in Hnil. lia. }
    destruct (bytesRead =? bufferSize)%nat.
    + apply (IH _ _ Hrun Hacc').
    + injection Hrun as <-. exact Hacc'.
  - injection Hrun as <-. exact Hacc.
  - discriminate Hrun.
Qed.

Lemma concat_nonempty (chunks : list Buffer) :
  isEmpty chunks = false ->
  Forall (fun c : Buffer => c <> []) chunks ->
  List.concat chunks <> [].
Proof.
  destruct chunks as [|c chunks]; [discriminate|].
  intros _ H. inversion H as [|? ? Hc _]; subst.
  destruct c as [|b c]; [congruence|]. discriminate.
Qed.

Lemma or_else_default_nonempty s d : d <> "" -> JsString.or_else s d <> "".
Proof.
  intros Hd. unfold JsString.or_else. destruct s; simpl; [exact Hd|discriminate].
Qed.

Lemma attachmentRecord_sound attachment (data : Buffer) :
  data <> [] -> soundAttachment (attachmentRecord attachment data).
Proof.
  intros Hdata. unfold soundAttachment, attachmentRecord. simpl.
  split; [exact Hdata|]. split.
  - apply or_else_default_nonempty. discriminate.
  - exists (PSTAttachment.mimeTag attachment). reflexivity.
Qed.

Lemma isEmpty_false_iff {A} (l : list A) : isEmpty l = false <-> l <> [].
Proof. destruct l; simpl; split; congruence. Qed.

Lemma drainStream_preserves attachment stream :
  Preserves (Forall soundAttachment) (drainStream attachment stream).
Proof.
  intros attachments H. unfold drainStream.
  destruct (primaryDrain (Stream.chunked stream)) as [chunks|e] eqn:Hprimary.
  - destruct (isEmpty chunks) eqn:Hchunks; simpl; [exact H|].
    apply Forall_snoc; [exact H|]. apply attachmentRecord_sound.
    apply concat_nonempty; [exact Hchunks|].
    apply (primaryLoop_chunks_nonempty _ _ _ _ Hprimary). constructor.
  - destruct (smallEnough attachment); [|exact H].
    destruct (fallbackLoop (Stream.single stream) [] 0) as [[rawData|e'] calls];
      [|exact H].
    destruct (isEmpty rawData) eqn:Hraw; simpl; [exact H|].
    apply Forall_snoc; [exact H|]. apply attachmentRecord_sound.
    apply isEmpty_false_iff, Hraw.
Qed.

Lemma extractAttachment_preserves slot :
  Preserves (Forall soundAttachment) (extractAttachment slot).
Proof.
  unfold extractAttachment, skip.
  apply preserves_try_catch; [|intros; apply preserves_ret].
  apply preserves_bind; [apply preserves_perform|].
  intros [attachment|]; [|apply preserves_ret].
  destruct (negb (JsString.truthy (PSTAttachment.filename attachment)));
    [apply preserves_ret|].
  apply preserves_bind; [apply preserves_perform|].
  intros [stream|]; [|apply preserves_ret].
  apply preserves_bind; [apply drainStream_preserves|].
  intros; apply preserves_ret.
Qed.

Lemma extractAttachment_nothrow slot : NoThrow (extractAttachment slot).
Proof. unfold extractAttachment. auto with eff. Qed.

Lemma extractAttachments_sound slots :
  Forall soundAttachment (snd (extractAttachments slots [])).
Proof.
  apply (@preserves_forEach _ _ (Forall soundAttachment) extractAttachment slots).
  - intros slot _. apply extractAttachment_preserves.
  - constructor.
Qed.

Lemma walkerRecord_attachments m :
  walkerRecord m -> Forall soundAttachment (MessageData.attachments m).
Proof.
  intros [item [slots [_ ->]]]. apply extractAttachments_sound.
Qed.

(** ** The walker returns, and what its faults cost *)

Lemma allMessages_eq fd :
  allMessages fd
  = (messages fd ++ flat_map allMessages (subfolders fd))%list.
Proof. destruct fd; reflexivity. Qed.

Lemma pruned_eq fd :
  pruned fd = List.forallb (fun sub => hasData sub && pruned sub) (subfolders fd).
Proof. destruct fd; reflexivity. Qed.

Lemma countRecords_eq fd :
  countRecords fd
  = List.length (messages fd) + List.length (contacts fd) +
    List.length (appointments fd) +
    list_sum (List.map countRecords (subfolders fd)).
Proof. destruct fd; reflexivity. Qed.

Lemma extractFolder_eq folder :
  extractFolder folder
  = run (extractContent folder ;;
         extractSubfolders extractFolder folder ;;
         current)%eff
        (newFolderData folder).
Proof. destruct folder; reflexivity. Qed.

Lemma whileItem_eq item rest :
  whileItem item rest
  = (try_catch
       (if negb (isIpm (PSTMessage.messageClass item)) then skip
        else processItem item)
       (fun itemError => skip) ;;
     match rest with
     | [] => ret tt
     | Throw nextError :: _ => skip
     | Ok next :: rest' => whileItem next rest'
     end)%eff.
Proof. destruct rest; reflexivity. Qed.

Lemma whileItem_nothrow item rest : NoThrow (whileItem item rest).
Proof.
  revert item. induction rest as [|[next|e] rest IH]; intros item;
    rewrite whileItem_eq; apply nothrow_bind;
    try (apply nothrow_try_catch; intros; apply nothrow_ret);
    intros _; try apply nothrow_ret.
  apply IH.
Qed.

Lemma extractContent_nothrow folder : NoThrow (extractContent folder).
Proof.
  unfold extractContent. destruct (0 <? contentCount folder)%Z; auto with eff.
Qed.

Section DescentFacts.

Variable extract : PSTFolder -> Result FolderData.

Lemma visitChild_nothrow child : NoThrow (visitChild extract child).
Proof. unfold visitChild. auto with eff. Qed.

Lemma extractSubfolders_nothrow folder :
  NoThrow (extractSubfolders extract folder).
Proof.
  unfold extractSubfolders. destruct (hasSubfolders folder); auto with eff.
Qed.

(** What one turn of the loop over the subfolders does. *)
Lemma visitChild_run child fd :
  visitChild extract child fd
  = (Ok tt,
     match extract child with
     | Ok sub => if hasData sub then pushSubfolder sub fd else fd
     | Throw _ => fd
     end).
Proof.
  unfold visitChild, try_catch, bind, perform.
  destruct (extract child) as [sub|e]; [|reflexivity].
  destruct (hasData sub); reflexivity.
Qed.

Lemma forEachChild_run children fd :
  forEachChild extract children fd
  = (Ok tt,
     mkFolderData (name fd) (messages fd) (contacts fd) (appointments fd)
       (subfolders fd
        ++ filter hasData (returned (List.map extract children)))).
Proof.
  unfold forEachChild. revert fd.
  induction children as [|child rest IH]; intros fd.
  - simpl. rewrite app_nil_r. destruct fd; reflexivity.
  - cbn [forEach]. unfold bind at 1. rewrite visitChild_run.
    rewrite IH. cbn [List.map returned].
    destruct (extract child) as [sub|e]; [|reflexivity].
    cbn [returned filter]. destruct (hasData sub); [|reflexivity].
    unfold pushSubfolder. cbn [name messages contacts appointments subfolders].
    rewrite <- app_assoc. reflexivity.
Qed.

End DescentFacts.

Lemma run_seq_current {S : Type} (m1 m2 : Eff S unit) (init : S) :
  NoThrow m1 -> NoThrow m2 ->
  run (m1 ;; m2 ;; current)%eff init = Ok (snd (m2 (snd (m1 init)))).
Proof.
  intros H1 H2. unfold run, bind, current.
  destruct (H1 init) as [a1 E1]. destruct (m1 init) as [r1 s1].
  simpl in E1. subst r1. simpl.
  destruct (H2 s1) as [a2 E2]. destruct (m2 s1) as [r2 s2].
  simpl in E2. subst r2. reflexivity.
Qed.

(** The aggregate the walker returns, in closed form. *)
Lemma extractFolder_run folder :
  extractFolder folder
  = Ok (snd (extractSubfolders extractFolder folder
               (snd (extractContent folder (newFolderData folder))))).
Proof.
  rewrite extractFolder_eq. apply run_seq_current.
  - apply extractContent_nothrow.
  - apply extractSubfolders_nothrow.
Qed.

(** Induction over a folder tree, and over an aggregate tree. *)
Lemma PSTFolder_tree_ind (P : PSTFolder -> Prop) :
  (forall dn cc cur hs e, P (mkPSTFolder dn cc cur hs (Throw e))) ->
  (forall dn cc cur hs children,
      Forall P children -> P (mkPSTFolder dn cc cur hs (Ok children))) ->
  forall folder, P folder.
Proof.
  intros Hthrow Hok. fix IH 1. intros [dn cc cur hs [children|e]].
  - apply Hok. induction children as [|c rest IHrest]; constructor.
    + apply IH.
    + exact IHrest.
  - apply Hthrow.
Qed.

Lemma FolderData_tree_ind (P : FolderData -> Prop) :
  (forall n ms cs aps subs,
      Forall P subs -> P (mkFolderData n ms cs aps subs)) ->
  forall fd, P fd.
Proof.
  intros Hstep. fix IH 1. intros [n ms cs aps subs].
  apply Hstep. induction subs as [|s rest IHrest]; constructor.
  - apply IH.
  - exact IHrest.
Qed.

Lemma hasData_iff fd :
  hasData fd = true <->
  messages fd <> [] \/ contacts fd <> [] \/ appointments fd <> [] \/
  subfolders fd <> [].
Proof.
  unfold hasData. repeat rewrite orb_true_iff.
  repeat rewrite negb_true_iff. repeat rewrite isEmpty_false_iff. tauto.
Qed.

Lemma hasData_false_iff fd :
  hasData fd = false <->
  messages fd = [] /\ contacts fd = [] /\ appointments fd = [] /\
  subfolders fd = [].
Proof.
  unfold hasData.
  destruct (messages fd), (contacts fd), (appointments fd), (subfolders fd);
    simpl; split; try discriminate; try tauto;
    intros [H1 [H2 [H3 H4]]]; discriminate.
Qed.

(** Enumerating the content never touches the list of subfolders. *)
Lemma processItem_keeps_subfolders item subs :
  Preserves (fun fd => subfolders fd = subs) (processItem item).
Proof.
  unfold processItem, skip.
  destruct (isNote (classOf item)).
  - apply preserves_bind; [apply preserves_perform|]. intros atts.
    apply preserves_try_catch; [|intros; apply preserves_ret].
    apply preserves_modify. intros fd H. exact H.
  - destruct (classOf item =? "IPM.Contact")%string.
    + apply preserves_modify. intros fd H. exact H.
    + destruct (classOf item =? "IPM.Appointment")%string.
      * apply preserves_modify. intros fd H. exact H.
      * apply preserves_ret.
Qed.

Section ContentInvariant.

(** An invariant of the aggregate that every item step keeps is kept by the
    enumeration of the content. *)
Variable I : FolderData -> Prop.
Hypothesis item_keeps : forall item, Preserves I (processItem item).

Lemma whileItem_preserves item rest : Preserves I (whileItem item rest).
Proof.
  revert item. induction rest as [|[next|e] rest IH]; intros item;
    rewrite whileItem_eq; apply preserves_bind;
    try (apply preserves_try_catch;
         [destruct (negb (isIpm (PSTMessage.messageClass item)));
          [apply preserves_ret | apply item_keeps]
         | intros; apply preserves_ret]);
    intros _; try apply preserves_ret.
  apply IH.
Qed.

Lemma extractContent_preserves folder : Preserves I (extractContent folder).
Proof.
  unfold extractContent. destruct (0 <? contentCount folder)%Z;
    [|apply preserves_ret].
  apply preserves_try_catch; [|intros; apply preserves_ret].
  apply preserves_bind; [apply preserves_perform|].
  intros [first|]; [apply whileItem_preserves | apply preserves_ret].
Qed.

End ContentInvariant.

Lemma extractContent_subfolders folder :
  subfolders (snd (extractContent folder (newFolderData folder))) = [].
Proof.
  apply (@extractContent_preserves (fun fd => subfolders fd = [])).
  - intros item. apply processItem_keeps_subfolders.
  - reflexivity.
Qed.

Lemma extractSubfolders_run extract folder fd :
  snd (extractSubfolders extract folder fd)
  = if hasSubfolders folder then
      match getSubFolders folder with
      | Ok children =>
          mkFolderData (name fd) (messages fd) (contacts fd) (appointments fd)
            (subfolders fd
             ++ filter hasData (returned (List.map extract children)))
      | Throw _ => fd
      end
    else fd.
Proof.
  unfold extractSubfolders. destruct (hasSubfolders folder); [|reflexivity].
  unfold try_catch. destruct (getSubFolders folder) as [children|e].
  - rewrite forEachChild_run. reflexivity.
  - reflexivity.
Qed.

(** The subfolders of the aggregate of a folder. *)
Lemma extractFolder_subfolders folder agg :
  extractFolder folder = Ok agg ->
  subfolders agg
  = if hasSubfolders folder then
      match getSubFolders folder with
      | Ok children =>
          filter hasData (returned (List.map extractFolder children))
      | Throw _ => []
      end
    else [].
Proof.
  rewrite extractFolder_run. intros H. injection H as <-.
  rewrite extractSubfolders_run.
  pose proof (extractContent_subfolders folder) as Hc.
  destruct (hasSubfolders folder); [|exact Hc].
  destruct (getSubFolders folder) as [children|e]; [|exact Hc].
  cbn [subfolders]. rewrite Hc. reflexivity.
Qed.

Lemma in_returned {A} (rs : list (Result A)) a :
  In a (returned rs) <-> In (Ok a) rs.
Proof.
  induction rs as [|[a'|e] rs IH]; simpl.
  - tauto.
  - rewrite IH. split; intros [H|H]; auto; left; congruence.
  - rewrite IH. split; [auto|]. intros [H|H]; [discriminate | exact H].
Qed.

Lemma in_subfolders folder agg sub :
  extractFolder folder = Ok agg ->
  In sub (subfolders agg) ->
  hasData sub = true /\
  exists children child,
    hasSubfolders folder = true /\ getSubFolders folder = Ok children /\
    In child children /\ extractFolder child = Ok sub.
Proof.
  intros Hrun Hin. rewrite (extractFolder_subfolders _ _ Hrun) in Hin.
  destruct (hasSubfolders folder); [|contradiction].
  destruct (getSubFolders folder) as [children|e]; [|contradiction].
  apply filter_In in Hin. destruct Hin as [Hin Hdata].
  split; [exact Hdata|].
  apply in_returned, in_map_iff in Hin. destruct Hin as [child [Hc Hin]].
  exists children, child. auto.
Qed.

Lemma extractFolder_pruned folder :
  forall agg, extractFolder folder = Ok agg -> pruned agg = true.
Proof.
  induction folder as [dn cc cur hs e | dn cc cur hs children IH]
    using PSTFolder_tree_ind; intros agg Hrun;
    rewrite pruned_eq; apply forallb_forall; intros sub Hin;
    destruct (in_subfolders _ _ _ Hrun Hin)
      as [Hdata [cs [child [_ [Hcs [Hchild Hsub]]]]]];
    simpl in Hcs; [discriminate|].
  injection Hcs as <-. rewrite Hdata. simpl.
  rewrite Forall_forall in IH. apply (IH child Hchild sub Hsub).
Qed.

Lemma pruned_has_records fd :
  pruned fd = true -> hasData fd = true -> 0 < countRecords fd.
Proof.
  induction fd as [n ms cs aps subs IH] using FolderData_tree_ind.
  rewrite pruned_eq, countRecords_eq. cbn [messages contacts appointments subfolders].
  intros Hpruned Hdata. apply hasData_iff in Hdata.
  cbn [messages contacts appointments subfolders] in Hdata.
  destruct ms as [|m ms]; [|simpl; lia].
  destruct cs as [|c cs]; [|simpl; lia].
  destruct aps as [|a aps]; [|simpl; lia].
  destruct subs as [|sub subs]; [destruct Hdata as [H|[H|[H|H]]]; congruence|].
  simpl in Hpruned. apply andb_true_iff in Hpruned.
  destruct Hpruned as [Hsub _]. apply andb_true_iff in Hsub.
  destruct Hsub as [Hd Hp]. inversion IH as [|? ? Hhead _]; subst.
  specialize (Hhead Hp Hd). simpl. lia.
Qed.

Lemma sample_root_run : extractFolder Sample.root = Ok Sample.rootAggregate.
Proof. reflexivity. Qed.

(** C1.  For every folder the walker traverses, the subfolders of its
    aggregate are, in order, the aggregates of the subfolders it recursed
    into that have data; the aggregate of a recursed-into subfolder is
    attached if and only if it has at least one message, contact,
    appointment or subfolder of its own; an aggregate whose four lists are
    all empty is attached nowhere; and at any depth every attached
    aggregate holds at least one record in its subtree. *)
Theorem subfolder_attached_iff_has_data (folder : PSTFolder) (agg : FolderData) :
  extractFolder folder = Ok agg ->
  (forall children,
      hasSubfolders folder = true -> getSubFolders folder = Ok children ->
      subfolders agg
      = filter hasData (returned (List.map extractFolder children))) /\
  (forall children child sub,
      hasSubfolders folder = true -> getSubFolders folder = Ok children ->
      In child children -> extractFolder child = Ok sub ->
      (In sub (subfolders agg) <->
       messages sub <> [] \/ contacts sub <> [] \/ appointments sub <> [] \/
       subfolders sub <> [])) /\
  (forall sub,
      In sub (subfolders agg) ->
      ~ (messages sub = [] /\ contacts sub = [] /\ appointments sub = [] /\
         subfolders sub = [])) /\
  pruned agg = true /\
  (forall sub, In sub (subfolders agg) -> 0 < countRecords sub).
Proof.
  intros Hrun. pose proof (extractFolder_subfolders _ _ Hrun) as Hsubs.
  pose proof (extractFolder_pruned _ _ Hrun) as Hpruned.
  split; [|split; [|split; [|split]]].
  - intros children Hhas Hget. rewrite Hsubs, Hhas, Hget. reflexivity.
  - intros children child sub Hhas Hget Hin Hsub.
    rewrite <- hasData_iff, Hsubs, Hhas, Hget, filter_In, in_returned.
    split; [tauto|]. intros Hdata. split; [|exact Hdata].
    rewrite <- Hsub. apply in_map, Hin.
  - intros sub Hin Hempty.
    destruct (in_subfolders _ _ _ Hrun Hin) as [Hdata _].
    apply hasData_false_iff in Hempty. congruence.
  - exact Hpruned.
  - intros sub Hin.
    destruct (in_subfolders _ _ _ Hrun Hin) as [Hdata _].
    rewrite pruned_eq in Hpruned.
    rewrite forallb_forall in Hpruned. specialize (Hpruned sub Hin).
    apply andb_true_iff in Hpruned.
    apply pruned_has_records; tauto.
Qed.

Lemma subfolder_attached_iff_has_data_witness :
  subfolders Sample.rootAggregate = [Sample.peopleAggregate] /\
  pruned Sample.rootAggregate = true.
Proof.
  destruct (subfolder_attached_iff_has_data Sample.root Sample.rootAggregate
              eq_refl) as [Hsubs [_ [_ [Hpruned _]]]].
  split; [|exact Hpruned].
  rewrite (Hsubs _ eq_refl eq_refl). reflexivity.
Defined.

(** C2.  For every folder handle the walker returns an aggregate and does
    not throw.  A fault while processing an item leaves the aggregate as
    the item left it and the enumeration goes on with the next item; a
    fault of the cursor ends the enumeration of that folder, whatever the
    cursor still held, and the walker goes on to the subfolders; a fault
    while listing the subfolders leaves the aggregate as it is; a fault of
    the recursive call on one subfolder omits that subfolder and the loop
    goes on with its siblings. *)
Theorem extractFolder_never_throws :
  (forall folder, exists agg, extractFolder folder = Ok agg) /\
  (forall item next rest fd fd' e,
      processItem item fd = (Throw e, fd') ->
      isIpm (PSTMessage.messageClass item) = true ->
      whileItem item (Ok next :: rest) fd = whileItem next rest fd') /\
  (forall item rest fd e,
      whileItem item (Throw e :: rest) fd = whileItem item [] fd /\
      exists fd', whileItem item [] fd = (Ok tt, fd')) /\
  (forall dn cc rest hs subs e fd,
      extractContent (mkPSTFolder dn cc (Throw e :: rest) hs subs) fd
      = (Ok tt, fd)) /\
  (forall extract folder fd e,
      getSubFolders folder = Throw e ->
      extractSubfolders extract folder fd = (Ok tt, fd)) /\
  (forall extract before child after fd e,
      extract child = Throw e ->
      forEachChild extract (before ++ child :: after) fd
      = forEachChild extract (before ++ after) fd).
Proof.
  split; [|split; [|split; [|split; [|split]]]].
  - intros folder. rewrite extractFolder_run. eexists. reflexivity.
  - intros item next rest fd fd' e Hitem Hipm.
    rewrite (whileItem_eq item (Ok next :: rest)).
    unfold bind at 1. unfold try_catch. rewrite Hipm. cbn [negb].
    rewrite Hitem. reflexivity.
  - intros item rest fd e. split.
    + rewrite (whileItem_eq item (Throw e :: rest)), (whileItem_eq item []).
      reflexivity.
    + destruct (whileItem_nothrow item [] fd) as [[] H].
      destruct (whileItem item [] fd) as [r fd']. simpl in H. subst r.
      exists fd'. reflexivity.
  - intros dn cc rest hs subs e fd. unfold extractContent.
    cbn [contentCount cursor]. destruct (0 <? cc)%Z; reflexivity.
  - intros extract folder fd e Hget. unfold extractSubfolders.
    rewrite Hget. destruct (hasSubfolders folder); reflexivity.
  - intros extract before child after fd e Hchild.
    rewrite !forEachChild_run, !map_app. cbn [List.map].
    assert (Hret : forall xs ys : list (Result FolderData),
               returned (xs ++ Throw e :: ys) = returned (xs ++ ys)).
    { intros xs ys. induction xs as [|[a|e'] xs IH]; simpl; congruence. }
    rewrite Hchild, Hret. reflexivity.
Qed.

Lemma extractFolder_never_throws_witness :
  (exists agg, extractFolder Sample.root = Ok agg) /\
  whileItem Sample.broken [Ok Sample.hello] (newFolderData Sample.root)
  = whileItem Sample.hello [] (newFolderData Sample.root).
Proof.
  destruct extractFolder_never_throws as [Htotal [Hitem _]]. split.
  - apply Htotal.
  - apply (Hitem Sample.broken Sample.hello [] (newFolderData Sample.root)
                 (newFolderData Sample.root) "corrupt attachment table");
      reflexivity.
Defined.

(** ** Every record of the walker *)

Lemma in_allMessages_push m fd m' :
  In m' (allMessages (pushMessage m fd)) ->
  m' = m \/ In m' (allMessages fd).
Proof.
  rewrite (allMessages_eq (pushMessage m fd)), (allMessages_eq fd).
  unfold pushMessage. cbn [messages subfolders].
  rewrite !in_app_iff. simpl. intuition auto.
Qed.

Lemma processItem_keeps_records item :
  Preserves (fun fd => Forall walkerRecord (messages fd)) (processItem item).
Proof.
  intros fd H. unfold processItem.
  destruct (isNote (classOf item)).
  - unfold attachmentsOf, bind, perform, try_catch, modify.
    destruct (PSTMessage.attachmentTable item) as [slots|e] eqn:Htable;
      [|exact H].
    cbn [snd fst pushMessage messages]. apply Forall_snoc; [exact H|].
    exists item, slots. split; [exact Htable | reflexivity].
  - destruct (classOf item =? "IPM.Contact")%string; [exact H|].
    destruct (classOf item =? "IPM.Appointment")%string; exact H.
Qed.

Lemma extractFolder_messages folder agg :
  extractFolder folder = Ok agg ->
  messages agg = messages (snd (extractContent folder (newFolderData folder))).
Proof.
  rewrite extractFolder_run. intros H. injection H as <-.
  rewrite extractSubfolders_run.
  destruct (hasSubfolders folder); [|reflexivity].
  destruct (getSubFolders folder); reflexivity.
Qed.

Lemma extractFolder_own_records folder agg :
  extractFolder folder = Ok agg -> Forall walkerRecord (messages agg).
Proof.
  intros Hrun. rewrite (extractFolder_messages _ _ Hrun).
  apply (extractContent_preserves
           (fun fd => Forall walkerRecord (messages fd))
           processItem_keeps_records).
  constructor.
Qed.

Lemma extractFolder_records folder :
  forall agg, extractFolder folder = Ok agg ->
  forall m, In m (allMessages agg) -> walkerRecord m.
Proof.
  induction folder as [dn cc cur hs e | dn cc cur hs children IH]
    using PSTFolder_tree_ind; intros agg Hrun m Hin;
    pose proof (extractFolder_own_records _ _ Hrun) as Hown;
    rewrite Forall_forall in Hown;
    rewrite allMessages_eq in Hin; apply in_app_or in Hin;
    (destruct Hin as [Hin|Hin]; [apply Hown, Hin|]);
    apply in_flat_map in Hin; destruct Hin as [sub [Hsub Hm]];
    destruct (in_subfolders _ _ _ Hrun Hsub)
      as [_ [cs [child [_ [Hcs [Hchild Hext]]]]]];
    simpl in Hcs.
  - discriminate Hcs.
  - injection Hcs as <-. rewrite Forall_forall in IH.
    apply (IH child Hchild sub Hext m Hm).
Qed.

(** ** Attachments: fallback and drop *)

Lemma smallEnough_iff attachment :
  smallEnough attachment = true <->
  (PSTAttachment.size attachment <> 0 /\
   PSTAttachment.size attachment < 1048576)%Z.
Proof.
  unfold smallEnough. rewrite andb_true_iff, negb_true_iff.
  rewrite Z.eqb_neq, Z.ltb_lt. reflexivity.
Qed.

(** C7.  When the chunked drain of an attachment throws, the single-byte
    loop reads from the stream exactly when the declared size is known
    (not zero) and below 1 MiB.  When the chunked drain yields nothing, or
    throws and the single-byte loop is not tried, throws or yields nothing,
    the list of attachments is left as it was.  No turn of the attachment
    loop throws, and the message whose attachments were drained is stored
    with the attachments that were kept.  Every attachment of every record
    of every aggregate the walker returns has at least one byte of data
    and a content type, which is the attachment's MIME tag or else
    [application/octet-stream]. *)
Theorem attachment_fallback_and_drop :
  (forall attachment stream attachments e,
      primaryDrain (Stream.chunked stream) = Throw e ->
      exists calls attachments',
        drainStream attachment stream attachments = (Ok calls, attachments') /\
        (0 < calls <->
         (PSTAttachment.size attachment <> 0 /\
          PSTAttachment.size attachment < 1048576)%Z)) /\
  (forall attachment stream attachments,
      (primaryDrain (Stream.chunked stream) = Ok [] \/
       (exists e, primaryDrain (Stream.chunked stream) = Throw e) /\
       (smallEnough attachment = false \/
        (exists e, fst (fallbackLoop (Stream.single stream) [] 0) = Throw e) \/
        fst (fallbackLoop (Stream.single stream) [] 0) = Ok [])) ->
      snd (drainStream attachment stream attachments) = attachments) /\
  (forall slot attachments, fst (extractAttachment slot attachments) = Ok tt) /\
  (forall item slots fd,
      isNote (classOf item) = true ->
      PSTMessage.attachmentTable item = Ok slots ->
      processItem item fd
      = (Ok tt,
         pushMessage (messageRecord item (snd (extractAttachments slots []))) fd)) /\
  (forall folder agg m a,
      extractFolder folder = Ok agg ->
      In m (allMessages agg) -> In a (MessageData.attachments m) ->
      soundAttachment a).
Proof.
  split; [|split; [|split; [|split]]].
  - intros attachment stream attachments e Hprimary.
    unfold drainStream. rewrite Hprimary.
    destruct (smallEnough attachment) eqn:Hsmall.
    + pose proof (fallbackLoop_calls (Stream.single stream) [] 0) as Hcalls.
      apply smallEnough_iff in Hsmall.
      destruct (fallbackLoop (Stream.single stream) [] 0)
        as [[rawData|e'] calls]; simpl in Hcalls.
      * destruct (negb (isEmpty rawData)); eexists; eexists;
          (split; [reflexivity | tauto]).
      * eexists; eexists. split; [reflexivity | tauto].
    + exists 0, attachments. split; [reflexivity|].
      rewrite <- smallEnough_iff, Hsmall. split; [lia | discriminate].
  - intros attachment stream attachments H. unfold drainStream.
    destruct H as [Hp | [[e Hp] H]]; rewrite Hp; [reflexivity|].
    destruct (smallEnough attachment); [|reflexivity].
    destruct H as [H | [[e' H] | H]]; [discriminate | |];
      destruct (fallbackLoop (Stream.single stream) [] 0) as [r calls];
      simpl in H; subst r; reflexivity.
  - intros slot attachments.
    destruct (extractAttachment_nothrow slot attachments) as [[] H]. exact H.
  - apply processItem_note.
  - intros folder agg m a Hrun Hm Ha.
    pose proof (extractFolder_records folder agg Hrun m Hm) as Hrec.
    apply walkerRecord_attachments in Hrec.
    rewrite Forall_forall in Hrec. apply Hrec, Ha.
Qed.

Lemma attachment_fallback_and_drop_witness :
  exists calls attachments',
    drainStream Sample.flaky Sample.flakyStream [] = (Ok calls, attachments') /\
    (0 < calls <->
     (PSTAttachment.size Sample.flaky <> 0 /\
      PSTAttachment.size Sample.flaky < 1048576)%Z).
Proof.
  destruct attachment_fallback_and_drop as [Hfallback _].
  apply (Hfallback Sample.flaky Sample.flakyStream [] "read error").
  reflexivity.
Defined.

(** ** Subjects *)

Lemma forallb_chars p s :
  JsString.forallb p s = true ->
  forall c, In c (JsString.chars s) -> p c = true.
Proof.
  unfold JsString.chars. induction s as [|a r IH]; simpl; [tauto|].
  intros H c [Hc|Hc]; apply andb_true_iff in H; destruct H as [Ha Hr].
  - subst. exact Ha.
  - apply IH; assumption.
Qed.

Lemma forallb_append p s t :
  JsString.forallb p (s ++ t)
  = JsString.forallb p s && JsString.forallb p t.
Proof.
  induction s as [|a r IH]; simpl; [reflexivity|].
  rewrite IH, andb_assoc. reflexivity.
Qed.

Lemma digit_isoChar n : isoChar (JsDate.digit n) = true.
Proof.
  unfold JsDate.digit.
  assert (H : (0 <= n mod 10 < 10)%Z) by (apply Z.mod_pos_bound; lia).
  assert (Hk : exists k, Z.to_nat (n mod 10) = k /\ k < 10).
  { exists (Z.to_nat (n mod 10)). split; [reflexivity | lia]. }
  destruct Hk as [k [-> Hk]].
  do 10 (destruct k as [|k]; [reflexivity|]). lia.
Qed.

Lemma zeroPad_isoChars w n : JsString.forallb isoChar (JsDate.zeroPad w n) = true.
Proof.
  revert n. induction w as [|w IH]; intros n; cbn [JsDate.zeroPad];
    [reflexivity|].
  rewrite forallb_append, IH. cbn [JsString.forallb andb].
  rewrite digit_isoChar. reflexivity.
Qed.

Lemma padded_isoChars w n : JsString.forallb isoChar (JsDate.padded w n) = true.
Proof. apply zeroPad_isoChars. Qed.

Lemma toISOString_isoChars d :
  JsString.forallb isoChar (JsDate.toISOString d) = true.
Proof.
  unfold JsDate.toISOString. cbv zeta.
  repeat rewrite forallb_append. repeat rewrite padded_isoChars.
  destruct ((0 <=? JsDate.YearFromTime d)%Z
            && (JsDate.YearFromTime d <=? 9999)%Z).
  - rewrite padded_isoChars. reflexivity.
  - rewrite forallb_append, padded_isoChars.
    destruct (0 <=? JsDate.YearFromTime d)%Z; reflexivity.
Qed.

Lemma isoChar_hyphenated c :
  isoChar c = true ->
  invalidChar (if isColonOrDot c then "-"%char else c) = false.
Proof.
  unfold isoChar. destruct (in_dec ascii_dec c isoChars) as [Hin|]; [|discriminate].
  intros _. unfold isoChars in Hin. simpl in Hin.
  repeat (destruct Hin as [<-|Hin]; [reflexivity|]). contradiction.
Qed.

Lemma formatDate_valid date c :
  In c (JsString.chars (formatDate date)) -> invalidChar c = false.
Proof.
  destruct date as [d|]; simpl; [|contradiction].
  rewrite JsStringFacts.chars_map. intros H. apply in_map_iff in H.
  destruct H as [c0 [<- Hc0]]. apply isoChar_hyphenated.
  apply (forallb_chars isoChar (JsDate.toISOString d)
                       (toISOString_isoChars d) c0 Hc0).
Qed.

Lemma emlFilename_clean m :
  (forall c, In c (JsString.chars (MessageData.subject m)) -> invalidChar c = false) ->
  emlFilename m
  = JsString.take 180
      (formatDate (MessageData.sentDate m) ++ "_" ++
       MessageData.subject m ++ ".eml").
Proof.
  intros Hsubject. unfold emlFilename. apply sanitize_clean.
  intros c. rewrite !JsStringFacts.chars_app, !in_app_iff.
  intros [H|[H|[H|H]]].
  - apply (formatDate_valid _ _ H).
  - simpl in H. destruct H as [<-|[]]. reflexivity.
  - apply Hsubject, H.
  - simpl in H. repeat (destruct H as [<-|H]; [reflexivity|]). contradiction.
Qed.

Lemma subject_header_present env m :
  In ("Subject: " ++ MessageData.subject m) (emlHeaderLines env m).
Proof.
  unfold emlHeaderLines. apply filter_In. split.
  - unfold emlHeaderCandidates. right. right. left. reflexivity.
  - reflexivity.
Qed.

Lemma walkerRecord_subject m :
  walkerRecord m ->
  exists original,
    MessageData.subject m
    = sanitizeFilename (JsString.or_else original "(No Subject)").
Proof.
  intros [item [slots [_ ->]]]. exists (PSTMessage.subject item). reflexivity.
Qed.

(** C10.  The walker stores as the subject of a message record the
    sanitized form of the item's subject, or of [(No Subject)] when the
    item has none, and keeps no other copy of the subject: two items that
    differ only in characters the sanitizer replaces give the same record.
    For every record of every aggregate the walker returns, at any depth,
    the subject is not empty, contains none of the nine characters of the
    sanitizer's class and is at most 180 characters long; it is the text
    of the [Subject] header line of the serialized message; sanitizing it
    again for the attachments directory changes nothing; and the name of
    the message file is built from it without further replacement, being
    the first 180 characters of date, underscore, subject and extension,
    hence the whole of it when it fits into 180 characters. *)
Theorem walker_subject_sanitized :
  (forall item attachments,
      MessageData.subject (messageRecord item attachments)
      = sanitizeFilename
          (JsString.or_else (PSTMessage.subject item) "(No Subject)")) /\
  (forall folder agg m,
      extractFolder folder = Ok agg -> In m (allMessages agg) ->
      MessageData.subject m <> "" /\
      (forall c, In c forbidden ->
                 ~ In c (JsString.chars (MessageData.subject m))) /\
      length (MessageData.subject m) <= 180 /\
      (forall env,
          In ("Subject: " ++ MessageData.subject m) (emlHeaderLines env m)) /\
      attachmentsDirname m = MessageData.subject m /\
      emlFilename m
      = JsString.take 180
          (formatDate (MessageData.sentDate m) ++ "_" ++
           MessageData.subject m ++ ".eml") /\
      (length (formatDate (MessageData.sentDate m)) +
       length (MessageData.subject m) + 5 <= 180 ->
       emlFilename m
       = formatDate (MessageData.sentDate m) ++ "_" ++
         MessageData.subject m ++ ".eml")) /\
  (PSTMessage.subject Sample.colon <> PSTMessage.subject Sample.underscore /\
   forall attachments,
     messageRecord Sample.colon attachments
     = messageRecord Sample.underscore attachments).
Proof.
  split; [|split].
  - reflexivity.
  - intros folder agg m Hrun Hm.
    destruct (walkerRecord_subject m (extractFolder_records _ _ Hrun m Hm))
      as [original Hsubject].
    assert (Hvalid : forall c, In c (JsString.chars (MessageData.subject m)) ->
                               invalidChar c = false).
    { rewrite Hsubject. intros c. apply sanitize_chars_valid. }
    split; [|split; [|split; [|split; [|split; [|split]]]]].
    + rewrite Hsubject. apply sanitize_nonempty.
      apply or_else_default_nonempty. discriminate.
    + apply valid_not_forbidden, Hvalid.
    + rewrite Hsubject. apply sanitize_length.
    + intros env. apply subject_header_present.
    + unfold attachmentsDirname. rewrite Hsubject. apply sanitize_idem.
    + apply emlFilename_clean, Hvalid.
    + intros Hfits. rewrite (emlFilename_clean m Hvalid).
      apply JsStringFacts.take_all.
      rewrite !JsStringFacts.length_app. simpl. lia.
  - split; [discriminate | reflexivity].
Qed.

Lemma walker_subject_sanitized_witness :
  MessageData.subject Sample.helloRecord <> "" /\
  emlFilename Sample.helloRecord = "2001-09-09T01-46-40-000Z_Hello.eml".
Proof.
  destruct walker_subject_sanitized as [_ [Hdeep _]].
  destruct (Hdeep Sample.root Sample.rootAggregate Sample.helloRecord
                  eq_refl (or_introl eq_refl))
    as [Hnonempty [_ [_ [_ [_ [_ Hname]]]]]].
  split; [exact Hnonempty|]. apply Hname. vm_compute. lia.
Defined.

(** ** Message serializer: the header block *)

Lemma filter_truthy_In l x : In x (filter JsString.truthy l) -> x <> "".
Proof.
  intros H. apply filter_In in H. destruct H as [_ H].
  apply JsStringFacts.truthy_true_iff, H.
Qed.

Lemma bodyContentType_truthy body : JsString.truthy (bodyContentType body) = true.
Proof.
  unfold bodyContentType.
  destruct (JsString.includes "<html" body || JsString.includes "<body" body);
    reflexivity.
Qed.

(** C4, as amended.  The header block of a serialized message always holds,
    in this order, the [From], [To], [Subject], [Date], [MIME-Version],
    [Content-Type] and [X-Mailer] lines, whether or not the sender, the
    recipients or the subject are empty; the raw transport headers follow
    when the record has some and are left out when it has none.  No element
    of the header block is the empty string. *)
Theorem eml_header_block (env : Ambient) (m : MessageData.t) :
  emlHeaderLines env m
  = List.app
      [ "From: " ++ MessageData.sender m;
       "To: " ++ JsString.join ", " (MessageData.recipients m);
       "Subject: " ++ MessageData.subject m;
       "Date: " ++ JsDate.toUTCString (headerDate env m);
       "MIME-Version: 1.0";
       match MessageData.attachments m with
       | _ :: _ =>
           "Content-Type: multipart/mixed; boundary=" ++ quoted (boundaryOf env)
       | [] => bodyContentType (MessageData.body m)
       end;
       "X-Mailer: pst-extractor" ]
      (if JsString.truthy (MessageData.headers m)
       then [MessageData.headers m] else []) /\
  ~ In "" (emlHeaderLines env m).
Proof.
  split.
  - unfold emlHeaderLines, emlHeaderCandidates, JsString.or_else.
    destruct (MessageData.attachments m);
      cbn [filter append JsString.truthy app];
      rewrite ?bodyContentType_truthy;
      destruct (MessageData.headers m); reflexivity.
  - intros H. apply filter_truthy_In in H. congruence.
Qed.

(** C4, as stated, fails: the record without sender, recipients and subject
    is serialized with a [From], a [To] and a [Subject] line of empty
    value. *)
Lemma eml_empty_headers_emitted :
  MessageData.sender Sample.blank = "" /\
  In "From: " (emlHeaderLines Sample.env0 Sample.blank) /\
  createEMLContent Sample.env0 Sample.blank
  = "From: " ++ JsString.CRLF ++ "To: " ++ JsString.CRLF ++
    "Subject: " ++ JsString.CRLF ++
    "Date: Thu, 01 Jan 1970 00:00:00 GMT" ++ JsString.CRLF ++
    "MIME-Version: 1.0" ++ JsString.CRLF ++
    "Content-Type: text/plain; charset=utf-8" ++ JsString.CRLF ++
    "X-Mailer: pst-extractor" ++ JsString.CRLF ++ JsString.CRLF ++ "Hi" /\
  ~ omitsEmptyHeaders Sample.env0 Sample.blank.
Proof.
  assert (Hfrom : In "From: " (emlHeaderLines Sample.env0 Sample.blank)).
  { vm_compute. left. reflexivity. }
  split; [reflexivity|]. split; [exact Hfrom|]. split; [reflexivity|].
  intros [Hclaim _]. apply (Hclaim eq_refl), Hfrom.
Qed.

(** ** Serializers: what the output depends on *)

Lemma headerDate_dated env1 env2 m :
  dated m \/ now env1 = now env2 -> headerDate env1 m = headerDate env2 m.
Proof.
  unfold dated, headerDate.
  destruct (MessageData.sentDate m); [reflexivity|].
  destruct (MessageData.receivedDate m); [reflexivity|].
  intros [[H|H]|H]; congruence.
Qed.

Lemma createEMLContent_depends env1 env2 m :
  MessageData.attachments m = [] \/ rnd env1 = rnd env2 ->
  dated m \/ now env1 = now env2 ->
  createEMLContent env1 m = createEMLContent env2 m.
Proof.
  intros Hrnd Hdate.
  pose proof (headerDate_dated env1 env2 m Hdate) as Hd.
  unfold createEMLContent, emlHeaderLines, emlHeaderCandidates, boundaryOf.
  rewrite Hd.
  destruct (MessageData.attachments m) as [|a atts]; [reflexivity|].
  destruct Hrnd as [Hrnd|Hrnd]; [discriminate|]. rewrite Hrnd. reflexivity.
Qed.

Lemma alike_bind {S A B : Type} (m1 m2 : Eff S A) (k1 k2 : A -> Eff S B) :
  alike m1 m2 -> (forall a, alike (k1 a) (k2 a)) ->
  alike (bind m1 k1) (bind m2 k2).
Proof.
  intros Hm Hk s. unfold bind. rewrite Hm.
  destruct (m2 s) as [[a|e] s']; [apply Hk | reflexivity].
Qed.

Lemma alike_try_catch {S A : Type} (b1 b2 : Eff S A) (h : string -> Eff S A) :
  alike b1 b2 -> alike (try_catch b1 h) (try_catch b2 h).
Proof. intros Hb s. unfold try_catch. rewrite Hb. reflexivity. Qed.

Lemma alike_forEach {S A : Type} (f g : A -> Eff S unit) xs :
  (forall x, In x xs -> alike (f x) (g x)) ->
  alike (forEach f xs) (forEach g xs).
Proof.
  induction xs as [|x rest IH]; intros H; cbn [forEach].
  - intros s. reflexivity.
  - apply alike_bind.
    + apply H. left. reflexivity.
    + intros _. apply IH. intros y Hy. apply H. right. exact Hy.
Qed.

Lemma alike_refl {S A : Type} (m : Eff S A) : alike m m.
Proof. intros s. reflexivity. Qed.

Lemma exportToFiles_eq faults ambientAt data basePath :
  exportToFiles faults ambientAt data basePath
  = let folderPath := pathJoin basePath [sanitizeFilename (name data)] in
    try_catch
      (mkdir faults folderPath ;;
       exportMessages faults ambientAt folderPath data ;;
       exportContacts faults folderPath data ;;
       exportAppointments faults folderPath data ;;
       forEach (fun subfolder =>
                  exportToFiles faults ambientAt subfolder folderPath)
               (subfolders data))%eff
      (fun error => throw error).
Proof. destruct data; reflexivity. Qed.

Section ExportTwice.

Variable faults : Faults.
Variables amb1 amb2 : nat -> Ambient.

Lemma exportMessage_alike emailsPath m :
  (forall n, createEMLContent (amb1 n) m = createEMLContent (amb2 n) m) ->
  alike (exportMessage faults amb1 emailsPath m)
        (exportMessage faults amb2 emailsPath m).
Proof.
  intros H. unfold exportMessage. apply alike_try_catch.
  apply alike_bind; [|intros; apply alike_refl].
  intros d. unfold serializeMessage. rewrite H. reflexivity.
Qed.

Lemma exportMessages_alike folderPath data :
  (forall n m, In m (messages data) ->
               createEMLContent (amb1 n) m = createEMLContent (amb2 n) m) ->
  alike (exportMessages faults amb1 folderPath data)
        (exportMessages faults amb2 folderPath data).
Proof.
  intros H. unfold exportMessages.
  destruct (negb (isEmpty (messages data))); [|apply alike_refl].
  apply alike_bind; [apply alike_refl|]. intros _.
  apply alike_forEach. intros m Hm. apply exportMessage_alike.
  intros n. apply H, Hm.
Qed.

Lemma exportToFiles_alike data :
  (forall n m, In m (allMessages data) ->
               createEMLContent (amb1 n) m = createEMLContent (amb2 n) m) ->
  forall basePath,
    alike (exportToFiles faults amb1 data basePath)
          (exportToFiles faults amb2 data basePath).
Proof.
  induction data as [n ms cs aps subs IH] using FolderData_tree_ind.
  intros H basePath. rewrite !exportToFiles_eq. cbv zeta.
  rewrite allMessages_eq in H. cbn [messages subfolders name] in *.
  apply alike_try_catch.
  apply alike_bind; [apply alike_refl|]. intros _.
  apply alike_bind.
  { apply exportMessages_alike. cbn [messages]. intros k m Hm.
    apply H, in_or_app. left. exact Hm. }
  intros _. apply alike_bind; [apply alike_refl|]. intros _.
  apply alike_bind; [apply alike_refl|]. intros _.
  apply alike_forEach. intros sub Hsub.
  rewrite Forall_forall in IH. apply (IH sub Hsub).
  intros k m Hm. apply H, in_or_app. right.
  apply in_flat_map. exists sub. split; assumption.
Qed.

End ExportTwice.

(** C5, as amended.  The text of a serialized message is a function of the
    record, of the boundary token drawn and of the time of the run: it does
    not depend on the token when the record has no attachment, and does not
    depend on the time when the record has a sent or a received date.  The
    contact and the appointment serializers are functions of the record
    alone.  Two exports of the same aggregate under the same file system
    faults that draw the same tokens leave the same directories and files
    when every message of the tree has a sent or a received date. *)
Theorem serializers_determinism :
  (forall env1 env2 m,
      MessageData.attachments m = [] \/ rnd env1 = rnd env2 ->
      dated m \/ now env1 = now env2 ->
      createEMLContent env1 m = createEMLContent env2 m) /\
  (forall c1 c2, c1 = c2 -> createVCardContent c1 = createVCardContent c2) /\
  (forall a1 a2, a1 = a2 -> createICalContent a1 = createICalContent a2) /\
  (forall faults amb1 amb2 data basePath disk,
      (forall n, rnd (amb1 n) = rnd (amb2 n)) ->
      (forall m, In m (allMessages data) -> dated m) ->
      exportToFiles faults amb1 data basePath disk
      = exportToFiles faults amb2 data basePath disk).
Proof.
  split; [|split; [|split]].
  - apply createEMLContent_depends.
  - intros c1 c2 ->. reflexivity.
  - intros a1 a2 ->. reflexivity.
  - intros faults amb1 amb2 data basePath disk Hrnd Hdated.
    apply exportToFiles_alike. intros n m Hm.
    apply createEMLContent_depends.
    + right. apply Hrnd.
    + left. apply Hdated, Hm.
Qed.

Lemma serializers_determinism_witness :
  createEMLContent Sample.env0 Sample.helloRecord
  = createEMLContent Sample.env1 Sample.helloRecord.
Proof.
  destruct serializers_determinism as [Heml _].
  apply (Heml Sample.env0 Sample.env1 Sample.helloRecord).
  - left. reflexivity.
  - left. left. discriminate.
Defined.

(** C5, as stated, fails: two runs on the record without dates that draw
    the same boundary token differ in their [Date] line, which carries the
    time of the run. *)
Lemma eml_text_depends_on_clock :
  rnd Sample.env0 = rnd Sample.env1 /\
  createEMLContent Sample.env0 Sample.blank
  <> createEMLContent Sample.env1 Sample.blank /\
  ~ sameTextUpToBoundary Sample.blank.
Proof.
  assert (Hdiff : createEMLContent Sample.env0 Sample.blank
                  <> createEMLContent Sample.env1 Sample.blank).
  { intros H. vm_compute in H. discriminate H. }
  split; [reflexivity|]. split; [exact Hdiff|].
  intros Hclaim. apply Hdiff, Hclaim. reflexivity.
Qed.

(** ** Exporter: which write failures are absorbed *)

Lemma exportMessage_nothrow faults ambientAt emailsPath m :
  NoThrow (exportMessage faults ambientAt emailsPath m).
Proof. unfold exportMessage. auto with eff. Qed.

Lemma exportAttachment_nothrow faults attachmentsPath a :
  NoThrow (exportAttachment faults attachmentsPath a).
Proof. unfold exportAttachment. auto with eff. Qed.

Lemma throws_bind_l {S A B : Type} (m : Eff S A) (k : A -> Eff S B) :
  Throws m -> Throws (bind m k).
Proof.
  intros Hm s. unfold bind. destruct (Hm s) as [e He].
  destruct (m s) as [[a|e'] s']; simpl in *; [discriminate|].
  exists e'. reflexivity.
Qed.

Lemma throws_bind_r {S A B : Type} (m : Eff S A) (k : A -> Eff S B) :
  (forall a, Throws (k a)) -> Throws (bind m k).
Proof.
  intros Hk s. unfold bind.
  destruct (m s) as [[a|e] s']; [apply Hk|].
  exists e. reflexivity.
Qed.

Lemma throws_rethrow {S A : Type} (body : Eff S A) :
  Throws body -> Throws (try_catch body (fun error => throw error)).
Proof.
  intros Hb s. unfold try_catch, throw. destruct (Hb s) as [e He].
  destruct (body s) as [[a|e'] s']; simpl in *; [discriminate|].
  exists e'. reflexivity.
Qed.

(** A loop without a [try] of its own throws as soon as one of its turns
    does. *)
Lemma throws_forEach {S A : Type} (body : A -> Eff S unit) xs x :
  In x xs -> Throws (body x) -> Throws (forEach body xs).
Proof.
  intros Hin Hx. induction xs as [|y rest IH]; [contradiction|].
  cbn [forEach]. destruct Hin as [->|Hin].
  - apply throws_bind_l, Hx.
  - apply throws_bind_r. intros _. apply IH, Hin.
Qed.

Lemma writeFile_refused faults p content :
  writeFails faults p = true -> Throws (writeFile faults p content).
Proof.
  intros H d. unfold writeFile. rewrite H. eexists. reflexivity.
Qed.

(** Any contact whose card cannot be written makes the export of its folder
    throw, whatever else succeeds or fails. *)
Lemma contact_write_failure_propagates faults ambientAt data basePath contact :
  In contact (contacts data) ->
  writeFails faults
    (pathJoin
       (pathJoin (pathJoin basePath [sanitizeFilename (name data)]) ["Contacts"])
       [vcfFilename contact]) = true ->
  Throws (exportToFiles faults ambientAt data basePath).
Proof.
  intros Hin Hfails. rewrite exportToFiles_eq. cbv zeta.
  apply throws_rethrow.
  apply throws_bind_r; intros _. apply throws_bind_r; intros _.
  apply throws_bind_l. unfold exportContacts.
  destruct (contacts data) as [|c cs] eqn:Hcs; [contradiction|].
  cbn [isEmpty negb]. apply throws_bind_r; intros _.
  apply (throws_forEach _ _ contact Hin).
  unfold exportContact. apply writeFile_refused, Hfails.
Qed.

(** The same for an appointment whose entry cannot be written. *)
Lemma appointment_write_failure_propagates faults ambientAt data basePath
  appointment :
  In appointment (appointments data) ->
  writeFails faults
    (pathJoin
       (pathJoin (pathJoin basePath [sanitizeFilename (name data)]) ["Calendar"])
       [icsFilename appointment]) = true ->
  Throws (exportToFiles faults ambientAt data basePath).
Proof.
  intros Hin Hfails. rewrite exportToFiles_eq. cbv zeta.
  apply throws_rethrow.
  apply throws_bind_r; intros _. apply throws_bind_r; intros _.
  apply throws_bind_r; intros _.
  apply throws_bind_l. unfold exportAppointments.
  destruct (appointments data) as [|a aps] eqn:Haps; [contradiction|].
  cbn [isEmpty negb]. apply throws_bind_r; intros _.
  apply (throws_forEach _ _ appointment Hin).
  unfold exportAppointment. apply writeFile_refused, Hfails.
Qed.

(** The message loop, for its part, absorbs every failure of its turns: once
    the directory of the messages exists it returns, whichever writes
    fail. *)
Lemma message_write_failures_absorbed faults ambientAt folderPath data :
  mkdirFails faults (pathJoin folderPath ["Emails"]) = false ->
  NoThrow (exportMessages faults ambientAt folderPath data).
Proof.
  intros Hmkdir. unfold exportMessages.
  destruct (negb (isEmpty (messages data))); [|apply nothrow_ret].
  apply nothrow_bind.
  - intros d. unfold mkdir. rewrite Hmkdir. exists tt. reflexivity.
  - intros _. apply nothrow_forEach. intros m _. apply exportMessage_nothrow.
Qed.

(** C3, on the code.  With two contacts in a folder and a file system that
    refuses the card of the first, the export throws: the card of the
    second contact is not written and the subfolder is not exported.  With
    two messages and a file system that refuses the file of the first, the
    export returns: the second message is written and the subfolder is
    exported. *)
Theorem contact_write_failure_aborts_export :
  exportToFiles Sample.janeUnwritable Sample.ambient Sample.twoContacts ["out"]
                emptyDisk
  = (Throw "writeFile failed",
     mkDisk [["out"; "People"]; ["out"; "People"; "Contacts"]] [] 0) /\
  exportToFiles Sample.helloUnwritable Sample.ambient Sample.twoMessages ["out"]
                emptyDisk
  = (Ok tt,
     mkDisk [["out"; "People"]; ["out"; "People"; "Emails"];
             ["out"; "People"; "People"];
             ["out"; "People"; "People"; "Contacts"]]
            [(["out"; "People"; "Emails"; "2001-09-09T01-46-40-000Z_Bye.eml"],
              Text (createEMLContent (Sample.ambient 1) Sample.byeRecord));
             (["out"; "People"; "People"; "Contacts"; "Jane Doe.vcf"],
              Text (createVCardContent Sample.janeRecord))]
            2).
Proof.
  split; vm_compute; reflexivity.
Qed.

(** * Further properties of the code *)

(** ** Sanitizer and file names *)

Lemma append_assoc_s (s t u : string) : (s ++ t) ++ u = s ++ (t ++ u).
Proof. induction s as [|a r IH]; simpl; congruence. Qed.

Lemma map_append f (s t : string) :
  JsString.map f (s ++ t) = JsString.map f s ++ JsString.map f t.
Proof. induction s as [|a r IH]; simpl; congruence. Qed.

Lemma take_append_le n (s t : string) :
  n <= length s -> JsString.take n (s ++ t) = JsString.take n s.
Proof.
  revert s; induction n as [|n IH]; intros [|c r]; simpl; intros H;
    try reflexivity; try lia.
  f_equal. apply IH. lia.
Qed.

Lemma take_append_ge n (s t : string) :
  length s + length t <= n -> JsString.take n (s ++ t) = s ++ t.
Proof.
  intros H. apply JsStringFacts.take_all.
  rewrite JsStringFacts.length_app. exact H.
Qed.

Lemma safeSegment_sanitize s : safeSegment (sanitizeFilename s).
Proof.
  split; [apply sanitize_length | intros c; apply sanitize_chars_valid].
Qed.

Lemma sanitize_cut s t :
  180 <= length s -> sanitizeFilename (s ++ t) = sanitizeFilename s.
Proof.
  intros Hlen. unfold sanitizeFilename. rewrite map_append.
  apply take_append_le. rewrite JsStringFacts.length_map. exact Hlen.
Qed.

(** X1.  Sanitizing twice is sanitizing once, a name that is already safe
    (at most 180 characters, none of the nine characters) is returned as it
    is, the output is always such a name, and whatever follows the first
    180 characters of a name has no effect on the output. *)
Theorem sanitizeFilename_idempotent (s : string) :
  sanitizeFilename (sanitizeFilename s) = sanitizeFilename s /\
  (safeSegment s -> sanitizeFilename s = s) /\
  safeSegment (sanitizeFilename s) /\
  (forall t, 180 <= length s ->
             sanitizeFilename (s ++ t) = sanitizeFilename s).
Proof.
  split; [apply sanitize_idem|]. split; [|split].
  - intros [Hlen Hchars]. rewrite (sanitize_clean s Hchars).
    apply JsStringFacts.take_all, Hlen.
  - apply safeSegment_sanitize.
  - intros t. apply sanitize_cut.
Qed.

Lemma sanitizeFilename_idempotent_witness :
  sanitizeFilename "Inbox" = "Inbox".
Proof.
  destruct (sanitizeFilename_idempotent "Inbox") as [_ [Hsafe _]].
  apply Hsafe. split.
  - simpl. lia.
  - intros c Hc. simpl in Hc.
    repeat (destruct Hc as [<-|Hc]; [reflexivity|]). contradiction.
Defined.

Lemma formatDate_no_colon date c :
  In c (JsString.chars (formatDate date)) -> isColonOrDot c = false.
Proof.
  destruct date as [d|]; simpl; [|contradiction].
  rewrite JsStringFacts.chars_map. intros H. apply in_map_iff in H.
  destruct H as [c0 [<- _]].
  destruct (isColonOrDot c0) eqn:E; [reflexivity | exact E].
Qed.

(** X2.  [formatDate] of an absent date is the empty string; of a present
    date it has the length of the ISO form and contains no colon, no period
    and none of the characters the sanitizer replaces, so that sanitizing a
    time stamp only ever cuts it. *)
Theorem formatDate_filename_safe (date : option Date) :
  formatDate None = "" /\
  (forall d, length (formatDate (Some d)) = length (JsDate.toISOString d)) /\
  (forall c, In c (JsString.chars (formatDate date)) ->
             c <> ":"%char /\ c <> "."%char /\ ~ In c forbidden) /\
  sanitizeFilename (formatDate date) = JsString.take 180 (formatDate date).
Proof.
  split; [reflexivity|]. split; [|split].
  - intros d. apply JsStringFacts.length_map.
  - intros c Hc. pose proof (formatDate_no_colon date c Hc) as Hcd.
    pose proof (formatDate_valid date c Hc) as Hv.
    split; [|split].
    + intros ->. discriminate Hcd.
    + intros ->. discriminate Hcd.
    + intros Hin. apply invalidChar_forbidden in Hin. congruence.
  - apply sanitize_clean. intros c. apply formatDate_valid.
Qed.

Lemma formatDate_filename_safe_witness :
  ~ In ":"%char (JsString.chars (formatDate (Some 1000000000000%Z))).
Proof.
  destruct (formatDate_filename_safe (Some 1000000000000%Z))
    as [_ [_ [Hchars _]]].
  intros Hin. destruct (Hchars ":"%char Hin) as [Hcolon _].
  apply Hcolon. reflexivity.
Defined.

(** X3.  The name of a message file keeps its [.eml] extension when time
    stamp, underscore and subject take at most 176 characters, and has no
    extension at all when they take 180 characters or more: the cut to 180
    characters comes after the extension is appended. *)
Theorem emlFilename_extension (m : MessageData.t) :
  (length (formatDate (MessageData.sentDate m) ++ "_" ++ MessageData.subject m)
   + 4 <= 180 ->
   emlFilename m
   = sanitizeFilename
       (formatDate (MessageData.sentDate m) ++ "_" ++ MessageData.subject m)
     ++ ".eml") /\
  (180 <= length (formatDate (MessageData.sentDate m) ++ "_" ++
                  MessageData.subject m) ->
   emlFilename m
   = sanitizeFilename
       (formatDate (MessageData.sentDate m) ++ "_" ++ MessageData.subject m)).
Proof.
  assert (Hshape : formatDate (MessageData.sentDate m) ++ "_" ++
                   MessageData.subject m ++ ".eml"
                   = (formatDate (MessageData.sentDate m) ++ "_" ++
                      MessageData.subject m) ++ ".eml").
  { rewrite !append_assoc_s. reflexivity. }
  unfold emlFilename. rewrite Hshape.
  set (stem := formatDate (MessageData.sentDate m) ++ "_" ++
               MessageData.subject m).
  split; intros Hlen.
  - unfold sanitizeFilename. rewrite map_append.
    rewrite take_append_ge
      by (rewrite JsStringFacts.length_map; simpl; lia).
    rewrite JsStringFacts.take_all
      by (rewrite JsStringFacts.length_map; lia).
    reflexivity.
  - apply sanitize_cut, Hlen.
Qed.

Lemma emlFilename_extension_witness :
  emlFilename Sample.helloRecord
  = sanitizeFilename "2001-09-09T01-46-40-000Z_Hello" ++ ".eml".
Proof.
  destruct (emlFilename_extension Sample.helloRecord) as [Hkeeps _].
  apply Hkeeps. vm_compute. lia.
Defined.

(** ** Wrapping of the encoded attachments *)

Lemma take_drop n (s : string) : JsString.take n s ++ JsString.drop n s = s.
Proof.
  revert s; induction n as [|n IH]; intros [|c r]; simpl; try reflexivity.
  f_equal. apply IH.
Qed.

Lemma length_drop n (s : string) : length (JsString.drop n s) = length s - n.
Proof.
  revert s; induction n as [|n IH]; intros [|c r]; simpl; auto.
Qed.

Lemma drop_nonempty_length n (s : string) :
  JsString.drop n s <> "" -> n < length s.
Proof.
  intros H. pose proof (length_drop n s) as Hlen.
  destruct (JsString.drop n s) eqn:E; [congruence|]. simpl in Hlen. lia.
Qed.

Lemma pieces_nil_iff fuel n s :
  length s <= fuel -> (pieces fuel n s = [] <-> s = "").
Proof.
  destruct fuel as [|f]; destruct s as [|c r]; simpl; intros H; split;
    intros E; try reflexivity; try discriminate; lia.
Qed.

Lemma pieces_spec fuel (s : string) :
  length s <= fuel ->
  fold_right append "" (pieces fuel 76 s) = s /\
  Forall (fun line => 1 <= length line <= 76) (pieces fuel 76 s) /\
  Forall (fun line => length line = 76) (removelast (pieces fuel 76 s)).
Proof.
  revert s. induction fuel as [|f IH]; intros s Hlen.
  - destruct s; [|simpl in Hlen; lia]. simpl. auto.
  - destruct s as [|c r]; [simpl; auto|].
    cbn [pieces].
    assert (Hrest : length (JsString.drop 76 (String c r)) <= f).
    { rewrite length_drop. simpl in *. lia. }
    destruct (IH _ Hrest) as [Hcat [Hall Hfull]].
    split; [|split].
    + cbn [fold_right]. rewrite Hcat. apply take_drop.
    + constructor; [|exact Hall].
      rewrite JsStringFacts.length_take.
      change (length (String c r)) with (S (length r)). lia.
    + destruct (pieces f 76 (JsString.drop 76 (String c r))) as [|l ls] eqn:E.
      * constructor.
      * change (removelast (JsString.take 76 (String c r) :: l :: ls))
          with (JsString.take 76 (String c r) :: removelast (l :: ls)).
        constructor; [|exact Hfull].
        rewrite JsStringFacts.length_take.
        assert (Hne : JsString.drop 76 (String c r) <> "").
        { intros Hempty. apply (pieces_nil_iff f 76 _ Hrest) in Hempty.
          congruence. }
        apply drop_nonempty_length in Hne. lia.
Qed.

Lemma wrap76_lines s :
  wrap76 s = JsString.join JsString.CRLF (wrappedLines s).
Proof.
  unfold wrap76, wrappedLines, JsString.or_else.
  destruct (JsString.join JsString.CRLF (pieces (length s) 76 s)); reflexivity.
Qed.

(** X4.  The encoded bytes of an attachment are written as the CRLF-joined
    lines into which the encoding is cut: the lines, put end to end, are the
    encoding itself; no line is empty or longer than 76 characters; every
    line but the last has exactly 76 characters; and there is no line at
    all exactly when the encoding is empty. *)
Theorem attachment_lines_wrapped (data : Buffer) :
  wrap76 (Base64.encode data)
  = JsString.join JsString.CRLF (wrappedLines (Base64.encode data)) /\
  fold_right append "" (wrappedLines (Base64.encode data))
  = Base64.encode data /\
  Forall (fun line => 1 <= length line <= 76)
         (wrappedLines (Base64.encode data)) /\
  Forall (fun line => length line = 76)
         (removelast (wrappedLines (Base64.encode data))) /\
  (wrappedLines (Base64.encode data) = [] <-> Base64.encode data = "").
Proof.
  destruct (pieces_spec (length (Base64.encode data)) (Base64.encode data)
                        (le_n _)) as [Hcat [Hall Hfull]].
  split; [apply wrap76_lines|]. split; [exact Hcat|].
  split; [exact Hall|]. split; [exact Hfull|].
  apply pieces_nil_iff, le_n.
Qed.

(** ** The walker: what holds of every aggregate *)

Section EverywhereFacts.

(** A property of the name and of the three lists of records that the empty
    aggregate has and every item step keeps holds everywhere in the
    aggregate the walker returns. *)
Variable Q : FolderData -> Prop.
Hypothesis Q_new : forall folder, Q (newFolderData folder).
Hypothesis Q_item : forall item, Preserves Q (processItem item).
Hypothesis Q_subs :
  forall fd subs,
    Q fd ->
    Q (mkFolderData (name fd) (messages fd) (contacts fd) (appointments fd) subs).

Lemma extractFolder_here folder agg : extractFolder folder = Ok agg -> Q agg.
Proof.
  rewrite extractFolder_run. intros H. injection H as <-.
  assert (Hcontent : Q (snd (extractContent folder (newFolderData folder)))).
  { apply (extractContent_preserves Q Q_item). apply Q_new. }
  rewrite extractSubfolders_run.
  destruct (hasSubfolders folder); [|exact Hcontent].
  destruct (getSubFolders folder); [|exact Hcontent].
  apply Q_subs, Hcontent.
Qed.

Lemma extractFolder_everywhere folder :
  forall agg, extractFolder folder = Ok agg -> Everywhere Q agg.
Proof.
  induction folder as [dn cc cur hs e | dn cc cur hs children IH]
    using PSTFolder_tree_ind; intros agg Hrun;
    (constructor; [apply (extractFolder_here _ _ Hrun)|]);
    apply Forall_forall; intros sub Hin;
    destruct (in_subfolders _ _ _ Hrun Hin)
      as [_ [cs [child [_ [Hcs [Hchild Hsub]]]]]];
    simpl in Hcs.
  - discriminate Hcs.
  - injection Hcs as <-. rewrite Forall_forall in IH.
    apply (IH child Hchild sub Hsub).
Qed.

End EverywhereFacts.

Lemma modify_keeps {S : Type} (I : S -> Prop) (f : S -> S) :
  (forall s, I s -> I (f s)) -> Preserves I (modify f).
Proof. intros H s Hs. apply H, Hs. Qed.

(** An item step keeps what holds of the record it may push and does not
    otherwise depend on the three lists. *)
Lemma processItem_keeps (Q : FolderData -> Prop) item :
  (forall m fd, Q fd -> Q (pushMessage m fd)) ->
  (forall fd, Q fd -> Q (pushContact (contactRecord item) fd)) ->
  (forall fd, Q fd -> Q (pushAppointment (appointmentRecord item) fd)) ->
  Preserves Q (processItem item).
Proof.
  intros Hm Hc Ha. unfold processItem.
  destruct (isNote (classOf item)).
  - apply preserves_bind; [apply preserves_perform|]. intros atts.
    apply preserves_try_catch; [|intros; apply preserves_skip].
    apply modify_keeps. intros fd. apply Hm.
  - destruct (classOf item =? "IPM.Contact")%string;
      [apply modify_keeps, Hc|].
    destruct (classOf item =? "IPM.Appointment")%string;
      [apply modify_keeps, Ha | apply preserves_ret].
Qed.

Lemma extractFolder_name folder agg :
  extractFolder folder = Ok agg ->
  name agg = JsString.or_else (displayName folder) "Unnamed Folder".
Proof.
  rewrite extractFolder_run. intros H. injection H as <-.
  assert (Hcontent :
            name (snd (extractContent folder (newFolderData folder)))
            = JsString.or_else (displayName folder) "Unnamed Folder").
  { apply (extractContent_preserves
             (fun fd => name fd
                        = JsString.or_else (displayName folder) "Unnamed Folder")).
    - intros item. apply processItem_keeps; intros; assumption.
    - reflexivity. }
  rewrite extractSubfolders_run.
  destruct (hasSubfolders folder); [|exact Hcontent].
  destruct (getSubFolders folder); exact Hcontent.
Qed.

(** X5.  The aggregate of a folder carries the display name of the folder,
    or [Unnamed Folder] when the folder has none; no aggregate, at any
    depth, has an empty name, and the directory name the exporter derives
    from it is not empty either. *)
Theorem aggregate_names (folder : PSTFolder) (agg : FolderData) :
  extractFolder folder = Ok agg ->
  (displayName folder <> "" -> name agg = displayName folder) /\
  (displayName folder = "" -> name agg = "Unnamed Folder") /\
  Everywhere (fun fd => name fd <> "" /\ sanitizeFilename (name fd) <> "") agg.
Proof.
  intros Hrun. pose proof (extractFolder_name _ _ Hrun) as Hname.
  split; [|split].
  - intros Hdn. rewrite Hname. unfold JsString.or_else.
    destruct (displayName folder); [congruence | reflexivity].
  - intros Hdn. rewrite Hname, Hdn. reflexivity.
  - assert (Hev : Everywhere (fun fd => name fd <> "") agg).
    { apply (extractFolder_everywhere (fun fd => name fd <> ""))
        with (folder := folder).
      - intros f. apply or_else_default_nonempty. discriminate.
      - intros item. apply processItem_keeps; intros; assumption.
      - intros fd subs H. exact H.
      - exact Hrun. }
    clear -Hev. induction agg as [n ms cs aps subs IH] using FolderData_tree_ind.
    inversion Hev as [fd Hq Hsubs]; subst. constructor.
    + split; [exact Hq | apply sanitize_nonempty, Hq].
    + cbn [subfolders] in *. rewrite Forall_forall in *.
      intros sub Hin. apply (IH sub Hin), (Hsubs sub Hin).
Qed.

Lemma aggregate_names_witness :
  name Sample.rootAggregate = "Unnamed Folder".
Proof.
  destruct (aggregate_names Sample.root Sample.rootAggregate eq_refl)
    as [_ [Hdefault _]].
  apply Hdefault. reflexivity.
Defined.

Lemma bareContact_card c :
  bareContact c ->
  createVCardContent c
  = "BEGIN:VCARD" ++ JsString.CRLF ++ "VERSION:3.0" ++ JsString.CRLF ++
    "FN:" ++ ContactData.fullName c ++ JsString.CRLF ++ "END:VCARD".
Proof. intros ->. reflexivity. Qed.

Lemma bareAppointment_entry a :
  bareAppointment a ->
  createICalContent a
  = "BEGIN:VCALENDAR" ++ JsString.CRLF ++ "VERSION:2.0" ++ JsString.CRLF ++
    "BEGIN:VEVENT" ++ JsString.CRLF ++
    "SUMMARY:" ++ AppointmentData.subject a ++ JsString.CRLF ++
    "LOCATION:" ++ JsString.CRLF ++
    "DESCRIPTION:" ++ AppointmentData.body a ++ JsString.CRLF ++
    "END:VEVENT" ++ JsString.CRLF ++ "END:VCALENDAR".
Proof.
  intros ->. unfold createICalContent, JsString.or_else.
  cbn [AppointmentData.subject AppointmentData.location
       AppointmentData.startTime AppointmentData.endTime AppointmentData.body
       JsString.truthy filter append].
  destruct (AppointmentData.body a); reflexivity.
Qed.

Lemma everywhere_impl (P Q : FolderData -> Prop) fd :
  (forall x, P x -> Q x) -> Everywhere P fd -> Everywhere Q fd.
Proof.
  intros HPQ. induction fd as [n ms cs aps subs IH] using FolderData_tree_ind.
  intros Hev. inversion Hev as [x Hp Hsubs]; subst. constructor.
  - apply HPQ, Hp.
  - cbn [subfolders] in *. rewrite Forall_forall in *.
    intros sub Hin. apply (IH sub Hin), (Hsubs sub Hin).
Qed.

(** X6.  Every contact of every aggregate the walker returns, at any depth,
    has its name as only field, whatever the item held, and its card is the
    four lines [BEGIN:VCARD], [VERSION:3.0], [FN:] with the name, and
    [END:VCARD]: no card the converter writes has an e-mail address, a
    telephone number, an address, an organisation or a title. *)
Theorem walker_contact_cards (folder : PSTFolder) (agg : FolderData) :
  extractFolder folder = Ok agg ->
  Everywhere
    (fun fd =>
       Forall
         (fun c =>
            bareContact c /\
            createVCardContent c
            = "BEGIN:VCARD" ++ JsString.CRLF ++ "VERSION:3.0" ++ JsString.CRLF ++
              "FN:" ++ ContactData.fullName c ++ JsString.CRLF ++ "END:VCARD")
         (contacts fd))
    agg.
Proof.
  intros Hrun.
  apply (everywhere_impl (fun fd => Forall bareContact (contacts fd))).
  - intros fd H. rewrite Forall_forall in *. intros c Hc.
    split; [apply H, Hc | apply bareContact_card, H, Hc].
  - apply (extractFolder_everywhere
             (fun fd => Forall bareContact (contacts fd))) with (folder := folder).
    + intros f. constructor.
    + intros item. apply processItem_keeps.
      * intros m fd H. exact H.
      * intros fd H. cbn [pushContact contacts].
        apply Forall_snoc; [exact H | reflexivity].
      * intros fd H. exact H.
    + intros fd subs H. exact H.
    + exact Hrun.
Qed.

Lemma walker_contact_cards_witness :
  createVCardContent Sample.janeRecord
  = "BEGIN:VCARD" ++ JsString.CRLF ++ "VERSION:3.0" ++ JsString.CRLF ++
    "FN:Jane Doe" ++ JsString.CRLF ++ "END:VCARD".
Proof.
  pose proof (walker_contact_cards Sample.people Sample.peopleAggregate eq_refl)
    as Hev.
  inversion Hev as [fd Hhere _]; subst.
  inversion Hhere as [|c cs [_ Hcard] _]; subst.
  exact Hcard.
Defined.

(** X7.  Every appointment of every aggregate the walker returns, at any
    depth, has a subject and a body and neither location nor start nor end;
    its calendar entry is the eight lines of an event with an empty
    [LOCATION:] and no [DTSTART] or [DTEND] line, and the name of its file
    is the sanitized form of underscore, subject and [.ics]. *)
Theorem walker_appointment_entries (folder : PSTFolder) (agg : FolderData) :
  extractFolder folder = Ok agg ->
  Everywhere
    (fun fd =>
       Forall
         (fun a =>
            bareAppointment a /\
            createICalContent a
            = "BEGIN:VCALENDAR" ++ JsString.CRLF ++ "VERSION:2.0" ++
              JsString.CRLF ++ "BEGIN:VEVENT" ++ JsString.CRLF ++
              "SUMMARY:" ++ AppointmentData.subject a ++ JsString.CRLF ++
              "LOCATION:" ++ JsString.CRLF ++
              "DESCRIPTION:" ++ AppointmentData.body a ++ JsString.CRLF ++
              "END:VEVENT" ++ JsString.CRLF ++ "END:VCALENDAR" /\
            icsFilename a
            = sanitizeFilename ("_" ++ AppointmentData.subject a ++ ".ics"))
         (appointments fd))
    agg.
Proof.
  intros Hrun.
  apply (everywhere_impl (fun fd => Forall bareAppointment (appointments fd))).
  - intros fd H. rewrite Forall_forall in *. intros a Ha.
    pose proof (H a Ha) as Hbare.
    split; [exact Hbare|]. split; [apply bareAppointment_entry, Hbare|].
    rewrite Hbare. reflexivity.
  - apply (extractFolder_everywhere
             (fun fd => Forall bareAppointment (appointments fd)))
      with (folder := folder).
    + intros f. constructor.
    + intros item. apply processItem_keeps.
      * intros m fd H. exact H.
      * intros fd H. exact H.
      * intros fd H. cbn [pushAppointment appointments].
        apply Forall_snoc; [exact H | reflexivity].
    + intros fd subs H. exact H.
    + exact Hrun.
Qed.

Lemma walker_appointment_entries_witness :
  icsFilename Fixture.meetingRecord = "_Review.ics".
Proof.
  pose proof (walker_appointment_entries Fixture.calendar
                Fixture.calendarAggregate eq_refl) as Hev.
  inversion Hev as [fd Hhere _]; subst.
  inversion Hhere as [|a aps [_ [_ Hname]] _]; subst.
  rewrite Hname. reflexivity.
Defined.

(** ** The walker: recipients, attachment names and dates of a record *)

Lemma split_from_no_sep sep s :
  forall cur,
    ~ In sep (JsString.chars cur) ->
    Forall (fun field => ~ In sep (JsString.chars field))
           (JsString.split_from sep cur s).
Proof.
  induction s as [|c r IH]; intros cur Hcur; cbn [JsString.split_from].
  - constructor; [exact Hcur | constructor].
  - destruct (Ascii.eqb c sep) eqn:E.
    + constructor; [exact Hcur|]. apply IH. simpl. tauto.
    + apply IH. rewrite JsStringFacts.chars_app, in_app_iff. simpl.
      apply Ascii.eqb_neq in E. intuition congruence.
Qed.

Lemma trimStart_incl s c :
  In c (JsString.chars (JsString.trimStart s)) -> In c (JsString.chars s).
Proof.
  induction s as [|a r IH]; cbn [JsString.trimStart]; [tauto|].
  destruct (JsString.isSpace a); [|tauto].
  intros H. right. apply IH, H.
Qed.

Lemma trimEnd_incl s c :
  In c (JsString.chars (JsString.trimEnd s)) -> In c (JsString.chars s).
Proof.
  induction s as [|a r IH]; cbn [JsString.trimEnd]; [tauto|].
  destruct (JsString.trimEnd r) as [|b t] eqn:E.
  - destruct (JsString.isSpace a); simpl; tauto.
  - intros [H|H]; [left; exact H | right; apply IH, H].
Qed.

Lemma trimEnd_idem s :
  JsString.trimEnd (JsString.trimEnd s) = JsString.trimEnd s.
Proof.
  induction s as [|a r IH]; [reflexivity|]. cbn [JsString.trimEnd].
  destruct (JsString.trimEnd r) as [|b t] eqn:E.
  - destruct (JsString.isSpace a) eqn:Ha; [reflexivity|].
    cbn [JsString.trimEnd]. rewrite Ha. reflexivity.
  - change (JsString.trimEnd (String a (String b t)))
      with (match JsString.trimEnd (String b t) with
            | EmptyString =>
                if JsString.isSpace a then EmptyString else String a EmptyString
            | u => String a u
            end).
    rewrite IH. reflexivity.
Qed.

(** A text that does not start with white space. *)
Lemma trimStart_fixed s :
  match s with
  | EmptyString => True
  | String c _ => JsString.isSpace c = false
  end ->
  JsString.trimStart s = s.
Proof. destruct s as [|c r]; [reflexivity|]. simpl. intros ->. reflexivity. Qed.

Lemma trimStart_head s :
  match JsString.trimStart s with
  | EmptyString => True
  | String c _ => JsString.isSpace c = false
  end.
Proof.
  induction s as [|a r IH]; [exact I|]. cbn [JsString.trimStart].
  destruct (JsString.isSpace a) eqn:E; [exact IH | exact E].
Qed.

Lemma trimEnd_head s :
  match s with
  | EmptyString => True
  | String c _ => JsString.isSpace c = false
  end ->
  match JsString.trimEnd s with
  | EmptyString => True
  | String c _ => JsString.isSpace c = false
  end.
Proof.
  destruct s as [|a r]; [tauto|]. intros Ha. cbn [JsString.trimEnd].
  destruct (JsString.trimEnd r); [rewrite Ha|]; exact Ha.
Qed.

Lemma trim_idem s : JsString.trim (JsString.trim s) = JsString.trim s.
Proof.
  unfold JsString.trim.
  rewrite (trimStart_fixed (JsString.trimEnd (JsString.trimStart s)))
    by (apply trimEnd_head, trimStart_head).
  apply trimEnd_idem.
Qed.

Lemma recipientsOf_clean message :
  Forall cleanRecipient (recipientsOf message).
Proof.
  unfold recipientsOf.
  destruct (JsString.truthy (PSTMessage.displayTo message)); [|constructor].
  apply Forall_forall. intros r Hr. apply filter_In in Hr.
  destruct Hr as [Hr Htruthy]. apply in_map_iff in Hr.
  destruct Hr as [field [<- Hfield]].
  pose proof (split_from_no_sep ";"%char (PSTMessage.displayTo message) ""
                (fun H => H)) as Hsplit.
  rewrite Forall_forall in Hsplit. specialize (Hsplit field Hfield).
  split; [|split].
  - apply JsStringFacts.truthy_true_iff, Htruthy.
  - intros Hin. apply Hsplit. unfold JsString.trim in Hin.
    apply trimStart_incl, trimEnd_incl, Hin.
  - apply trim_idem.
Qed.

(** X8.  Every recipient of every message record of every aggregate the
    walker returns is a non-empty text without semicolon and without white
    space at either end ([trim] leaves it as it is): the empty fields of
    the semicolon-separated display list are dropped. *)
Theorem walker_recipients_clean (folder : PSTFolder) (agg : FolderData)
  (m : MessageData.t) :
  extractFolder folder = Ok agg -> In m (allMessages agg) ->
  Forall cleanRecipient (MessageData.recipients m).
Proof.
  intros Hrun Hm.
  destruct (extractFolder_records folder agg Hrun m Hm)
    as [item [slots [_ ->]]].
  apply recipientsOf_clean.
Qed.

Lemma walker_recipients_clean_witness :
  Forall cleanRecipient (MessageData.recipients Sample.helloRecord).
Proof.
  apply (walker_recipients_clean Sample.root Sample.rootAggregate
           Sample.helloRecord eq_refl (or_introl eq_refl)).
Defined.

Lemma attachmentRecord_keptName attachment data :
  JsString.truthy (PSTAttachment.filename attachment) = true ->
  keptName (attachmentRecord attachment data).
Proof.
  intros Hname. unfold keptName, attachmentRecord.
  cbn [AttachmentData.filename]. split; [|split].
  - apply sanitize_nonempty. unfold JsString.or_else.
    destruct (JsString.truthy (PSTAttachment.longFilename attachment)) eqn:E;
      apply JsStringFacts.truthy_true_iff; assumption.
  - apply safeSegment_sanitize.
  - apply sanitize_idem.
Qed.

Lemma drainStream_adds attachment stream attachments :
  snd (drainStream attachment stream attachments) = attachments \/
  exists data,
    snd (drainStream attachment stream attachments)
    = (attachments ++ [attachmentRecord attachment data])%list.
Proof.
  unfold drainStream.
  destruct (primaryDrain (Stream.chunked stream)) as [chunks|e].
  - destruct (negb (isEmpty chunks)); [right; eexists; reflexivity | left; reflexivity].
  - destruct (smallEnough attachment); [|left; reflexivity].
    destruct (fallbackLoop (Stream.single stream) [] 0) as [[rawData|e'] calls];
      [|left; reflexivity].
    destruct (negb (isEmpty rawData));
      [right; eexists; reflexivity | left; reflexivity].
Qed.

(** One turn of the attachment loop adds at most one record, whose name is
    a kept name. *)
Lemma extractAttachment_adds slot attachments :
  snd (extractAttachment slot attachments) = attachments \/
  exists a,
    keptName a /\
    snd (extractAttachment slot attachments) = (attachments ++ [a])%list.
Proof.
  unfold extractAttachment, try_catch, bind, perform, skip, ret.
  destruct slot as [[attachment|]|e]; try (left; reflexivity).
  destruct (JsString.truthy (PSTAttachment.filename attachment)) eqn:Hname;
    cbn [negb]; [|left; reflexivity].
  destruct (PSTAttachment.fileInputStream attachment) as [[stream|]|e];
    try (left; reflexivity).
  destruct (drainStream_adds attachment stream attachments) as [H|[data H]];
    destruct (drainStream attachment stream attachments) as [[calls|e] atts'];
    cbn [snd] in *; subst atts'; try (left; reflexivity);
    right; exists (attachmentRecord attachment data);
    (split; [apply attachmentRecord_keptName, Hname | reflexivity]).
Qed.

Lemma extractAttachments_kept slots :
  forall attachments,
    Forall keptName attachments ->
    Forall keptName (snd (extractAttachments slots attachments)) /\
    List.length (snd (extractAttachments slots attachments))
    <= List.length attachments + List.length slots.
Proof.
  unfold extractAttachments.
  induction slots as [|slot rest IH]; intros attachments Hkept.
  - simpl. split; [exact Hkept | lia].
  - cbn [forEach]. unfold bind.
    pose proof (extractAttachment_nothrow slot attachments) as [[] Hok].
    pose proof (extractAttachment_adds slot attachments) as Hadds.
    destruct (extractAttachment slot attachments) as [r atts'].
    cbn [fst snd] in *. subst r.
    assert (Hkept' : Forall keptName atts' /\
                     List.length atts' <= S (List.length attachments)).
    { destruct Hadds as [->|[a [Ha ->]]].
      - split; [exact Hkept | lia].
      - split; [apply Forall_snoc; assumption|].
        rewrite length_app. simpl. lia. }
    destruct Hkept' as [Hk Hl]. destruct (IH atts' Hk) as [IHk IHl].
    split; [exact IHk | simpl; lia].
Qed.

(** X9.  A message record never has more attachments than the message has
    attachment slots; and every attachment of every record of every
    aggregate the walker returns has a name that is not empty, holds none of
    the nine characters, is at most 180 characters long and is left as it
    is when the exporter sanitizes it again for the name of the file. *)
Theorem walker_attachment_names :
  (forall slots,
      List.length (snd (extractAttachments slots [])) <= List.length slots) /\
  (forall folder agg m,
      extractFolder folder = Ok agg -> In m (allMessages agg) ->
      Forall keptName (MessageData.attachments m)).
Proof.
  split.
  - intros slots.
    destruct (extractAttachments_kept slots [] (Forall_nil _)) as [_ H].
    exact H.
  - intros folder agg m Hrun Hm.
    destruct (extractFolder_records folder agg Hrun m Hm)
      as [item [slots [_ ->]]].
    cbn [messageRecord MessageData.attachments].
    apply (extractAttachments_kept slots [] (Forall_nil _)).
Qed.

Lemma walker_recordDates m :
  walkerRecord m ->
  MessageData.receivedDate m <> None -> MessageData.sentDate m <> None.
Proof.
  intros [item [slots [_ ->]]]. cbn [messageRecord MessageData.receivedDate
                                      MessageData.sentDate].
  unfold orDate. destruct (PSTMessage.clientSubmitTime item); [discriminate|].
  tauto.
Qed.

(** X10.  The sent date of a record is the submit time of the item, or else
    its delivery time; so for every record of every aggregate the walker
    returns, a record with a received date has a sent date, and the [Date]
    header of the serialized message is the sent date when there is one and
    the time of the run otherwise: the second alternative of the header,
    the received date of the record, never decides. *)
Theorem walker_header_date :
  (forall item attachments,
      MessageData.sentDate (messageRecord item attachments)
      = match PSTMessage.clientSubmitTime item with
        | Some d => Some d
        | None => PSTMessage.messageDeliveryTime item
        end) /\
  (forall folder agg m env,
      extractFolder folder = Ok agg -> In m (allMessages agg) ->
      (MessageData.receivedDate m <> None -> MessageData.sentDate m <> None) /\
      headerDate env m
      = match MessageData.sentDate m with
        | Some d => d
        | None => now env
        end).
Proof.
  split; [reflexivity|].
  intros folder agg m env Hrun Hm.
  pose proof (walker_recordDates m (extractFolder_records folder agg Hrun m Hm))
    as Hdates.
  split; [exact Hdates|]. unfold headerDate.
  destruct (MessageData.sentDate m); [reflexivity|].
  destruct (MessageData.receivedDate m); [|reflexivity].
  exfalso. apply Hdates; [discriminate | reflexivity].
Qed.

Lemma walker_header_date_witness :
  headerDate Sample.env0 Sample.helloRecord = 1000000000000%Z.
Proof.
  destruct walker_header_date as [_ Hdeep].
  destruct (Hdeep Sample.root Sample.rootAggregate Sample.helloRecord
                  Sample.env0 eq_refl (or_introl eq_refl)) as [_ Hdate].
  exact Hdate.
Defined.

Lemma fixture_mail_run : extractFolder Fixture.mail = Ok Fixture.mailAggregate.
Proof. reflexivity. Qed.

Lemma walker_attachment_names_witness :
  Forall keptName (MessageData.attachments Fixture.backupRecord).
Proof.
  destruct walker_attachment_names as [_ Hdeep].
  apply (Hdeep Fixture.mail Fixture.mailAggregate Fixture.backupRecord
               eq_refl (or_introl eq_refl)).
Defined.

(** ** The walker: the records of a folder, in closed form *)

Lemma prefix_append_l p q s :
  prefix (p ++ q) s = true -> prefix p s = true.
Proof.
  revert s. induction p as [|a p IH]; intros s H;
    [destruct s; reflexivity|].
  destruct s as [|b s]; [discriminate|].
  cbn [append prefix] in *.
  destruct (ascii_dec a b); [apply IH, H | discriminate].
Qed.

Lemma isNote_isIpm mc : isNote mc = true -> JsString.startsWith "IPM." mc = true.
Proof.
  unfold isNote, JsString.startsWith. intros H.
  apply orb_true_iff in H. destruct H as [H|H].
  - apply String.eqb_eq in H. subst. reflexivity.
  - apply (prefix_append_l "IPM." "Note."). exact H.
Qed.

Lemma class_isIpm item mc :
  classOf item = mc -> JsString.startsWith "IPM." mc = true ->
  isIpm (PSTMessage.messageClass item) = true.
Proof.
  unfold classOf, isIpm. destruct (PSTMessage.messageClass item) as [c|].
  - intros ->. tauto.
  - intros <-. discriminate.
Qed.

Lemma notIpm_unclassified item :
  isIpm (PSTMessage.messageClass item) = false ->
  isNote (classOf item) = false /\
  (classOf item =? "IPM.Contact")%string = false /\
  (classOf item =? "IPM.Appointment")%string = false.
Proof.
  intros H. split; [|split].
  - destruct (isNote (classOf item)) eqn:E; [|reflexivity].
    rewrite (class_isIpm item _ eq_refl (isNote_isIpm _ E)) in H. discriminate.
  - destruct (classOf item =? "IPM.Contact")%string eqn:E; [|reflexivity].
    apply String.eqb_eq in E.
    rewrite (class_isIpm item _ E eq_refl) in H. discriminate.
  - destruct (classOf item =? "IPM.Appointment")%string eqn:E; [|reflexivity].
    apply String.eqb_eq in E.
    rewrite (class_isIpm item _ E eq_refl) in H. discriminate.
Qed.

(** The item-level [try] always returns, with the aggregate [afterItem]
    describes. *)
Lemma item_try_run item fd :
  try_catch
    (if negb (isIpm (PSTMessage.messageClass item)) then skip
     else processItem item)
    (fun itemError => skip) fd
  = (Ok tt, afterItem fd item).
Proof.
  unfold afterItem, isNoteItem, isContactItem, isAppointmentItem.
  destruct (isIpm (PSTMessage.messageClass item)) eqn:Hipm; cbn [negb].
  - unfold try_catch, processItem.
    destruct (isNote (classOf item)) eqn:Hnote; cbn [negb andb].
    + unfold bind, perform, modify, skip, ret.
      destruct (attachmentsOf item); reflexivity.
    + destruct (classOf item =? "IPM.Contact")%string; cbn [negb andb];
        [reflexivity|].
      destruct (classOf item =? "IPM.Appointment")%string; reflexivity.
  - destruct (notIpm_unclassified item Hipm) as [-> [-> ->]]. reflexivity.
Qed.

Lemma whileItem_run item rest fd :
  whileItem item rest fd
  = (Ok tt, fold_left afterItem (item :: enumerated rest) fd).
Proof.
  revert item fd. induction rest as [|[next|e] rest IH]; intros item fd;
    rewrite whileItem_eq; unfold bind; rewrite item_try_run;
    cbn [enumerated fold_left]; try reflexivity.
  apply IH.
Qed.

Lemma extractContent_run folder fd :
  snd (extractContent folder fd)
  = if (0 <? contentCount folder)%Z
    then fold_left afterItem (enumerated (cursor folder)) fd
    else fd.
Proof.
  unfold extractContent. destruct (0 <? contentCount folder)%Z; [|reflexivity].
  unfold try_catch, bind, perform.
  destruct (cursor folder) as [|[first|e] rest]; try reflexivity.
  cbn [tl]. rewrite whileItem_run. reflexivity.
Qed.

Lemma fold_afterItem items :
  forall fd,
    messages (fold_left afterItem items fd)
    = (messages fd ++ flat_map recordOf (filter isNoteItem items))%list /\
    contacts (fold_left afterItem items fd)
    = (contacts fd ++ List.map contactRecord (filter isContactItem items))%list /\
    appointments (fold_left afterItem items fd)
    = (appointments fd
       ++ List.map appointmentRecord (filter isAppointmentItem items))%list.
Proof.
  induction items as [|item items IH]; intros fd; cbn [fold_left filter].
  - cbn [flat_map List.map]. rewrite !app_nil_r. auto.
  - destruct (IH (afterItem fd item)) as [Hm [Hc Ha]].
    rewrite Hm, Hc, Ha. unfold afterItem, isContactItem, isAppointmentItem,
      isNoteItem, recordOf.
    destruct (isNote (classOf item)); cbn [negb andb flat_map List.map].
    + destruct (attachmentsOf item);
        cbn [pushMessage messages contacts appointments app];
        rewrite <- ?app_assoc; auto.
    + destruct (classOf item =? "IPM.Contact")%string;
        cbn [negb andb List.map pushContact messages contacts appointments];
        [rewrite <- ?app_assoc; auto|].
      destruct (classOf item =? "IPM.Appointment")%string;
        cbn [List.map pushAppointment messages contacts appointments];
        rewrite <- ?app_assoc; auto.
Qed.

Lemma extractFolder_own folder agg :
  extractFolder folder = Ok agg ->
  messages agg = messages (snd (extractContent folder (newFolderData folder))) /\
  contacts agg = contacts (snd (extractContent folder (newFolderData folder))) /\
  appointments agg
  = appointments (snd (extractContent folder (newFolderData folder))).
Proof.
  rewrite extractFolder_run. intros H. injection H as <-.
  rewrite extractSubfolders_run.
  destruct (hasSubfolders folder); [|auto].
  destruct (getSubFolders folder); auto.
Qed.

(** X11.  The records of a folder, in closed form.  A folder whose content
    count is not positive gives no record, whatever its cursor holds.
    Otherwise the walker reads the items the cursor delivers up to its
    first fault and keeps, in the order of delivery: one message record for
    each item of class [IPM.Note] or [IPM.Note.*] whose attachment table can
    be read, one contact for each item of class [IPM.Contact], one
    appointment for each item of class [IPM.Appointment].  An item of any
    other class gives no record and does not stop the enumeration. *)
Theorem walker_own_records (folder : PSTFolder) (agg : FolderData) :
  extractFolder folder = Ok agg ->
  ((contentCount folder <= 0)%Z ->
   messages agg = [] /\ contacts agg = [] /\ appointments agg = []) /\
  ((0 < contentCount folder)%Z ->
   messages agg
   = flat_map recordOf (filter isNoteItem (enumerated (cursor folder))) /\
   contacts agg
   = List.map contactRecord (filter isContactItem (enumerated (cursor folder))) /\
   appointments agg
   = List.map appointmentRecord
       (filter isAppointmentItem (enumerated (cursor folder)))).
Proof.
  intros Hrun. destruct (extractFolder_own _ _ Hrun) as [Hm [Hc Ha]].
  rewrite Hm, Hc, Ha, extractContent_run. split; intros Hcount.
  - replace (0 <? contentCount folder)%Z with false
      by (symmetry; apply Z.ltb_ge, Hcount).
    auto.
  - replace (0 <? contentCount folder)%Z with true
      by (symmetry; apply Z.ltb_lt, Hcount).
    apply (fold_afterItem (enumerated (cursor folder)) (newFolderData folder)).
Qed.

Lemma walker_own_records_witness :
  messages Fixture.mailAggregate = [Fixture.backupRecord] /\
  contacts Fixture.mailAggregate = [Sample.janeRecord].
Proof.
  destruct (walker_own_records Fixture.mail Fixture.mailAggregate eq_refl)
    as [_ Hpositive].
  destruct Hpositive as [Hm [Hc _]]; [reflexivity|].
  split; [rewrite Hm | rewrite Hc]; reflexivity.
Defined.

(** ** Attachment drain: the single-byte loop *)

Lemma fallbackLoop_bytes bs rest rawData calls :
  fallbackLoop (List.map Stream.AByte bs ++ rest) rawData calls
  = fallbackLoop rest (rawData ++ bs)%list (calls + List.length bs).
Proof.
  revert rawData calls. induction bs as [|b bs IH]; intros rawData calls.
  - simpl. rewrite app_nil_r, Nat.add_0_r. reflexivity.
  - cbn [List.map app fallbackLoop]. rewrite IH, <- app_assoc.
    cbn [List.length app]. f_equal. lia.
Qed.

(** X12.  When the chunked drain throws and the declared size allows the
    fallback, the single-byte loop reads up to the first end-of-stream
    value, with one call per byte and one more for that value; the bytes
    read, in order, become the data of one attachment record, or nothing is
    added when there is none.  When a single-byte read throws, the bytes
    read before it are dropped with the attachment. *)
Theorem fallback_drain_exact (attachment : PSTAttachment.t)
  (chunked : list Stream.ChunkRead) (bs : Buffer)
  (attachments : list AttachmentData.t) (e : string) :
  primaryDrain chunked = Throw e ->
  smallEnough attachment = true ->
  (forall tail,
      drainStream attachment
        (Stream.mk chunked (List.map Stream.AByte bs ++ Stream.ByteEof :: tail))
        attachments
      = (Ok (S (List.length bs)),
         if isEmpty bs then attachments
         else (attachments ++ [attachmentRecord attachment bs])%list)) /\
  drainStream attachment (Stream.mk chunked (List.map Stream.AByte bs))
              attachments
  = (Ok (S (List.length bs)),
     if isEmpty bs then attachments
     else (attachments ++ [attachmentRecord attachment bs])%list) /\
  (forall e' tail,
      drainStream attachment
        (Stream.mk chunked
           (List.map Stream.AByte bs ++ Stream.ByteThrow e' :: tail))
        attachments
      = (Ok (S (List.length bs)), attachments)).
Proof.
  intros Hprimary Hsmall. unfold drainStream. cbn [Stream.chunked Stream.single].
  rewrite Hprimary, Hsmall. split; [|split].
  - intros tail. rewrite fallbackLoop_bytes. cbn [fallbackLoop app plus].
    destruct bs; reflexivity.
  - rewrite <- (app_nil_r (List.map Stream.AByte bs)), fallbackLoop_bytes.
    cbn [fallbackLoop app plus]. destruct bs; reflexivity.
  - intros e' tail. rewrite fallbackLoop_bytes. reflexivity.
Qed.

Lemma fallback_drain_exact_witness :
  drainStream Sample.flaky Sample.flakyStream []
  = (Ok 3, [attachmentRecord Sample.flaky [x50; x4b]]).
Proof.
  destruct (fallback_drain_exact Sample.flaky [Stream.ChunkThrow "read error"]
              [x50; x4b] [] "read error" eq_refl eq_refl) as [_ [Hend _]].
  exact Hend.
Defined.

(** ** Exporter: where it writes *)


















(** ** Exporter: what it writes when nothing fails *)

Lemma tally_ret {A} (a : A) : Tally 0 0 (ret a).
Proof.
  intros d. exists a, d. rewrite !Nat.add_0_r. auto.
Qed.

Lemma tally_bind {A B} w1 j1 w2 j2 (m : Eff Disk A) (k : A -> Eff Disk B) :
  Tally w1 j1 m -> (forall a, Tally w2 j2 (k a)) ->
  Tally (w1 + w2) (j1 + j2) (bind m k).
Proof.
  intros Hm Hk d. unfold bind.
  destruct (Hm d) as [a [d1 [-> [Hw1 Hj1]]]].
  destruct (Hk a d1) as [b [d2 [-> [Hw2 Hj2]]]].
  exists b, d2. split; [reflexivity|]. lia.
Qed.

Lemma tally_try_catch {A} w j (body : Eff Disk A) handler :
  Tally w j body -> Tally w j (try_catch body handler).
Proof.
  intros Hb d. unfold try_catch.
  destruct (Hb d) as [a [d1 [-> H]]]. exists a, d1. auto.
Qed.

Lemma tally_forEach {A} (w j : A -> nat) (body : A -> Eff Disk unit) xs :
  (forall x, In x xs -> Tally (w x) (j x) (body x)) ->
  Tally (list_sum (List.map w xs)) (list_sum (List.map j xs)) (forEach body xs).
Proof.
  induction xs as [|x rest IH]; intros Hb; cbn [forEach List.map list_sum].
  - apply tally_ret.
  - apply tally_bind.
    + apply Hb. left. reflexivity.
    + intros _. apply IH. intros y Hy. apply Hb. right. exact Hy.
Qed.

Lemma tally_mkdir p : Tally 0 0 (mkdir noFaults p).
Proof.
  intros d. exists tt. eexists. unfold mkdir. cbn [noFaults mkdirFails].
  split; [reflexivity|]. cbn [files serialized]. lia.
Qed.

Lemma tally_writeFile p content : Tally 1 0 (writeFile noFaults p content).
Proof.
  intros d. exists tt. eexists. unfold writeFile. cbn [noFaults writeFails].
  split; [reflexivity|]. cbn [files serialized]. rewrite length_app.
  simpl. lia.
Qed.

Lemma list_sum_ones {A} (xs : list A) :
  list_sum (List.map (fun _ => 1) xs) = List.length xs.
Proof. induction xs as [|x xs IH]; simpl; congruence. Qed.

Lemma tally_as {A} w j w' j' (m : Eff Disk A) :
  Tally w j m -> w' = w -> j' = j -> Tally w' j' m.
Proof. intros H -> ->. exact H. Qed.

Lemma tally_loop {A} (w : A -> nat) (j : nat) (body : A -> Eff Disk unit) xs :
  (forall x, In x xs -> Tally (w x) j (body x)) ->
  Tally (list_sum (List.map w xs)) (j * List.length xs) (forEach body xs).
Proof.
  intros Hb.
  apply (tally_as (list_sum (List.map w xs))
                  (list_sum (List.map (fun _ => j) xs)));
    [apply tally_forEach, Hb | reflexivity |].
  induction xs as [|x xs IH]; simpl; [lia|].
  rewrite <- IH by (intros y Hy; apply Hb; right; exact Hy). lia.
Qed.

Lemma tally_exportMessage ambientAt emailsPath m :
  Tally (S (List.length (MessageData.attachments m))) 1
        (exportMessage noFaults ambientAt emailsPath m).
Proof.
  unfold exportMessage. apply tally_try_catch.
  apply (tally_as (0 + (1 + List.length (MessageData.attachments m)))
                  (1 + (0 + 0))); [|lia|lia].
  apply tally_bind.
  { intros d. eexists. eexists. unfold serializeMessage.
    split; [reflexivity|]. cbn [files serialized]. lia. }
  intros content. apply tally_bind; [apply tally_writeFile|].
  intros _. destruct (MessageData.attachments m) as [|a atts] eqn:Hatts;
    cbn [isEmpty negb]; [apply tally_ret|].
  apply (tally_as (0 + list_sum (List.map (fun _ => 1) (a :: atts)))
                  (0 + 0 * List.length (a :: atts)));
    [|rewrite list_sum_ones; lia | lia].
  apply tally_bind; [apply tally_mkdir|]. intros _.
  apply tally_loop. intros x _. unfold exportAttachment.
  apply tally_try_catch, tally_writeFile.
Qed.

Lemma length_flat_map_sum {A B} (f : A -> list B) xs :
  List.length (flat_map f xs)
  = list_sum (List.map (fun x => List.length (f x)) xs).
Proof.
  induction xs as [|x xs IH]; simpl; [reflexivity|].
  rewrite length_app, IH. reflexivity.
Qed.

(** X14.  On a file system where no operation fails, the export of an
    aggregate returns; it writes one file for each message, each attachment,
    each contact and each appointment of the aggregate at any depth, and
    serializes each message once. *)
Theorem export_writes_everything (ambientAt : nat -> Ambient)
  (data : FolderData) :
  forall basePath,
    Tally (countFiles data) (List.length (allMessages data))
          (exportToFiles noFaults ambientAt data basePath).
Proof.
  induction data as [n ms cs aps subs IH] using FolderData_tree_ind.
  intros basePath. rewrite exportToFiles_eq. cbv zeta.
  apply tally_try_catch. cbn [name subfolders].
  apply (tally_as
           (0 + (list_sum (List.map
                   (fun m => S (List.length (MessageData.attachments m))) ms)
                 + (List.length cs
                    + (List.length aps + list_sum (List.map countFiles subs)))))
           (0 + (List.length ms
                 + (0 + (0 + list_sum
                       (List.map (fun s => List.length (allMessages s)) subs))))));
    [| cbn [countFiles messages contacts appointments subfolders]; lia
     | rewrite allMessages_eq; cbn [messages subfolders];
       rewrite length_app, length_flat_map_sum; lia].
  apply tally_bind; [apply tally_mkdir|]. intros _.
  apply tally_bind.
  { unfold exportMessages. cbn [messages].
    destruct ms as [|m ms']; cbn [isEmpty negb]; [apply tally_ret|].
    apply (tally_as
             (0 + list_sum (List.map
                    (fun m0 => S (List.length (MessageData.attachments m0)))
                    (m :: ms')))
             (0 + 1 * List.length (m :: ms'))); [|lia|lia].
    apply tally_bind; [apply tally_mkdir|]. intros _.
    apply tally_loop. intros x _. apply tally_exportMessage. }
  intros _. apply tally_bind.
  { unfold exportContacts. cbn [contacts].
    destruct cs as [|c cs']; cbn [isEmpty negb]; [apply tally_ret|].
    apply (tally_as (0 + list_sum (List.map (fun _ => 1) (c :: cs')))
                    (0 + 0 * List.length (c :: cs')));
      [|rewrite list_sum_ones; lia | lia].
    apply tally_bind; [apply tally_mkdir|]. intros _.
    apply tally_loop. intros x _. apply tally_writeFile. }
  intros _. apply tally_bind.
  { unfold exportAppointments. cbn [appointments].
    destruct aps as [|a aps']; cbn [isEmpty negb]; [apply tally_ret|].
    apply (tally_as (0 + list_sum (List.map (fun _ => 1) (a :: aps')))
                    (0 + 0 * List.length (a :: aps')));
      [|rewrite list_sum_ones; lia | lia].
    apply tally_bind; [apply tally_mkdir|]. intros _.
    apply tally_loop. intros x _. apply tally_writeFile. }
  intros _. apply tally_forEach. intros sub Hsub.
  rewrite Forall_forall in IH. apply (IH sub Hsub).
Qed.

(** ** Exporter: what a failure costs *)

(** X15.  The export of one message never throws.  When the file of the
    message cannot be written, nothing is written for it: its attachments
    are not attempted.  When that file is written and the directory of its
    attachments cannot be created, the message file is all that is written
    for it. *)
Theorem message_export_isolated (faults : Faults) (ambientAt : nat -> Ambient)
  (emailsPath : Path) (m : MessageData.t) (d : Disk) :
  (exists d', exportMessage faults ambientAt emailsPath m d = (Ok tt, d')) /\
  (writeFails faults (pathJoin emailsPath [emlFilename m]) = true ->
   exportMessage faults ambientAt emailsPath m d
   = (Ok tt, mkDisk (dirs d) (files d) (S (serialized d)))) /\
  (writeFails faults (pathJoin emailsPath [emlFilename m]) = false ->
   MessageData.attachments m <> [] ->
   mkdirFails faults
     (pathJoin emailsPath ["Attachments"; attachmentsDirname m]) = true ->
   exportMessage faults ambientAt emailsPath m d
   = (Ok tt,
      mkDisk (dirs d)
        (files d ++ [(pathJoin emailsPath [emlFilename m],
                      Text (createEMLContent (ambientAt (serialized d)) m))])
        (S (serialized d)))).
Proof.
  split; [|split].
  - destruct (exportMessage_nothrow faults ambientAt emailsPath m d) as [[] H].
    destruct (exportMessage faults ambientAt emailsPath m d) as [r d'].
    cbn [fst] in H. subst r. exists d'. reflexivity.
  - intros Hwrite. unfold exportMessage, try_catch, bind, serializeMessage,
      writeFile. cbn [dirs files serialized]. rewrite Hwrite. reflexivity.
  - intros Hwrite Hatts Hmkdir.
    unfold exportMessage, try_catch, bind, serializeMessage, writeFile, mkdir.
    cbn [dirs files serialized]. rewrite Hwrite.
    destruct (MessageData.attachments m) as [|a atts]; [congruence|].
    cbn [isEmpty negb]. cbn [dirs files serialized]. rewrite Hmkdir.
    reflexivity.
Qed.

Lemma message_export_isolated_witness :
  exportMessage Sample.helloUnwritable Sample.ambient
                ["out"; "People"; "Emails"] Sample.helloRecord emptyDisk
  = (Ok tt, mkDisk [] [] 1).
Proof.
  destruct (message_export_isolated Sample.helloUnwritable Sample.ambient
              ["out"; "People"; "Emails"] Sample.helloRecord emptyDisk)
    as [_ [Hunwritable _]].
  apply Hunwritable. reflexivity.
Defined.

(** X16.  Failures at the level of a folder are fatal.  When the directory
    of a folder cannot be created, the export of the folder throws and
    leaves the disk as it was.  When the directory of the messages, of the
    contacts or of the calendar of a folder that has some cannot be created,
    the export of the folder throws.  When the export of a subfolder throws,
    so does the export of the folder that holds it. *)
Theorem folder_failure_fatal (faults : Faults) (ambientAt : nat -> Ambient)
  (data : FolderData) (basePath : Path) :
  (mkdirFails faults (pathJoin basePath [sanitizeFilename (name data)]) = true ->
   forall d,
     exportToFiles faults ambientAt data basePath d
     = (Throw "mkdir failed", d)) /\
  (messages data <> [] ->
   mkdirFails faults
     (pathJoin (pathJoin basePath [sanitizeFilename (name data)]) ["Emails"])
   = true ->
   Throws (exportToFiles faults ambientAt data basePath)) /\
  (contacts data <> [] ->
   mkdirFails faults
     (pathJoin (pathJoin basePath [sanitizeFilename (name data)]) ["Contacts"])
   = true ->
   Throws (exportToFiles faults ambientAt data basePath)) /\
  (appointments data <> [] ->
   mkdirFails faults
     (pathJoin (pathJoin basePath [sanitizeFilename (name data)]) ["Calendar"])
   = true ->
   Throws (exportToFiles faults ambientAt data basePath)) /\
  (forall sub,
      In sub (subfolders data) ->
      Throws (exportToFiles faults ambientAt sub
                (pathJoin basePath [sanitizeFilename (name data)])) ->
      Throws (exportToFiles faults ambientAt data basePath)).
Proof.
  assert (Hmkdir : forall p, mkdirFails faults p = true ->
                             Throws (mkdir faults p)).
  { intros p Hp d. unfold mkdir. rewrite Hp. eexists. reflexivity. }
  split; [|split; [|split; [|split]]].
  - intros Hfails d. rewrite exportToFiles_eq. cbv zeta.
    unfold try_catch, bind, mkdir at 1. rewrite Hfails. reflexivity.
  - intros Hms Hfails. rewrite exportToFiles_eq. cbv zeta.
    apply throws_rethrow. apply throws_bind_r; intros _.
    apply throws_bind_l. unfold exportMessages.
    destruct (messages data); [congruence|]. cbn [isEmpty negb].
    apply throws_bind_l, Hmkdir, Hfails.
  - intros Hcs Hfails. rewrite exportToFiles_eq. cbv zeta.
    apply throws_rethrow. apply throws_bind_r; intros _.
    apply throws_bind_r; intros _.
    apply throws_bind_l. unfold exportContacts.
    destruct (contacts data); [congruence|]. cbn [isEmpty negb].
    apply throws_bind_l, Hmkdir, Hfails.
  - intros Haps Hfails. rewrite exportToFiles_eq. cbv zeta.
    apply throws_rethrow. apply throws_bind_r; intros _.
    apply throws_bind_r; intros _. apply throws_bind_r; intros _.
    apply throws_bind_l. unfold exportAppointments.
    destruct (appointments data); [congruence|]. cbn [isEmpty negb].
    apply throws_bind_l, Hmkdir, Hfails.
  - intros sub Hin Hsub. rewrite exportToFiles_eq. cbv zeta.
    apply throws_rethrow. apply throws_bind_r; intros _.
    apply throws_bind_r; intros _. apply throws_bind_r; intros _.
    apply throws_bind_r; intros _.
    apply (throws_forEach _ _ sub Hin). exact Hsub.
Qed.

Lemma folder_failure_fatal_witness :
  exportToFiles Fixture.noDirectory Sample.ambient Sample.twoContacts ["out"]
                emptyDisk
  = (Throw "mkdir failed", emptyDisk).
Proof.
  destruct (folder_failure_fatal Fixture.noDirectory Sample.ambient
              Sample.twoContacts ["out"]) as [Hfolder _].
  apply Hfolder. reflexivity.
Defined.

(** ** Orchestrator: which files are mailboxes *)

Lemma drop_map f n (s : string) :
  JsString.drop n (JsString.map f s) = JsString.map f (JsString.drop n s).
Proof.
  revert s; induction n as [|n IH]; intros [|c r]; simpl; auto.
Qed.

Lemma drop_append_exact (s t : string) :
  JsString.drop (length s) (s ++ t) = t.
Proof. induction s as [|c r IH]; simpl; auto. Qed.

Lemma lowerChar_dot c : JsText.lowerChar c = "."%char <-> c = "."%char.
Proof.
  split; [|intros ->; reflexivity].
  destruct c as [[|] [|] [|] [|] [|] [|] [|] [|]]; vm_compute; intros H;
    try discriminate H; reflexivity.
Qed.

Lemma lowerChar_o c :
  JsText.lowerChar c = "o"%char <-> letterOf "o"%char "O"%char c.
Proof.
  unfold letterOf. split; [|intros [->| ->]; reflexivity].
  destruct c as [[|] [|] [|] [|] [|] [|] [|] [|]]; vm_compute; intros H;
    try discriminate H; auto.
Qed.

Lemma lowerChar_s c :
  JsText.lowerChar c = "s"%char <-> letterOf "s"%char "S"%char c.
Proof.
  unfold letterOf. split; [|intros [->| ->]; reflexivity].
  destruct c as [[|] [|] [|] [|] [|] [|] [|] [|]]; vm_compute; intros H;
    try discriminate H; auto.
Qed.

Lemma lowerChar_t c :
  JsText.lowerChar c = "t"%char <-> letterOf "t"%char "T"%char c.
Proof.
  unfold letterOf. split; [|intros [->| ->]; reflexivity].
  destruct c as [[|] [|] [|] [|] [|] [|] [|] [|]]; vm_compute; intros H;
    try discriminate H; auto.
Qed.

Lemma length4 (s : string) :
  length s = 4 ->
  exists a b c d, s = String a (String b (String c (String d ""))).
Proof.
  destruct s as [|a [|b [|c [|d [|e r]]]]]; simpl; intros H;
    try discriminate H.
  exists a, b, c, d. reflexivity.
Qed.

Lemma isOstName_iff file :
  isOstName file = true <->
  exists stem o s t,
    file = stem ++ String "." (String o (String s (String t ""))) /\
    letterOf "o"%char "O"%char o /\ letterOf "s"%char "S"%char s /\
    letterOf "t"%char "T"%char t.
Proof.
  unfold isOstName, JsText.endsWith, JsText.toLowerCase.
  rewrite JsStringFacts.length_map. split.
  - intros H. apply andb_true_iff in H. destruct H as [Hlen Heq].
    apply Nat.leb_le in Hlen. apply String.eqb_eq in Heq.
    change (length ".ost") with 4 in *.
    rewrite drop_map in Heq.
    destruct (length4 (JsString.drop (length file - 4) file))
      as [a [b [c [d Htail]]]].
    { rewrite length_drop. lia. }
    rewrite Htail in Heq. cbn [JsString.map] in Heq.
    injection Heq as Ha Hb Hc Hd.
    exists (JsString.take (length file - 4) file), b, c, d.
    apply (proj1 (lowerChar_dot a)) in Ha. subst a.
    split; [rewrite <- Htail; symmetry; apply take_drop|].
    split; [apply (proj1 (lowerChar_o b)), Hb|].
    split; [apply (proj1 (lowerChar_s c)), Hc
           | apply (proj1 (lowerChar_t d)), Hd].
  - intros [stem [o [s [t [-> [Ho [Hs Ht]]]]]]].
    rewrite JsStringFacts.length_app. change (length ".ost") with 4.
    cbn [length]. apply andb_true_iff. split; [apply Nat.leb_le; lia|].
    replace (length stem + 4 - 4) with (length (JsString.map JsText.lowerChar stem))
      by (rewrite JsStringFacts.length_map; lia).
    rewrite map_append, drop_append_exact. cbn [JsString.map].
    apply (proj2 (lowerChar_o o)) in Ho. apply (proj2 (lowerChar_s s)) in Hs.
    apply (proj2 (lowerChar_t t)) in Ht.
    rewrite Ho, Hs, Ht. reflexivity.
Qed.

(** X17.  [findOSTFiles] fails exactly when the directory cannot be listed.
    Otherwise it keeps, in the order of the listing, the names that end
    with a period followed by the letters o, s and t, each in either case,
    and only those: a name shorter than four characters is never kept. *)
Theorem findOSTFiles_selects (machine : Machine) (directory : Path) :
  (forall e, readdir machine directory = Throw e ->
             findOSTFiles machine directory = Throw e) /\
  (forall files,
      readdir machine directory = Ok files ->
      exists found,
        findOSTFiles machine directory = Ok found /\
        found = filter isOstName files /\
        (forall file,
            In file found <->
            In file files /\
            exists stem o s t,
              file = stem ++ String "." (String o (String s (String t ""))) /\
              letterOf "o"%char "O"%char o /\ letterOf "s"%char "S"%char s /\
              letterOf "t"%char "T"%char t) /\
        (forall file, In file found -> 4 <= length file)).
Proof.
  split.
  - intros e H. unfold findOSTFiles. rewrite H. reflexivity.
  - intros files H. exists (filter isOstName files).
    unfold findOSTFiles. rewrite H. split; [reflexivity|].
    split; [reflexivity|]. split.
    + intros file. rewrite filter_In, isOstName_iff. reflexivity.
    + intros file Hin. apply filter_In in Hin. destruct Hin as [_ Hin].
      apply isOstName_iff in Hin.
      destruct Hin as [stem [o [s [t [-> _]]]]].
      rewrite JsStringFacts.length_app. simpl. lia.
Qed.

Lemma findOSTFiles_selects_witness :
  findOSTFiles Fixture.desk Fixture.here = Ok ["mail.ost"; "OLD.OST"].
Proof.
  destruct (findOSTFiles_selects Fixture.desk Fixture.here) as [_ Hlisted].
  destruct (Hlisted ["mail.ost"; "OLD.OST"; "notes.txt"] eq_refl)
    as [found [Hrun [Hfound _]]].
  rewrite Hrun, Hfound. reflexivity.
Defined.

Lemma eqb_length_neq (s t : string) : length s <> length t -> (s =? t) = false.
Proof.
  intros H. apply String.eqb_neq. intros ->. apply H. reflexivity.
Qed.

Lemma take_append_exact (s t : string) : JsString.take (length s) (s ++ t) = s.
Proof. induction s as [|c r IH]; simpl; [destruct t; reflexivity|]. congruence. Qed.

(** X18.  The directory a mailbox file is converted into is named after the
    file: without its extension when the extension is [.ost] in small
    letters, and with it when one of its letters is a capital, though the
    file is found and converted all the same. *)
Theorem output_directory_name (stem : string) (o s t : ascii) :
  letterOf "o"%char "O"%char o -> letterOf "s"%char "S"%char s ->
  letterOf "t"%char "T"%char t ->
  isOstName (stem ++ String "." (String o (String s (String t "")))) = true /\
  (stem <> "" -> JsText.basename (stem ++ ".ost") ".ost" = stem) /\
  (o = "O"%char \/ s = "S"%char \/ t = "T"%char ->
   JsText.basename (stem ++ String "." (String o (String s (String t ""))))
                   ".ost"
   = stem ++ String "." (String o (String s (String t "")))).
Proof.
  intros Ho Hs Ht. split; [|split].
  - apply isOstName_iff. exists stem, o, s, t. auto.
  - intros Hstem. unfold JsText.basename, JsText.endsWith.
    rewrite JsStringFacts.length_app. change (length ".ost") with 4.
    replace (0 <? 4)%nat with true by reflexivity.
    replace (4 <=? length stem + 4)%nat with true
      by (symmetry; apply Nat.leb_le; lia).
    cbn [andb].
    rewrite eqb_length_neq
      by (rewrite JsStringFacts.length_app; destruct stem;
          [congruence | simpl; lia]).
    replace (length stem + 4 - 4) with (length stem) by lia.
    rewrite drop_append_exact, String.eqb_refl, take_append_exact.
    reflexivity.
  - intros Hcapital. unfold JsText.basename, JsText.endsWith.
    rewrite JsStringFacts.length_app. change (length ".ost") with 4.
    cbn [length].
    replace (0 <? 4)%nat with true by reflexivity.
    replace (4 <=? length stem + 4)%nat with true
      by (symmetry; apply Nat.leb_le; lia).
    cbn [andb].
    assert (Htail : (String "." (String o (String s (String t ""))) =? ".ost")
                    = false).
    { apply String.eqb_neq. intros H. injection H as -> -> ->.
      destruct Hcapital as [H|[H|H]]; discriminate H. }
    assert (Hwhole : (".ost" =? stem ++ String "." (String o (String s (String t ""))))
                     = false).
    { destruct stem as [|c r].
      - cbn [append]. rewrite String.eqb_sym. exact Htail.
      - apply eqb_length_neq. rewrite JsStringFacts.length_app. simpl. lia. }
    rewrite Hwhole.
    replace (length stem + 4 - 4) with (length stem) by lia.
    rewrite drop_append_exact, Htail. reflexivity.
Qed.

Lemma output_directory_name_witness :
  JsText.basename "OLD.OST" ".ost" = "OLD.OST".
Proof.
  destruct (output_directory_name "OLD" "O" "S" "T")
    as [_ [_ Hcapital]];
    try (right; reflexivity).
  apply Hcapital. left. reflexivity.
Defined.

(** ** Orchestrator: the conversion of one file *)

Lemma allEmpty_hasData fd :
  isEmpty (messages fd) && isEmpty (contacts fd) && isEmpty (appointments fd) &&
  isEmpty (subfolders fd) = negb (hasData fd).
Proof.
  unfold hasData.
  destruct (messages fd), (contacts fd), (appointments fd), (subfolders fd);
    reflexivity.
Qed.

(** X19.  [convertOST] checks for the input before anything else: when the
    mailbox file does not exist it throws, naming the file, and has neither
    created the output directory nor logged a line. *)
Theorem convertOST_missing_input (machine : Machine) (faults : Faults)
  (ambientAt : nat -> Ambient) (ostPath outputPath : Path) (h : Host) :
  existsSync machine ostPath = false ->
  convertOST machine faults ambientAt ostPath outputPath h
  = (Throw ("OST-Datei nicht gefunden: " ++ showPath machine ostPath), h).
Proof.
  intros Hmissing. unfold convertOST, try_catch, bind at 1.
  rewrite Hmissing. reflexivity.
Qed.

Lemma convertOST_missing_input_witness :
  convertOST Fixture.desk noFaults Sample.ambient ["home"; "ann"; "gone.ost"]
             ["out"] Fixture.emptyHost
  = (Throw "OST-Datei nicht gefunden: home/ann/gone.ost", Fixture.emptyHost).
Proof.
  apply (convertOST_missing_input Fixture.desk noFaults Sample.ambient
           ["home"; "ann"; "gone.ost"] ["out"] Fixture.emptyHost).
  reflexivity.
Defined.

(** X20.  A mailbox whose root aggregate has no message, contact,
    appointment or subfolder is refused with [Keine Daten gefunden], nothing
    being exported; the output directory, created before the mailbox is
    read, stays behind, empty. *)
Theorem convertOST_no_data (machine : Machine) (faults : Faults)
  (ambientAt : nat -> Ambient) (ostPath outputPath : Path) (h : Host)
  (pstFile : PSTFile) (rootFolder : PSTFolder) (agg : FolderData) :
  existsSync machine ostPath = true ->
  mkdirFails faults outputPath = false ->
  openFile machine ostPath = Ok pstFile ->
  getRootFolder pstFile = Ok (Some rootFolder) ->
  extractFolder rootFolder = Ok agg ->
  hasData agg = false ->
  convertOST machine faults ambientAt ostPath outputPath h
  = (Throw "Keine Daten gefunden",
     mkHost (mkDisk (dirs (disk h) ++ [outputPath]) (files (disk h))
                    (serialized (disk h)))
            (printed h ++
             ["Creating output directory: " ++ showPath machine outputPath;
              "Reading OST file..."; "Extracting folder structure...";
              "Processing folders and messages..."])).
Proof.
  intros Hexists Hmkdir Hopen Hroot Hextract Hdata.
  unfold convertOST, try_catch, bind, say, onDisk, mkdir, perform, throw, ret.
  rewrite Hexists. cbn [negb disk printed]. rewrite Hmkdir.
  cbn [disk printed]. rewrite Hopen, Hroot. cbn [disk printed].
  rewrite Hextract, allEmpty_hasData, Hdata. cbn [negb disk printed].
  rewrite <- !app_assoc. reflexivity.
Qed.

Lemma convertOST_no_data_witness :
  fst (convertOST Fixture.bare noFaults Sample.ambient
         ["home"; "ann"; "empty.ost"] ["out"] Fixture.emptyHost)
  = Throw "Keine Daten gefunden" /\
  dirs (disk (snd (convertOST Fixture.bare noFaults Sample.ambient
                     ["home"; "ann"; "empty.ost"] ["out"] Fixture.emptyHost)))
  = [["out"]].
Proof.
  rewrite (convertOST_no_data Fixture.bare noFaults Sample.ambient
             ["home"; "ann"; "empty.ost"] ["out"] Fixture.emptyHost
             (mkPSTFile (Ok (Some Sample.hollow))) Sample.hollow
             (mkFolderData "Archive" [] [] [] [])
             eq_refl eq_refl eq_refl eq_refl eq_refl eq_refl).
  split; reflexivity.
Defined.

(** X21.  [convertOST] returns normally only when the mailbox file exists,
    the output directory could be created, the file could be opened and
    has a root folder, the aggregate of that folder has data, and the
    export of that aggregate into the output directory returned; the disk
    it leaves is the disk that export left. *)
Theorem convertOST_success (machine : Machine) (faults : Faults)
  (ambientAt : nat -> Ambient) (ostPath outputPath : Path) (h h' : Host) :
  convertOST machine faults ambientAt ostPath outputPath h = (Ok tt, h') ->
  existsSync machine ostPath = true /\
  mkdirFails faults outputPath = false /\
  exists pstFile rootFolder agg,
    openFile machine ostPath = Ok pstFile /\
    getRootFolder pstFile = Ok (Some rootFolder) /\
    extractFolder rootFolder = Ok agg /\
    hasData agg = true /\
    exportToFiles faults ambientAt agg outputPath
      (mkDisk (dirs (disk h) ++ [outputPath]) (files (disk h))
              (serialized (disk h)))
    = (Ok tt, disk h').
Proof.
  unfold convertOST, try_catch, bind, say, onDisk, mkdir, perform, throw, ret.
  destruct (existsSync machine ostPath) eqn:Hexists; cbn [negb disk printed];
    [|discriminate].
  destruct (mkdirFails faults outputPath) eqn:Hmkdir; cbn [disk printed];
    [discriminate|].
  destruct (openFile machine ostPath) as [pstFile|e] eqn:Hopen; [|discriminate].
  destruct (getRootFolder pstFile) as [[rootFolder|]|e] eqn:Hroot;
    cbn [disk printed]; try discriminate.
  destruct (extractFolder rootFolder) as [agg|e] eqn:Hextract; [|discriminate].
  rewrite allEmpty_hasData.
  destruct (hasData agg) eqn:Hdata; cbn [negb disk printed]; [|discriminate].
  destruct (exportToFiles faults ambientAt agg outputPath
              (mkDisk (dirs (disk h) ++ [outputPath]) (files (disk h))
                      (serialized (disk h)))) as [[[]|e] d'] eqn:Hexport;
    cbn [disk printed]; [|discriminate].
  intros H. injection H as <-. cbn [disk].
  split; [reflexivity|]. split; [reflexivity|].
  exists pstFile, rootFolder, agg. auto.
Qed.

Lemma convertOST_success_witness :
  exists pstFile rootFolder agg,
    openFile Fixture.desk ["home"; "ann"; "mail.ost"] = Ok pstFile /\
    getRootFolder pstFile = Ok (Some rootFolder) /\
    extractFolder rootFolder = Ok agg /\
    hasData agg = true.
Proof.
  destruct (convertOST_success Fixture.desk noFaults Sample.ambient
              ["home"; "ann"; "mail.ost"] ["out"] Fixture.emptyHost
              (snd (convertOST Fixture.desk noFaults Sample.ambient
                      ["home"; "ann"; "mail.ost"] ["out"] Fixture.emptyHost)))
    as [_ [_ [pstFile [rootFolder [agg [Ho [Hr [He [Hd _]]]]]]]]].
  - vm_compute. reflexivity.
  - exists pstFile, rootFolder, agg. auto.
Defined.

(** ** Orchestrator: the run over all files *)

Lemma appends_ret {A} (a : A) : Appends (ret a).
Proof. intros h. exists []. rewrite app_nil_r. reflexivity. Qed.

Lemma appends_throw {A} e : Appends (@throw Host A e).
Proof. intros h. exists []. rewrite app_nil_r. reflexivity. Qed.

Lemma appends_perform {A} (r : Result A) : Appends (perform r).
Proof. intros h. exists []. rewrite app_nil_r. reflexivity. Qed.

Lemma appends_say text : Appends (say text).
Proof. intros h. exists [text]. reflexivity. Qed.

Lemma appends_onDisk {A} (m : Eff Disk A) : Appends (onDisk m).
Proof.
  intros h. exists []. unfold onDisk. destruct (m (disk h)).
  rewrite app_nil_r. reflexivity.
Qed.

Lemma appends_bind {A B} (m : Eff Host A) (k : A -> Eff Host B) :
  Appends m -> (forall a, Appends (k a)) -> Appends (bind m k).
Proof.
  intros Hm Hk h. unfold bind. destruct (Hm h) as [more1 H1].
  destruct (m h) as [[a|e] h1]; cbn [snd] in *; [|exists more1; exact H1].
  destruct (Hk a h1) as [more2 H2]. exists (more1 ++ more2)%list.
  rewrite H2, H1, app_assoc. reflexivity.
Qed.

Lemma appends_try_catch {A} (body : Eff Host A) handler :
  Appends body -> (forall e, Appends (handler e)) ->
  Appends (try_catch body handler).
Proof.
  intros Hb Hh h. unfold try_catch. destruct (Hb h) as [more1 H1].
  destruct (body h) as [[a|e] h1]; cbn [snd] in *; [exists more1; exact H1|].
  destruct (Hh e h1) as [more2 H2]. exists (more1 ++ more2)%list.
  rewrite H2, H1, app_assoc. reflexivity.
Qed.

Lemma appends_forEach {A} (body : A -> Eff Host unit) xs :
  (forall x, Appends (body x)) -> Appends (forEach body xs).
Proof.
  intros Hb. induction xs as [|x rest IH]; cbn [forEach].
  - apply appends_ret.
  - apply appends_bind; [apply Hb | intros _; exact IH].
Qed.

Lemma appends_convertOST machine faults ambientAt ostPath outputPath :
  Appends (convertOST machine faults ambientAt ostPath outputPath).
Proof.
  unfold convertOST.
  apply appends_try_catch; [|intros; apply appends_throw].
  apply appends_bind.
  { destruct (negb (existsSync machine ostPath));
      [apply appends_throw | apply appends_ret]. }
  intros _. apply appends_bind; [apply appends_say|]. intros _.
  apply appends_bind; [apply appends_onDisk|]. intros _.
  apply appends_bind; [apply appends_say|]. intros _.
  apply appends_bind; [apply appends_perform|]. intros pstFile.
  apply appends_bind; [apply appends_say|]. intros _.
  apply appends_bind; [apply appends_perform|].
  intros [rootFolder|]; [|apply appends_throw].
  apply appends_bind; [apply appends_say|]. intros _.
  apply appends_bind; [apply appends_perform|]. intros folderData.
  apply appends_bind.
  { destruct (isEmpty (messages folderData) && isEmpty (contacts folderData) &&
              isEmpty (appointments folderData) &&
              isEmpty (subfolders folderData));
      [apply appends_throw | apply appends_ret]. }
  intros _. apply appends_bind; [apply appends_say|]. intros _.
  apply appends_bind; [apply appends_onDisk|]. intros _.
  apply appends_bind; [apply appends_say|]. intros _. apply appends_say.
Qed.

Lemma nothrow_say text : NoThrow (say text).
Proof. intros h. exists tt. reflexivity. Qed.

Lemma processOSTFile_nothrow machine faults ambientAt projectDir outputBaseDir
  ostFile :
  NoThrow (processOSTFile machine faults ambientAt projectDir outputBaseDir
                          ostFile).
Proof.
  unfold processOSTFile. apply nothrow_bind; [apply nothrow_say|].
  intros _. apply nothrow_try_catch. intros e. apply nothrow_say.
Qed.

Lemma appends_processOSTFile machine faults ambientAt projectDir outputBaseDir
  ostFile :
  Appends (processOSTFile machine faults ambientAt projectDir outputBaseDir
                          ostFile).
Proof.
  unfold processOSTFile. apply appends_bind; [apply appends_say|].
  intros _. apply appends_try_catch; [|intros; apply appends_say].
  apply appends_bind; [apply appends_convertOST | intros; apply appends_say].
Qed.

(** What one turn of the loop prints: the name of the file, and then, after
    whatever the conversion printed, exactly one verdict. *)
Lemma processOSTFile_prints machine faults ambientAt projectDir outputBaseDir
  ostFile h :
  exists during verdict,
    processOSTFile machine faults ambientAt projectDir outputBaseDir ostFile h
    = (Ok tt,
       mkHost
         (disk (snd (convertOST machine faults ambientAt
                       (pathJoin projectDir [ostFile])
                       (pathJoin outputBaseDir
                                 [JsText.basename ostFile ".ost"])
                       (mkHost (disk h)
                          (printed h
                           ++ [String JsString.LF ("Verarbeite: " ++ ostFile)])))))
         (printed h ++ [String JsString.LF ("Verarbeite: " ++ ostFile)]
          ++ during ++ [verdict])) /\
    (verdict = "Konvertierung von " ++ ostFile ++ " abgeschlossen." \/
     verdict = "Fehler bei der Konvertierung von " ++ ostFile).
Proof.
  unfold processOSTFile. cbv zeta. unfold bind at 1, say at 1.
  set (h1 := mkHost (disk h)
               (printed h ++ [String JsString.LF ("Verarbeite: " ++ ostFile)])).
  destruct (appends_convertOST machine faults ambientAt
              (pathJoin projectDir [ostFile])
              (pathJoin outputBaseDir [JsText.basename ostFile ".ost"]) h1)
    as [during Hduring].
  unfold try_catch, bind.
  destruct (convertOST machine faults ambientAt (pathJoin projectDir [ostFile])
              (pathJoin outputBaseDir [JsText.basename ostFile ".ost"]) h1)
    as [[[]|e] h2]; cbn [snd] in *; unfold say; rewrite Hduring;
    unfold h1; cbn [printed]; exists during; eexists;
    (split; [rewrite <- !app_assoc; reflexivity|]); auto.
Qed.

Lemma forEach_reaches {A} (body : A -> Eff Host unit) (P : list string -> Prop)
  xs x :
  (forall l more, P l -> P (l ++ more)%list) ->
  (forall y, NoThrow (body y)) ->
  (forall y, Appends (body y)) ->
  In x xs ->
  (forall h, P (printed (snd (body x h)))) ->
  forall h, P (printed (snd (forEach body xs h))).
Proof.
  intros Hup Hnt Hap Hin Hx. induction xs as [|y rest IH]; [contradiction|].
  intros h. cbn [forEach]. unfold bind.
  destruct (Hnt y h) as [[] Hok].
  destruct (body y h) as [r h1] eqn:Hrun. cbn [fst] in Hok. subst r.
  destruct Hin as [->|Hin].
  - destruct (appends_forEach body rest Hap h1) as [more Hmore].
    rewrite Hmore. apply Hup. specialize (Hx h). rewrite Hrun in Hx. exact Hx.
  - apply (IH Hin).
Qed.

Lemma onDisk_mkdir_ok faults p h :
  mkdirFails faults p = false ->
  onDisk (mkdir faults p) h
  = (Ok tt,
     mkHost (mkDisk (dirs (disk h) ++ [p]) (files (disk h))
                    (serialized (disk h)))
            (printed h)).
Proof. intros H. unfold onDisk, mkdir. rewrite H. reflexivity. Qed.

(** X22.  The run over the working directory never throws.  When the base
    output directory can be created and the directory can be listed, every
    mailbox file of the listing is attempted, whatever happened to the files
    before it: its name is announced, and the run prints for it that the
    conversion finished or that it failed.  When no file of the listing is a
    mailbox file, the run creates the base output directory, says so and
    does nothing else.  When the directory cannot be listed, the run reports
    the error, having created the base output directory. *)
Theorem run_attempts_every_mailbox (machine : Machine) (faults : Faults)
  (ambientAt : nat -> Ambient) (h : Host) :
  (exists h', processAllOSTFiles machine faults ambientAt h = (Ok tt, h')) /\
  (forall listing file,
      mkdirFails faults (pathJoin (cwd machine) ["outlook_export"]) = false ->
      readdir machine (cwd machine) = Ok listing ->
      In file listing -> isOstName file = true ->
      In (String JsString.LF ("Verarbeite: " ++ file))
         (printed (snd (processAllOSTFiles machine faults ambientAt h))) /\
      (In ("Konvertierung von " ++ file ++ " abgeschlossen.")
          (printed (snd (processAllOSTFiles machine faults ambientAt h))) \/
       In ("Fehler bei der Konvertierung von " ++ file)
          (printed (snd (processAllOSTFiles machine faults ambientAt h))))) /\
  (forall listing,
      mkdirFails faults (pathJoin (cwd machine) ["outlook_export"]) = false ->
      readdir machine (cwd machine) = Ok listing ->
      filter isOstName listing = [] ->
      processAllOSTFiles machine faults ambientAt h
      = (Ok tt,
         mkHost (mkDisk (dirs (disk h)
                         ++ [pathJoin (cwd machine) ["outlook_export"]])
                        (files (disk h)) (serialized (disk h)))
                (printed h ++ ["Keine OST-Dateien im Projektordner gefunden."]))) /\
  (forall e,
      mkdirFails faults (pathJoin (cwd machine) ["outlook_export"]) = false ->
      readdir machine (cwd machine) = Throw e ->
      processAllOSTFiles machine faults ambientAt h
      = (Ok tt,
         mkHost (mkDisk (dirs (disk h)
                         ++ [pathJoin (cwd machine) ["outlook_export"]])
                        (files (disk h)) (serialized (disk h)))
                (printed h ++
                 ["Ein Fehler ist aufgetreten: " ++ inspect machine e]))).
Proof.
  split; [|split; [|split]].
  - assert (Hnt : NoThrow (processAllOSTFiles machine faults ambientAt)).
    { unfold processAllOSTFiles. apply nothrow_try_catch.
      intros e. apply nothrow_say. }
    destruct (Hnt h) as [[] Hok].
    destruct (processAllOSTFiles machine faults ambientAt h) as [r h'].
    cbn [fst] in Hok. subst r. exists h'. reflexivity.
  - intros listing file Hmkdir Hlist Hin Hname.
    assert (Hfound : In file (filter isOstName listing))
      by (apply filter_In; split; assumption).
    assert (Hrun : exists h3,
               processAllOSTFiles machine faults ambientAt h
               = (Ok tt,
                  mkHost (disk h3)
                         (printed h3 ++
                          [String JsString.LF
                                  "Alle Konvertierungen abgeschlossen."])) /\
               (In (String JsString.LF ("Verarbeite: " ++ file)) (printed h3) /\
                (In ("Konvertierung von " ++ file ++ " abgeschlossen.")
                    (printed h3) \/
                 In ("Fehler bei der Konvertierung von " ++ file)
                    (printed h3)))).
    { unfold processAllOSTFiles. cbv zeta. unfold try_catch, bind at 1.
      rewrite (onDisk_mkdir_ok _ _ _ Hmkdir).
      unfold bind at 1, perform, findOSTFiles. rewrite Hlist.
      destruct (filter isOstName listing) as [|f0 found] eqn:Hfilter;
        [contradiction|].
      cbn [isEmpty]. unfold bind at 1, say at 1.
      set (h2 := mkHost _ _).
      set (step := processOSTFile machine faults ambientAt (cwd machine)
                     (pathJoin (cwd machine) ["outlook_export"])).
      unfold bind.
      destruct (nothrow_forEach step (f0 :: found)
                  (fun y _ => processOSTFile_nothrow _ _ _ _ _ y) h2)
        as [[] Hok].
      pose proof (forEach_reaches step
                    (fun l =>
                       In (String JsString.LF ("Verarbeite: " ++ file)) l /\
                       (In ("Konvertierung von " ++ file ++ " abgeschlossen.") l \/
                        In ("Fehler bei der Konvertierung von " ++ file) l))
                    (f0 :: found) file) as Hreach.
      destruct (forEach step (f0 :: found) h2) as [r h3] eqn:Hloop.
      cbn [fst] in Hok. subst r. unfold say. cbn [snd printed].
      assert (Hthere :
                In (String JsString.LF ("Verarbeite: " ++ file)) (printed h3) /\
                (In ("Konvertierung von " ++ file ++ " abgeschlossen.")
                    (printed h3) \/
                 In ("Fehler bei der Konvertierung von " ++ file) (printed h3))).
      { specialize (Hreach
          (fun l more H =>
             conj (in_or_app _ _ _ (or_introl (proj1 H)))
                  (match proj2 H with
                   | or_introl H1 => or_introl (in_or_app _ _ _ (or_introl H1))
                   | or_intror H2 => or_intror (in_or_app _ _ _ (or_introl H2))
                   end))
          (fun y => processOSTFile_nothrow _ _ _ _ _ y)
          (fun y => appends_processOSTFile _ _ _ _ _ y)
          Hfound).
        assert (Hstep : forall h0,
                   In (String JsString.LF ("Verarbeite: " ++ file))
                      (printed (snd (step file h0))) /\
                   (In ("Konvertierung von " ++ file ++ " abgeschlossen.")
                       (printed (snd (step file h0))) \/
                    In ("Fehler bei der Konvertierung von " ++ file)
                       (printed (snd (step file h0))))).
        { intros h0. unfold step.
          destruct (processOSTFile_prints machine faults ambientAt (cwd machine)
                      (pathJoin (cwd machine) ["outlook_export"]) file h0)
            as [during [verdict [Hrun Hverdict]]].
          rewrite Hrun. cbn [snd printed]. split.
          - apply in_or_app. right. left. reflexivity.
          - assert (Hv : In verdict
                           (printed h0 ++
                            [String JsString.LF ("Verarbeite: " ++ file)] ++
                            during ++ [verdict])).
            { apply in_or_app. right. apply in_or_app. right.
              apply in_or_app. right. left. reflexivity. }
            destruct Hverdict as [<-|<-]; [left | right]; exact Hv. }
        specialize (Hreach Hstep h2). rewrite Hloop in Hreach. exact Hreach. }
      exists h3. split; [reflexivity | exact Hthere]. }
    destruct Hrun as [h3 [Hrun [H1 H2]]]. rewrite Hrun. cbn [snd printed].
    split.
    + apply in_or_app. left. exact H1.
    + destruct H2 as [H2|H2]; [left | right]; apply in_or_app; left; exact H2.
  - intros listing Hmkdir Hlist Hnone.
    unfold processAllOSTFiles. cbv zeta. unfold try_catch, bind at 1.
    rewrite (onDisk_mkdir_ok _ _ _ Hmkdir).
    unfold bind at 1, perform, findOSTFiles. rewrite Hlist, Hnone.
    reflexivity.
  - intros e Hmkdir Hlist.
    unfold processAllOSTFiles. cbv zeta. unfold try_catch, bind at 1.
    rewrite (onDisk_mkdir_ok _ _ _ Hmkdir).
    unfold bind at 1, perform, findOSTFiles. rewrite Hlist.
    reflexivity.
Qed.

Lemma run_attempts_every_mailbox_witness :
  In "Fehler bei der Konvertierung von OLD.OST"
     (printed (snd (processAllOSTFiles Fixture.desk noFaults Sample.ambient
                      Fixture.emptyHost))) \/
  In "Konvertierung von OLD.OST abgeschlossen."
     (printed (snd (processAllOSTFiles Fixture.desk noFaults Sample.ambient
                      Fixture.emptyHost))).
Proof.
  destruct (run_attempts_every_mailbox Fixture.desk noFaults Sample.ambient
              Fixture.emptyHost) as [_ [Hevery _]].
  destruct (Hevery ["mail.ost"; "OLD.OST"; "notes.txt"] "OLD.OST"
                   eq_refl eq_refl (or_intror (or_introl eq_refl)) eq_refl)
    as [_ [Hdone|Hfailed]]; [right | left]; assumption.
Defined.
